(** * ldm/invoke/generator/diffusers_pipeline.py

    A shallow embedding of [StableDiffusionGeneratorPipeline]: the latent
    initialiser, the denoising step with classifier-free guidance, the
    generator-based run controller and the safety post-processing, together
    with the properties of the generation loop.

    - Python floats and tensor elements are an abstract scalar type with the
      operations the source applies to them ([Scalar]); the only law assumed
      is that [1.0 > 1.0] is false, so every statement holds for IEEE
      arithmetic ([Binary64]) as well as for exact rationals (the instance
      used for concrete runs).
    - torch tensors are mutable objects: they live in a heap and are passed
      by reference, so that [latents *= sigma] is visible through every
      alias.  A reference to no object cannot arise in Python; the model
      stops on one with [DanglingReference].
    - [step], [decode_to_image], [check_for_safety] and the text encoding
      run under [torch.inference_mode()]; [generate],
      [generate_from_embeddings], [prepare_latents] and
      [image_from_embeddings] do not, and their caller is taken not to.  A
      tensor object made inside that mode is an inference tensor, and torch
      refuses to update one in place outside it.
    - The registered modules of the pipeline (tokenizer, text encoder, unet,
      scheduler, vae, feature extractor, safety checker) and the library
      calls [torch.randn] and [secrets.token_urlsafe] are fields of the
      record [Pipeline], the [self] of the methods.  They are total; an
      exception raised inside one of them is outside this model.
    - Every method returns, besides its result, the calls it made into the
      collaborators, in program order.
    - Generator functions are resumptions: a computation either returns,
      raises, or yields an element together with its continuation. *)

From Stdlib Require Import ZArith QArith List String Bool Lia.
From Corelib Require Import PrimFloat.
From stdpp Require Import base option list strings.

Local Close Scope Q_scope.
Local Open Scope Z_scope.

(** ** Scalars *)

(** The float operations used by the source.  [fgtb x y] is [x > y]; the
    constants are the literals [0], [1.0], [2], [0.5] and [0.18215]. *)
Class Scalar (F : Type) := {
  fadd : F -> F -> F;
  fsub : F -> F -> F;
  fmul : F -> F -> F;
  fdiv : F -> F -> F;
  fgtb : F -> F -> bool;
  f_0 : F;
  f_1 : F;
  f_2 : F;
  f_0_5 : F;
  f_0_18215 : F;
  (** [1.0 > 1.0] is [False] *)
  fgtb_1_1 : fgtb f_1 f_1 = false
}.

(** [x.clamp(lo, hi)] on one element. *)
Definition fclamp {F} `{Scalar F} (lo hi x : F) : F :=
  if fgtb lo x then lo else if fgtb x hi then hi else x.

(** ** Tensors *)

Inductive device := Cpu | Cuda (index : nat) | Mps.
Inductive dtype := Float16 | Float32 | Float64.

#[global] Instance device_eq_dec : EqDecision device.
Proof. solve_decision. Defined.
#[global] Instance dtype_eq_dec : EqDecision dtype.
Proof. solve_decision. Defined.

(** A tensor: its [shape], where it lives, its element type, its elements
    in row-major order, and whether it is an inference tensor
    ([torch.is_inference]): one allocated under [torch.inference_mode()].
    An inference tensor cannot be updated in place outside that mode. *)
Record Tensor (F : Type) := {
  t_shape : list Z;
  t_device : device;
  t_dtype : dtype;
  t_data : list F;
  t_inference : bool
}.
Arguments Build_Tensor {F}.
Arguments t_shape {F}.
Arguments t_device {F}.
Arguments t_dtype {F}.
Arguments t_data {F}.
Arguments t_inference {F}.

(** A tensor that is not an inference tensor.  The values that the torch
    operations below compute are written this way: the flag is read on the
    objects of the heap only, the ones an in-place update can reach, and it
    is settled where an object is stored (see [call_scheduler_step]). *)
Definition mkTensor {F : Type} (shape : list Z) (dev : device) (dt : dtype)
    (data : list F) : Tensor F :=
  Build_Tensor shape dev dt data false.

(** The same tensor, allocated under [torch.inference_mode()]. *)
Definition as_inference {F : Type} (x : Tensor F) : Tensor F :=
  Build_Tensor (t_shape x) (t_device x) (t_dtype x) (t_data x) true.

(** References to tensor objects. *)
Definition loc := nat.

(** ** Exceptions *)

Inductive ValueErrorMsg :=
| HeightWidthNotDivisibleBy8 (height width : Z)
| UnexpectedLatentsShape (got expected : list Z)
| UnexpectedLatentsDevice (got expected : device)
| NotEnoughValuesToUnpack.

Inductive RuntimeErrorMsg :=
| ZeroDimensional
| SizeMismatch
| NegativeDimension
| PermuteDims
| InplaceUpdateToInferenceTensor.

Inductive Exn :=
| ValueError (msg : ValueErrorMsg)
| RuntimeError (msg : RuntimeErrorMsg)
| AssertionError (msg : string)
| DanglingReference (l : loc).

(** ** Prompts *)

(** [Union[str, List[str]]] *)
Inductive Prompt := PStr (s : string) | PList (l : list string).

(** [1 if isinstance(prompt, str) else len(prompt)] *)
Definition batch_size_of (prompt : Prompt) : nat :=
  match prompt with
  | PStr _ => 1%nat
  | PList l => length l
  end.

(** Python truthiness of an optional prompt, as tested by [x or y]. *)
Definition prompt_truthy (p : option Prompt) : bool :=
  match p with
  | None => false
  | Some (PStr EmptyString) => false
  | Some (PStr _) => true
  | Some (PList []) => false
  | Some (PList _) => true
  end.

(** ** The torch operations of the source *)

Section Torch.
Context {F : Type} `{Scalar F}.

(** Number of elements of one slice along dimension 0. *)
Definition slice_numel (rest : list Z) : nat :=
  Z.to_nat (fold_right Z.mul 1 rest).

Definition tensor_map (f : F -> F) (x : Tensor F) : Tensor F :=
  mkTensor (t_shape x) (t_device x) (t_dtype x) (map f (t_data x)).

(** [x * s], and the in-place [x *= s] once stored back *)
Definition tensor_mul_scalar (x : Tensor F) (s : F) : Tensor F :=
  tensor_map (fun e => fmul e s) x.
(** [s * x] *)
Definition scalar_mul_tensor (s : F) (x : Tensor F) : Tensor F :=
  tensor_map (fun e => fmul s e) x.
(** [x / s] *)
Definition tensor_div_scalar (x : Tensor F) (s : F) : Tensor F :=
  tensor_map (fun e => fdiv e s) x.
(** [x + s] *)
Definition tensor_add_scalar (x : Tensor F) (s : F) : Tensor F :=
  tensor_map (fun e => fadd e s) x.
(** [x.clamp(lo, hi)] *)
Definition tensor_clamp (x : Tensor F) (lo hi : F) : Tensor F :=
  tensor_map (fclamp lo hi) x.
(** [x.to(d)] *)
Definition tensor_to (d : device) (x : Tensor F) : Tensor F :=
  mkTensor (t_shape x) d (t_dtype x) (t_data x).

(** [torch.cat([a, b])] along dimension 0: the other dimensions must
    agree. *)
Definition torch_cat2 (a b : Tensor F) : Exn + Tensor F :=
  match t_shape a, t_shape b with
  | na :: ra, nb :: rb =>
      if decide (ra = rb)
      then inr (mkTensor ((na + nb) :: ra) (t_device a) (t_dtype a)
                         (t_data a ++ t_data b))
      else inl (RuntimeError SizeMismatch)
  | _, _ => inl (RuntimeError ZeroDimensional)
  end.

(** [u, c = x.chunk(2)]: the chunk size is [ceil(n / 2)]; a dimension of
    size 1 gives a single chunk, which the unpacking rejects. *)
Definition chunk2 (x : Tensor F) : Exn + (Tensor F * Tensor F) :=
  match t_shape x with
  | [] => inl (RuntimeError ZeroDimensional)
  | n :: rest =>
      if decide (n = 1) then inl (ValueError NotEnoughValuesToUnpack)
      else
        let a := (n + 1) `div` 2 in
        let k := (Z.to_nat a * slice_numel rest)%nat in
        inr (mkTensor (a :: rest) (t_device x) (t_dtype x) (take k (t_data x)),
             mkTensor ((n - a) :: rest) (t_device x) (t_dtype x) (drop k (t_data x)))
  end.

(** [l] repeated [n] times. *)
Fixpoint tile (n : nat) (l : list F) : list F :=
  match n with
  | O => []
  | S n' => l ++ tile n' l
  end.

(** An elementwise binary operator on two tensors whose dimensions other
    than the first agree (the two chunks of one tensor always do):
    equal shapes combine element by element, a first dimension of size 1
    is broadcast over the other operand's. *)
Definition elementwise (f : F -> F -> F) (x y : Tensor F) : Exn + Tensor F :=
  match t_shape x, t_shape y with
  | nx :: rx, ny :: ry =>
      if decide (rx = ry) then
        if decide (nx = ny) then
          inr (mkTensor (t_shape x) (t_device x) (t_dtype x)
                        (zip_with f (t_data x) (t_data y)))
        else if decide (ny = 1) then
          inr (mkTensor (t_shape x) (t_device x) (t_dtype x)
                        (zip_with f (t_data x) (tile (Z.to_nat nx) (t_data y))))
        else if decide (nx = 1) then
          inr (mkTensor (t_shape y) (t_device x) (t_dtype x)
                        (zip_with f (tile (Z.to_nat ny) (t_data x)) (t_data y)))
        else inl (RuntimeError SizeMismatch)
      else inl (RuntimeError SizeMismatch)
  | _, _ => inl (RuntimeError ZeroDimensional)
  end.

(** [x + y] and [x - y] *)
Definition torch_add := elementwise fadd.
Definition torch_sub := elementwise fsub.

(** [x.permute(0, 2, 3, 1)] of a 4-dimensional tensor, made contiguous. *)
Definition permute_0231 (x : Tensor F) : Exn + Tensor F :=
  match t_shape x with
  | [n; c; h; w] =>
      let '(nn, cn, hn, wn) := (Z.to_nat n, Z.to_nat c, Z.to_nat h, Z.to_nat w) in
      inr (mkTensor [n; h; w; c] (t_device x) (t_dtype x)
        (ni ← seq 0 nn; hi ← seq 0 hn; wi ← seq 0 wn; ci ← seq 0 cn;
         from_option (fun e => [e]) []
           (t_data x !! (((ni * cn + ci) * hn + hi) * wn + wi)%nat)))
  | _ => inl (RuntimeError PermuteDims)
  end.
End Torch.

(** ** The pipeline object *)

(** Output of one scheduler step, as tensor values: [prev_sample], and
    [pred_original_sample] for the schedulers that expose it. *)
Record SchedulerOutput (F : Type) := mkSchedulerOutput {
  out_prev_sample : Tensor F;
  out_pred_original_sample : option (Tensor F)
}.
Arguments mkSchedulerOutput {F}.
Arguments out_prev_sample {F}.
Arguments out_pred_original_sample {F}.

(** [self]: the modules registered by [__init__] and the two library calls
    whose results the source does not determine.  The scheduler is a mutable
    object, its state has type [Sched]; [torch.randn] draws from generator
    state [Rng] and returns the elements of the new tensor, whose size,
    device and dtype are those asked for; [secrets.token_urlsafe] draws from
    the system's [Entropy].  A timestep is the integer [int(t)].  An unset
    [feature_extractor] or [safety_checker] is [None]. *)
Record Pipeline (F : Type) := mkPipeline {
  Sched : Type;
  Rng : Type;
  Entropy : Type;
  TokenIds : Type;
  TorchGenerator : Type;
  Kwargs : Type;
  tokenizer : Prompt -> TokenIds;
  text_encoder : TokenIds -> Tensor F;
  unet : Tensor F -> Z -> Tensor F -> Tensor F;
  unet_in_channels : Z;
  unet_device : device;
  unet_dtype : dtype;
  scheduler_set_timesteps : Z -> Sched -> Sched;
  scheduler_timesteps : Sched -> list Z;
  scheduler_init_noise_sigma : Sched -> F;
  scheduler_num_train_timesteps : Sched -> Z;
  scheduler_scale_model_input : Tensor F -> Z -> Sched -> Tensor F * Sched;
  scheduler_step : Tensor F -> Z -> Tensor F -> Kwargs -> Sched -> SchedulerOutput F * Sched;
  vae_decode : Tensor F -> Tensor F;
  feature_extractor : option (Tensor F -> Tensor F);
  safety_checker : option (Tensor F -> Tensor F -> Tensor F * list bool);
  pipeline_device : device;
  torch_randn : list Z -> option TorchGenerator -> Rng -> list F * Rng;
  secrets_token_urlsafe : Z -> Entropy -> string * Entropy
}.
Arguments Sched {F}.
Arguments Rng {F}.
Arguments Entropy {F}.
Arguments TokenIds {F}.
Arguments TorchGenerator {F}.
Arguments Kwargs {F}.
Arguments tokenizer {F}.
Arguments text_encoder {F}.
Arguments unet {F}.
Arguments unet_in_channels {F}.
Arguments unet_device {F}.
Arguments unet_dtype {F}.
Arguments scheduler_set_timesteps {F}.
Arguments scheduler_timesteps {F}.
Arguments scheduler_init_noise_sigma {F}.
Arguments scheduler_num_train_timesteps {F}.
Arguments scheduler_scale_model_input {F}.
Arguments scheduler_step {F}.
Arguments vae_decode {F}.
Arguments feature_extractor {F}.
Arguments safety_checker {F}.
Arguments pipeline_device {F}.
Arguments torch_randn {F}.
Arguments secrets_token_urlsafe {F}.

(** [ID_LENGTH = 8] *)
Definition ID_LENGTH : Z := 8.

(** ** States, outputs and the machine *)

(** [@dataclass PipelineIntermediateState] (lines 15-21), its fields
    [run_id], [step], [timestep], [latents] and [predicted_original]; the
    tensors are references. *)
Record PipelineIntermediateState := mkState {
  st_run_id : string;
  st_step : Z;
  st_timestep : Z;
  st_latents : loc;
  st_predicted_original : option loc
}.

(** [StableDiffusionPipelineOutput(images, nsfw_content_detected)]; the
    images are a host array in batch, height, width, channel order. *)
Record StableDiffusionPipelineOutput (F : Type) := mkOutput {
  images : Tensor F;
  nsfw_content_detected : list bool
}.
Arguments mkOutput {F}.
Arguments images {F}.
Arguments nsfw_content_detected {F}.

(** What the generators yield. *)
Inductive Elem (F : Type) :=
| Intermediate (s : PipelineIntermediateState)
| Final (o : StableDiffusionPipelineOutput F).
Arguments Intermediate {F}.
Arguments Final {F}.

(** [isinstance(result, PipelineIntermediateState)] *)
Definition is_intermediate {F} (y : Elem F) : bool :=
  match y with Intermediate _ => true | Final _ => false end.

Section Machine.
Context {F : Type} (self : Pipeline F).

(** The mutable state a run can touch. *)
Record World := mkWorld {
  heap : list (Tensor F);
  scheduler : Sched self;
  rng : Rng self;
  entropy : Entropy self
}.

(** A call into a collaborator, with what was passed. *)
Inductive Call :=
| CallTokenizer (prompt : Prompt)
| CallTextEncoder (input_ids : TokenIds self)
| CallSetTimesteps (num_inference_steps : Z)
| CallScaleModelInput (sample : Tensor F) (t : Z)
| CallUnet (sample : Tensor F) (t : Z) (encoder_hidden_states : Tensor F)
| CallSchedulerStep (noise_pred : Tensor F) (t : Z) (latents : loc)
| CallVaeDecode (z : Tensor F)
| CallFeatureExtractor (imgs : Tensor F)
| CallSafetyChecker (imgs clip_input : Tensor F)
| CallRandn (size : list Z)
| CallTokenUrlsafe (nbytes : Z)
| CallEmptyCache.

(** What an observer of a consumed generator sees: the collaborator calls,
    the elements as they are yielded, the callback as it is invoked. *)
Inductive Obs :=
| ObsCall (c : Call)
| ObsYield (y : Elem F)
| ObsCallback (y : Elem F).

(** A finished computation: its value or exception, the world it leaves
    and the events it produced, oldest first. *)
Inductive Res (E A : Type) :=
| Ok (a : A) (w : World) (tr : list E)
| Err (e : Exn) (w : World) (tr : list E).

(** Ordinary methods. *)
Definition M (A : Type) : Type := World -> Res Call A.

(** Generator methods: return, raise, or yield [y] and wait to be resumed
    in the world the consumer left; [tr] are the calls made since the
    generator was last resumed. *)
Inductive CoRes (Y A : Type) :=
| Ret (a : A) (w : World) (tr : list Call)
| Raise (e : Exn) (w : World) (tr : list Call)
| Yield (y : Y) (w : World) (tr : list Call) (k : World -> CoRes Y A).

Definition Co (Y A : Type) : Type := World -> CoRes Y A.
End Machine.

Arguments mkWorld {F self}.
Arguments heap {F self}.
Arguments scheduler {F self}.
Arguments rng {F self}.
Arguments entropy {F self}.
Arguments Ok {F self E A}.
Arguments Err {F self E A}.
Arguments Ret {F self Y A}.
Arguments Raise {F self Y A}.
Arguments Yield {F self Y A}.
Arguments CallTokenizer {F self}.
Arguments CallTextEncoder {F self}.
Arguments CallSetTimesteps {F self}.
Arguments CallScaleModelInput {F self}.
Arguments CallUnet {F self}.
Arguments CallSchedulerStep {F self}.
Arguments CallVaeDecode {F self}.
Arguments CallFeatureExtractor {F self}.
Arguments CallSafetyChecker {F self}.
Arguments CallRandn {F self}.
Arguments CallTokenUrlsafe {F self}.
Arguments CallEmptyCache {F self}.
Arguments ObsCall {F self}.
Arguments ObsYield {F self}.
Arguments ObsCallback {F self}.

(** The object returned by [self.scheduler.step]: fresh tensors. *)
Record StepOutput := mkStepOutput {
  prev_sample : loc;
  pred_original_sample : option loc
}.

(** ** Primitive actions *)

Section Actions.
Context {F : Type} `{Scalar F} (self : Pipeline F).

(** Events [tr] happened before those of [r]. *)
Definition prepend {E A : Type} (tr : list E) (r : Res self E A) : Res self E A :=
  match r with
  | Ok a w tr' => Ok a w (tr ++ tr')
  | Err e w tr' => Err e w (tr ++ tr')
  end.

#[global] Instance M_ret : MRet (M self) := fun A a w => Ok a w [].
#[global] Instance M_bind : MBind (M self) := fun A B f c w =>
  match c w with
  | Ok a w' tr => prepend tr (f a w')
  | Err e w' tr => Err e w' tr
  end.

(** [raise e] *)
Definition raise {A : Type} (e : Exn) : M self A := fun w => Err e w [].

Definition of_sum {A : Type} (r : Exn + A) : M self A :=
  match r with
  | inl e => raise e
  | inr a => mret a
  end.

Definition emit (c : Call self) : M self unit := fun w => Ok tt w [c].

Definition get_world : M self (World self) := fun w => Ok w w [].

Definition put_world (w : World self) : M self unit := fun _ => Ok tt w [].

(** Read the tensor object behind a reference. *)
Definition deref (l : loc) : M self (Tensor F) :=
  w ← get_world;
  match heap w !! l with
  | Some t => mret t
  | None => raise (DanglingReference l)
  end.

(** A new tensor object. *)
Definition alloc (t : Tensor F) : M self loc :=
  w ← get_world;
  put_world (mkWorld (heap w ++ [t]) (scheduler w) (rng w) (entropy w));;
  mret (length (heap w)).

Definition alloc_opt (t : option (Tensor F)) : M self (option loc) :=
  match t with
  | Some t => l ← alloc t; mret (Some l)
  | None => mret None
  end.

(** [x *= s] outside [torch.inference_mode()] (lines 235 and 374): the
    object behind [x] is overwritten, its identity kept; torch refuses the
    in-place update of an inference tensor with a [RuntimeError].  Tensors
    that record gradients are outside this model. *)
Definition imul (x : loc) (s : F) : M self unit :=
  t ← deref x;
  if t_inference t then raise (RuntimeError InplaceUpdateToInferenceTensor)
  else
    w ← get_world;
    put_world (mkWorld (<[x := tensor_mul_scalar t s]> (heap w))
                       (scheduler w) (rng w) (entropy w)).

(** *** The collaborators, each call recorded *)

(** [self.tokenizer(prompt, padding=..., max_length=..., truncation=True,
    return_tensors=...)]: see [_tokenize]. *)
Definition call_tokenizer (prompt : Prompt) : M self (TokenIds self) :=
  emit (CallTokenizer prompt);;
  mret (tokenizer self prompt).

(** [self.text_encoder(input_ids)[0]] *)
Definition call_text_encoder (input_ids : TokenIds self) : M self (Tensor F) :=
  emit (CallTextEncoder input_ids);;
  mret (text_encoder self input_ids).

(** [self.unet(sample, t, encoder_hidden_states=...).sample] *)
Definition call_unet (sample : Tensor F) (t : Z) (encoder_hidden_states : Tensor F)
  : M self (Tensor F) :=
  emit (CallUnet sample t encoder_hidden_states);;
  mret (unet self sample t encoder_hidden_states).

(** [self.scheduler.set_timesteps(n)] *)
Definition call_set_timesteps (n : Z) : M self unit :=
  emit (CallSetTimesteps n);;
  w ← get_world;
  put_world (mkWorld (heap w) (scheduler_set_timesteps self n (scheduler w))
                     (rng w) (entropy w)).

(** [self.scheduler.scale_model_input(sample, t)] *)
Definition call_scale_model_input (sample : Tensor F) (t : Z) : M self (Tensor F) :=
  emit (CallScaleModelInput sample t);;
  w ← get_world;
  let r := scheduler_scale_model_input self sample t (scheduler w) in
  put_world (mkWorld (heap w) (snd r) (rng w) (entropy w));;
  mret (fst r).

(** [self.scheduler.step(noise_pred, t, latents, **extra_step_kwargs)],
    called from [step], which runs under [torch.inference_mode()]: the
    tensors of the output are inference tensors.  The scheduler is taken to
    compute its output from its arguments and to return tensors of its own
    making, as the schedulers of diffusers do; a scheduler that hands back
    or overwrites the tensor it was given is outside this model. *)
Definition call_scheduler_step (noise_pred : Tensor F) (t : Z) (latents : loc)
    (extra_step_kwargs : Kwargs self) : M self StepOutput :=
  emit (CallSchedulerStep noise_pred t latents);;
  sample ← deref latents;
  w ← get_world;
  let r := scheduler_step self noise_pred t sample extra_step_kwargs (scheduler w) in
  put_world (mkWorld (heap w) (snd r) (rng w) (entropy w));;
  prev ← alloc (as_inference (out_prev_sample (fst r)));
  pred ← alloc_opt (as_inference <$> out_pred_original_sample (fst r));
  mret (mkStepOutput prev pred).

(** [self.vae.decode(z).sample] *)
Definition call_vae_decode (z : Tensor F) : M self (Tensor F) :=
  emit (CallVaeDecode z);;
  mret (vae_decode self z).

(** [torch.randn(size, generator=generator, device=device, dtype=dtype)] *)
Definition call_randn (size : list Z) (generator : option (TorchGenerator self))
    (dev : device) (dt : dtype) : M self loc :=
  emit (CallRandn size);;
  if decide (Forall (fun d => 0 <= d) size) then
    w ← get_world;
    let r := torch_randn self size generator (rng w) in
    put_world (mkWorld (heap w) (scheduler w) (snd r) (entropy w));;
    alloc (mkTensor size dev dt (fst r))
  else raise (RuntimeError NegativeDimension).

(** [secrets.token_urlsafe(nbytes)] *)
Definition call_token_urlsafe (nbytes : Z) : M self string :=
  emit (CallTokenUrlsafe nbytes);;
  w ← get_world;
  let r := secrets_token_urlsafe self nbytes (entropy w) in
  put_world (mkWorld (heap w) (scheduler w) (rng w) (snd r));;
  mret (fst r).

(** [torch.cuda.empty_cache()] *)
Definition torch_cuda_empty_cache : M self unit := emit CallEmptyCache.

(** *** Generators *)

Definition co_prepend {Y A : Type} (tr : list (Call self)) (r : CoRes self Y A)
  : CoRes self Y A :=
  match r with
  | Ret a w tr' => Ret a w (tr ++ tr')
  | Raise e w tr' => Raise e w (tr ++ tr')
  | Yield y w tr' k => Yield y w (tr ++ tr') k
  end.

Fixpoint res_bind {Y A B : Type} (r : CoRes self Y A) (f : A -> Co self Y B)
  : CoRes self Y B :=
  match r with
  | Ret a w tr => co_prepend tr (f a w)
  | Raise e w tr => Raise e w tr
  | Yield y w tr k => Yield y w tr (fun w' => res_bind (k w') f)
  end.

#[global] Instance Co_ret {Y : Type} : MRet (Co self Y) := fun A a w => Ret a w [].
#[global] Instance Co_bind {Y : Type} : MBind (Co self Y) :=
  fun A B f c w => res_bind (c w) f.

(** An ordinary call made from a generator body. *)
Definition lift {Y A : Type} (c : M self A) : Co self Y A := fun w =>
  match c w with
  | Ok a w' tr => Ret a w' tr
  | Err e w' tr => Raise e w' tr
  end.

(** [yield y] *)
Definition yield_ {Y : Type} (y : Y) : Co self Y unit := fun w =>
  Yield y w [] (fun w' => Ret tt w' []).

(** [raise e] inside a generator body *)
Definition co_raise {Y A : Type} (e : Exn) : Co self Y A := fun w => Raise e w [].
End Actions.

Arguments prepend {F self E A}.
Arguments raise {F self A}.
Arguments of_sum {F self A}.
Arguments co_prepend {F self Y A}.
Arguments res_bind {F self Y A B}.
Arguments lift {F self Y A}.
Arguments yield_ {F self Y}.
Arguments co_raise {F self Y A}.

(** ** The methods of [StableDiffusionGeneratorPipeline] *)

Section Methods.
Context {F : Type} `{Scalar F} (self : Pipeline F).

(** [_tokenize] (lines 337-345) *)
Definition _tokenize (prompt : Prompt) : M self (TokenIds self) :=
  call_tokenizer self prompt.

(** [get_text_embeddings] (lines 292-313) *)
Definition get_text_embeddings (prompt : Prompt) (opposing_prompt : option Prompt)
    (do_classifier_free_guidance : bool) (batch_size : nat) : M self (Tensor F) :=
  text_input ← _tokenize prompt;
  text_embeddings ← call_text_encoder self text_input;
  if do_classifier_free_guidance then
    (* opposing prompt defaults to blank caption for everything in the batch *)
    text_anti_input ← _tokenize
      (match opposing_prompt with
       | Some p => if prompt_truthy opposing_prompt then p
                   else PList (replicate batch_size EmptyString)
       | None => PList (replicate batch_size EmptyString)
       end);
    uncond_embeddings ← call_text_encoder self text_anti_input;
    of_sum (torch_cat2 uncond_embeddings text_embeddings)
  else mret text_embeddings.

(** [latents_shape = (batch_size, self.unet.in_channels, height // 8, width // 8)] *)
Definition latents_shape (batch_size : nat) (height width : Z) : list Z :=
  [Z.of_nat batch_size; unet_in_channels self; height `div` 8; width `div` 8].

(** [prepare_latents] (lines 352-375) *)
Definition prepare_latents (latents : option loc) (batch_size : nat)
    (height width : Z) (generator : option (TorchGenerator self)) (dt : dtype)
  : M self loc :=
  let latents_shape := latents_shape batch_size height width in
  latents ←
    match latents with
    | None => call_randn self latents_shape generator (unet_device self) dt
    | Some latents =>
        t ← deref self latents;
        if decide (t_shape t ≠ latents_shape)
        then raise (ValueError (UnexpectedLatentsShape (t_shape t) latents_shape))
        else mret latents
    end;
  t ← deref self latents;
  if decide (t_device t ≠ unet_device self)
  then raise (ValueError (UnexpectedLatentsDevice (t_device t) (unet_device self)))
  else
    (* scale the initial noise by the standard deviation required by the scheduler *)
    w ← get_world self;
    imul self latents (scheduler_init_noise_sigma self (scheduler w));;
    mret latents.

(** [step] (lines 253-270) *)
Definition step (t : Z) (latents : loc) (guidance_scale : F)
    (text_embeddings : Tensor F) (extra_step_kwargs : Kwargs self) : M self StepOutput :=
  let do_classifier_free_guidance := fgtb guidance_scale f_1 in
  (* expand the latents if we are doing classifier free guidance *)
  x ← deref self latents;
  latent_model_input ←
    (if do_classifier_free_guidance then of_sum (torch_cat2 x x) else mret x);
  latent_model_input ← call_scale_model_input self latent_model_input t;
  (* predict the noise residual *)
  noise_pred ← call_unet self latent_model_input t text_embeddings;
  (* perform guidance *)
  noise_pred ←
    (if do_classifier_free_guidance then
       '(noise_pred_uncond, noise_pred_text) ← of_sum (chunk2 noise_pred);
       d ← of_sum (torch_sub noise_pred_text noise_pred_uncond);
       of_sum (torch_add noise_pred_uncond (scalar_mul_tensor guidance_scale d))
     else mret noise_pred);
  (* compute the previous noisy sample x_t -> x_t-1 *)
  call_scheduler_step self noise_pred t latents extra_step_kwargs.

(** [decode_to_image] (lines 283-290) *)
Definition decode_to_image (latents : loc) : M self (Tensor F) :=
  x ← deref self latents;
  (* scale and decode the image latents with vae *)
  let x := scalar_mul_tensor (fdiv f_1 f_0_18215) x in
  image ← call_vae_decode self x;
  let image := tensor_clamp (tensor_add_scalar (tensor_div_scalar image f_2) f_0_5) f_0 f_1 in
  of_sum (permute_0231 (tensor_to Cpu image)).

(** [check_for_safety] (lines 272-281): an absent module is [None], which
    is falsy; a configured one is truthy. *)
Definition check_for_safety (output : StableDiffusionPipelineOutput F)
  : M self (StableDiffusionPipelineOutput F) :=
  match feature_extractor self, safety_checker self with
  | Some extractor, Some checker =>
      let imgs := images output in
      emit self (CallFeatureExtractor imgs);;
      let clip_input := tensor_to (pipeline_device self) (extractor imgs) in
      emit self (CallSafetyChecker imgs clip_input);;
      let r := checker imgs clip_input in
      mret (mkOutput (fst r) (snd r))
  | _, _ => mret output
  end.

(** The [for i, t in enumerate(self.progress_bar(...))] loop of
    [generate_from_embeddings] (lines 239-244), the progress bar iterating
    as the sequence it wraps; returns the last [latents]. *)
Fixpoint denoise_loop (run_id : string) (guidance_scale : F)
    (text_embeddings : Tensor F) (extra_step_kwargs : Kwargs self)
    (i : Z) (ts : list Z) (latents : loc) : Co self (Elem F) loc :=
  match ts with
  | [] => mret latents
  | t :: ts' =>
      step_output ← lift (step t latents guidance_scale text_embeddings extra_step_kwargs);
      let latents := prev_sample step_output in
      let predicted_original := pred_original_sample step_output in
      yield_ (Intermediate (mkState run_id i t latents predicted_original));;
      denoise_loop run_id guidance_scale text_embeddings extra_step_kwargs (i + 1) ts' latents
  end.

(** [generate_from_embeddings] (lines 230-251) *)
Definition generate_from_embeddings (latents : loc) (text_embeddings : Tensor F)
    (guidance_scale : F) (run_id : option string) (extra_step_kwargs : Kwargs self)
  : Co self (Elem F) unit :=
  run_id ← match run_id with
           | None => lift (call_token_urlsafe self ID_LENGTH)
           | Some run_id => mret run_id
           end;
  (* scale the initial noise by the standard deviation required by the scheduler *)
  w ← lift (get_world self);
  lift (imul self latents (scheduler_init_noise_sigma self (scheduler w)));;
  w ← lift (get_world self);
  yield_ (Intermediate
    (mkState run_id (-1) (scheduler_num_train_timesteps self (scheduler w)) latents None));;
  (* NOTE: Depends on scheduler being already initialized! *)
  w ← lift (get_world self);
  latents ← denoise_loop run_id guidance_scale text_embeddings extra_step_kwargs
              0 (scheduler_timesteps self (scheduler w)) latents;
  lift (torch_cuda_empty_cache self);;
  image ← lift (decode_to_image latents);
  let output := mkOutput image [] in
  output ← lift (check_for_safety output);
  yield_ (Final output).

(** [generate] (lines 197-228) *)
Definition generate (prompt : Prompt) (opposing_prompt : option Prompt)
    (height width num_inference_steps : Z) (guidance_scale : F)
    (generator : option (TorchGenerator self)) (latents : option loc)
    (run_id : option string) (extra_step_kwargs : Kwargs self)
  : Co self (Elem F) unit :=
  let batch_size := batch_size_of prompt in
  if decide (height `mod` 8 ≠ 0 ∨ width `mod` 8 ≠ 0)
  then co_raise (ValueError (HeightWidthNotDivisibleBy8 height width))
  else
    let do_classifier_free_guidance := fgtb guidance_scale f_1 in
    text_embeddings ← lift
      (get_text_embeddings prompt opposing_prompt do_classifier_free_guidance batch_size);
    let text_embeddings := tensor_to (unet_device self) text_embeddings in
    lift (call_set_timesteps self num_inference_steps);;
    latents ← lift
      (prepare_latents latents batch_size height width generator (unet_dtype self));
    generate_from_embeddings latents text_embeddings guidance_scale run_id extra_step_kwargs.

(** A caller's callback: it sees the element, may change the world, and
    may raise. *)
Definition Callback : Type := Elem F -> World self -> option Exn * World self.

(** [callback(result)] *)
Definition call_callback (callback : Callback) (result : Elem F)
  : World self -> Res self (Obs self) unit := fun w =>
  match callback result w with
  | (Some e, w') => Err e w' [ObsCallback result]
  | (None, w') => Ok tt w' [ObsCallback result]
  end.

(** A loop body that does nothing. *)
Definition pass : World self -> Res self (Obs self) unit := fun w => Ok tt w [].

(** [for result in gen: body(result)]; returns the last [result], [None]
    when the generator yielded nothing. *)
Fixpoint for_each (body : Elem F -> World self -> Res self (Obs self) unit)
    (result : option (Elem F)) (r : CoRes self (Elem F) unit)
  : Res self (Obs self) (option (Elem F)) :=
  match r with
  | Ret _ w tr => Ok result w (map ObsCall tr)
  | Raise e w tr => Err e w (map ObsCall tr)
  | Yield y w tr k =>
      match body y w with
      | Ok _ w' tr' =>
          prepend (map ObsCall tr ++ ObsYield y :: tr') (for_each body (Some y) (k w'))
      | Err e w' tr' => Err e w' (map ObsCall tr ++ ObsYield y :: tr')
      end
  end.

(** [if result is None: raise AssertionError(...)]; [return result] *)
Definition return_last (r : Res self (Obs self) (option (Elem F)))
  : Res self (Obs self) (Elem F) :=
  match r with
  | Ok None w tr => Err (AssertionError "why was that an empty generator?") w tr
  | Ok (Some result) w tr => Ok result w tr
  | Err e w tr => Err e w tr
  end.

(** [__call__] (lines 125-181) *)
Definition __call__ (prompt : Prompt) (height width num_inference_steps : Z)
    (guidance_scale : F) (generator : option (TorchGenerator self))
    (latents : option loc) (callback : option Callback)
    (extra_step_kwargs : Kwargs self)
  : World self -> Res self (Obs self) (Elem F) := fun w =>
  return_last
    (for_each
       (fun result =>
          match callback with
          | Some callback => call_callback callback result
          | None => pass
          end)
       None
       (generate prompt None height width num_inference_steps guidance_scale
                 generator latents None extra_step_kwargs w)).

(** [image_from_embeddings] (lines 183-195) *)
Definition image_from_embeddings (latents : loc) (num_inference_steps : Z)
    (text_embeddings : Tensor F) (guidance_scale : F)
    (callback : option Callback) (run_id : option string)
    (extra_step_kwargs : Kwargs self)
  : World self -> Res self (Obs self) (Elem F) := fun w =>
  match call_set_timesteps self num_inference_steps w with
  | Err e w' tr => Err e w' (map ObsCall tr)
  | Ok _ w' tr =>
      prepend (map ObsCall tr)
        (return_last
           (for_each
              (fun result =>
                 match callback with
                 | Some callback =>
                     if is_intermediate result then call_callback callback result
                     else pass
                 | None => pass
                 end)
              None
              (generate_from_embeddings latents text_embeddings guidance_scale
                                        run_id extra_step_kwargs w')))
  end.

(** *** Observations *)

(** The raw state sequence: the elements a generator yields when it is
    drained without interference. *)
Fixpoint elements {A : Type} (r : CoRes self (Elem F) A) : list (Elem F) :=
  match r with
  | Ret _ _ _ => []
  | Raise _ _ _ => []
  | Yield y w _ k => y :: elements (k w)
  end.

(** How the drained generator ends. *)
Fixpoint outcome {A : Type} (r : CoRes self (Elem F) A) : Res self (Call self) A :=
  match r with
  | Ret a w tr => Ok a w tr
  | Raise e w tr => Err e w tr
  | Yield y w tr k => prepend tr (outcome (k w))
  end.

Definition res_trace {E A : Type} (r : Res self E A) : list E :=
  match r with
  | Ok _ _ tr => tr
  | Err _ _ tr => tr
  end.

(** The elements yielded, and those the callback was invoked on. *)
Definition yielded (tr : list (Obs self)) : list (Elem F) :=
  omap (fun o => match o with ObsYield y => Some y | _ => None end) tr.

Definition called_back (tr : list (Obs self)) : list (Elem F) :=
  omap (fun o => match o with ObsCallback y => Some y | _ => None end) tr.

(** A loop body that invokes the callback on the elements selected by [sel]
    and yields nothing itself. *)
Definition selective (sel : Elem F -> bool)
    (body : Elem F -> World self -> Res self (Obs self) unit) : Prop :=
  forall y w,
    yielded (res_trace (body y w)) = []
    ∧ called_back (res_trace (body y w)) = if sel y then [y] else [].

(** The latents of the first state a generator yields, as its consumer
    finds them when it receives that state. *)
Definition first_latents {A : Type} (r : CoRes self (Elem F) A) : option (Tensor F) :=
  match r with
  | Yield (Intermediate s) w _ _ => heap w !! st_latents s
  | _ => None
  end.

(** The intermediate states among the elements. *)
Definition intermediates (ys : list (Elem F)) : list PipelineIntermediateState :=
  omap (fun y => match y with Intermediate s => Some s | Final _ => None end) ys.

(** The noise predictions handed to [scheduler.step]. *)
Definition scheduler_inputs (tr : list (Call self)) : list (Tensor F) :=
  omap (fun c => match c with CallSchedulerStep n _ _ => Some n | _ => None end) tr.

(** The prompts tokenized. *)
Definition tokenized (tr : list (Call self)) : list Prompt :=
  omap (fun c => match c with CallTokenizer p => Some p | _ => None end) tr.
End Methods.

Arguments Callback {F}.
Arguments res_trace {F self E A}.
Arguments yielded {F self}.
Arguments called_back {F self}.
Arguments intermediates {F}.
Arguments scheduler_inputs {F self}.
Arguments tokenized {F self}.
Arguments elements {F self A}.
Arguments first_latents {F self A}.
Arguments outcome {F self A}.

(** ** Vocabulary of the properties *)

(** The phases of a run, after the state machine of the loop. *)
Inductive Phase := Conditioning | Setup | Identifier | Denoising | PostProcessing.

Section Vocabulary.
Context {F : Type} `{Scalar F} (self : Pipeline F).

(** Number of elements of a tensor of shape [sh]. *)
Definition numel (sh : list Z) : nat :=
  match sh with
  | [] => 1%nat
  | n :: rest => (Z.to_nat n * slice_numel rest)%nat
  end.

(** The classifier-free guidance formula as the specification writes it,
    element by element: [u + g * (c - u)]. *)
Definition guidance (g : F) (u c : Tensor F) : Tensor F :=
  mkTensor (t_shape u) (t_device u) (t_dtype u)
           (zip_with (fun a b => fadd a (fmul g (fsub b a))) (t_data u) (t_data c)).

(** What the loop expects of its collaborators: the scheduler and the unet
    return a tensor of the shape they were given, text embeddings share
    their dimensions after the first, the decoder returns a batch of
    images (4 dimensions). *)
Record Contracts : Prop := {
  scale_model_input_shape : forall x t s,
    t_shape (fst (scheduler_scale_model_input self x t s)) = t_shape x;
  unet_shape : forall x t e, t_shape (unet self x t e) = t_shape x;
  scheduler_step_shape : forall n t x k s,
    t_shape (out_prev_sample (fst (scheduler_step self n t x k s))) = t_shape x;
  text_encoder_shape : forall a b, exists na nb rest,
    t_shape (text_encoder self a) = na :: rest
    ∧ t_shape (text_encoder self b) = nb :: rest;
  vae_decode_shape : forall z, exists n c h w,
    t_shape (vae_decode self z) = [n; c; h; w]
}.

(** [l] refers to a tensor with at least one dimension. *)
Definition live (w : World self) (l : loc) : Prop :=
  exists x, heap w !! l = Some x ∧ t_shape x ≠ [].

(** The arguments of the calls to the unet. *)
Definition unet_calls (tr : list (Call self)) : list (Tensor F * Z * Tensor F) :=
  omap (fun c => match c with CallUnet x t e => Some (x, t, e) | _ => None end) tr.

(** The sizes asked of [secrets.token_urlsafe]. *)
Definition token_calls (tr : list (Call self)) : list Z :=
  omap (fun c => match c with CallTokenUrlsafe n => Some n | _ => None end) tr.

(** The final outputs among the elements. *)
Definition finals (ys : list (Elem F)) : list (StableDiffusionPipelineOutput F) :=
  omap (fun y => match y with Final o => Some o | Intermediate _ => None end) ys.

(** The world after [latents *= s] on the object behind [l]. *)
Definition scaled_world (w : World self) (l : loc) (x : Tensor F) (s : F) : World self :=
  mkWorld (<[l := tensor_mul_scalar x s]> (heap w)) (scheduler w) (rng w) (entropy w).

(** The identifier of a run started in [w], and the world once it has been
    chosen: a supplied identifier is kept, an omitted one is drawn from
    [secrets.token_urlsafe(ID_LENGTH)]. *)
Definition run_id_of (w : World self) (run_id : option string) : string :=
  match run_id with
  | Some r => r
  | None => fst (secrets_token_urlsafe self ID_LENGTH (entropy w))
  end.

Definition run_world (w : World self) (run_id : option string) : World self :=
  match run_id with
  | Some _ => w
  | None => mkWorld (heap w) (scheduler w) (rng w)
                    (snd (secrets_token_urlsafe self ID_LENGTH (entropy w)))
  end.

(** The part of [generate_from_embeddings] after its first [yield]. *)
Definition finish_run (run_id : string) (latents : loc) (text_embeddings : Tensor F)
    (guidance_scale : F) (extra_step_kwargs : Kwargs self) : Co self (Elem F) unit :=
  w ← lift (get_world self);
  latents ← denoise_loop self run_id guidance_scale text_embeddings extra_step_kwargs
              0 (scheduler_timesteps self (scheduler w)) latents;
  lift (torch_cuda_empty_cache self);;
  image ← lift (decode_to_image self latents);
  let output := mkOutput image [] in
  output ← lift (check_for_safety self output);
  yield_ (Final output).

(** Step indices [i], [i + 1], ... *)
Definition indices_from (i : Z) (n : nat) : list Z :=
  map (fun k => i + Z.of_nat k) (seq 0 n).

(** Every run of [c] leaves a trace of calls that satisfies [Q]. *)
Definition traces (Q : list (Call self) -> Prop) {A : Type} (c : M self A) : Prop :=
  forall w, Q (res_trace (c w)).

Definition co_traces (Q : list (Call self) -> Prop) {A : Type}
    (c : Co self (Elem F) A) : Prop :=
  forall w, Q (res_trace (outcome (c w))).

(** A property of traces that holds of the empty trace and of the
    concatenation of two traces that have it. *)
Record Monoidal (Q : list (Call self) -> Prop) : Prop := {
  monoidal_nil : Q [];
  monoidal_app : forall a b, Q a -> Q b -> Q (a ++ b)
}.

(** The phase of a run a call belongs to. *)
Definition phase (c : Call self) : Phase :=
  match c with
  | CallTokenizer _ | CallTextEncoder _ => Conditioning
  | CallSetTimesteps _ | CallRandn _ => Setup
  | CallTokenUrlsafe _ => Identifier
  | CallScaleModelInput _ _ | CallUnet _ _ _ | CallSchedulerStep _ _ _ => Denoising
  | CallEmptyCache | CallVaeDecode _ | CallFeatureExtractor _
  | CallSafetyChecker _ _ => PostProcessing
  end.

(** All calls of the trace belong to phase [p]. *)
Definition in_phase (p : Phase) (tr : list (Call self)) : Prop :=
  Forall (fun c => phase c = p) tr.

(** A trace in which only [prompt] is tokenized, the unet is only
    conditioned on [cond], and [scheduler.step] receives the predictions of
    the unet, one for one and as they are. *)
Definition unguided (prompt : Prompt) (cond : Tensor F) (tr : list (Call self)) : Prop :=
  scheduler_inputs tr = map (fun c => unet self c.1.1 c.1.2 c.2) (unet_calls tr)
  ∧ Forall (fun c => c.2 = cond) (unet_calls tr)
  ∧ Forall (fun p => p = prompt) (tokenized tr).

(** [o] is what [check_for_safety] makes of a decoded image with no flags
    yet. *)
Definition screened (o : StableDiffusionPipelineOutput F) : Prop :=
  exists latents image w1 w2 tr1 tr2,
    decode_to_image self latents w1 = Ok image w2 tr1
    ∧ check_for_safety self (mkOutput image []) w2 = Ok o w2 tr2.
End Vocabulary.

Arguments unet_calls {F self}.
Arguments token_calls {F self}.
Arguments finals {F}.
Arguments traces {F self} Q {A}.
Arguments co_traces {F self} Q {A}.

(** ** A concrete pipeline

    Exact rationals for the scalars and small deterministic collaborators,
    so that whole runs evaluate.  The scheduler asks for an initial noise
    sigma of 2 and spreads its timesteps over 1000 training steps. *)

Module Demo.

#[global] Instance Q_scalar : Scalar Q := {|
  fadd := Qplus;
  fsub := Qminus;
  fmul := Qmult;
  fdiv := Qdiv;
  fgtb := fun x y => negb (Qle_bool x y);
  f_0 := 0%Q;
  f_1 := 1%Q;
  f_2 := 2%Q;
  f_0_5 := (1 # 2)%Q;
  f_0_18215 := (3643 # 20000)%Q;
  fgtb_1_1 := eq_refl
|}.

(** One embedding value per prompt: its length. *)
Definition encode (p : Prompt) : Tensor Q :=
  let texts := match p with PStr s => [s] | PList l => l end in
  mkTensor [Z.of_nat (length texts); 1; 1] Cpu Float32
           (map (fun s => inject_Z (Z.of_nat (String.length s))) texts).

(** Half the sample plus the embedding value of its batch row. *)
Definition denoise (sample : Tensor Q) (t : Z) (emb : Tensor Q) : Tensor Q :=
  let rows := Z.to_nat (hd 1 (t_shape sample)) in
  let per_row := slice_numel (tl (t_shape sample)) in
  mkTensor (t_shape sample) (t_device sample) (t_dtype sample)
    (imap (fun i e =>
             (e * (1 # 2) + nth ((i / Nat.max 1 per_row) mod Nat.max 1 rows)%nat (t_data emb) 0)%Q)
          (t_data sample)).

Definition spread_timesteps (n : Z) : list Z :=
  rev (map (fun i => Z.of_nat i * (1000 `div` n)) (seq 0 (Z.to_nat n))).

Definition euler (noise_pred : Tensor Q) (t : Z) (sample : Tensor Q) (_ : unit)
    (s : list Z) : SchedulerOutput Q * list Z :=
  (mkSchedulerOutput
     (mkTensor (t_shape sample) (t_device sample) (t_dtype sample)
               (zip_with Qminus (t_data sample) (t_data noise_pred)))
     (Some noise_pred),
   s).

(** One pixel of three equal channels per latent row: its first element. *)
Definition decode (z : Tensor Q) : Tensor Q :=
  let rows := Z.to_nat (hd 1 (t_shape z)) in
  let per_row := slice_numel (tl (t_shape z)) in
  mkTensor [hd 1 (t_shape z); 3; 1; 1] (t_device z) (t_dtype z)
           (i ← seq 0 rows; replicate 3 (nth (i * per_row) (t_data z) 0%Q)).

(** A detector that flags every image and blanks it. *)
Definition always_flags (imgs clip_input : Tensor Q) : Tensor Q * list bool :=
  (tensor_map (fun _ => 0%Q) imgs, replicate (Z.to_nat (hd 0 (t_shape imgs))) true).

Definition pipe_with (extractor : option (Tensor Q -> Tensor Q))
    (checker : option (Tensor Q -> Tensor Q -> Tensor Q * list bool)) : Pipeline Q := {|
  Sched := list Z;
  Rng := nat;
  Entropy := nat;
  TokenIds := Prompt;
  TorchGenerator := unit;
  Kwargs := unit;
  tokenizer := fun p => p;
  text_encoder := encode;
  unet := denoise;
  unet_in_channels := 4;
  unet_device := Cpu;
  unet_dtype := Float32;
  scheduler_set_timesteps := fun n _ => spread_timesteps n;
  scheduler_timesteps := fun s => s;
  scheduler_init_noise_sigma := fun _ => 2%Q;
  scheduler_num_train_timesteps := fun _ => 1000;
  scheduler_scale_model_input := fun x _ s => (x, s);
  scheduler_step := euler;
  vae_decode := decode;
  feature_extractor := extractor;
  safety_checker := checker;
  pipeline_device := Cpu;
  torch_randn := fun size _ g => (replicate (slice_numel size) 1%Q, S g);
  secrets_token_urlsafe := fun _ e => ("k3J9xQ2mZpA"%string, S e)
|}.

(** No safety checker configured. *)
Definition pipe : Pipeline Q := pipe_with None None.

(** Feature extractor and an always-flagging checker configured. *)
Definition pipe_checked : Pipeline Q := pipe_with (Some (fun x => x)) (Some always_flags).

(** A caller's latent tensor: all ones, on the unet's device. *)
Definition ones : Tensor Q := mkTensor [1; 4; 1; 1] Cpu Float32 [1; 1; 1; 1]%Q.

(** The caller's tensor is the only object, the scheduler has no schedule
    yet. *)
Definition w0 : World pipe := mkWorld (self := pipe) [ones] [] 0%nat 0%nat.

(** The same world once [set_timesteps(2)] has run. *)
Definition w_ready : World pipe :=
  mkWorld (self := pipe) [ones] (spread_timesteps 2) 0%nat 0%nat.
Definition w_ready_checked : World pipe_checked :=
  mkWorld (self := pipe_checked) [ones] (spread_timesteps 2) 0%nat 0%nat.

(** A callback that only watches. *)
Definition watch (p : Pipeline Q) : Callback p := fun _ w => (None, w).

(** The embeddings of the prompt alone, and of the blank prompt followed by
    the prompt. *)
Definition cond_emb : Tensor Q := encode (PStr "a cat").
Definition guided_emb : Tensor Q := encode (PList [EmptyString; "a cat"%string]).

(** The doubled latents of a guided step on [ones], and the two halves of
    the unet's prediction on them. *)
Definition ones2 : Tensor Q :=
  mkTensor [2; 4; 1; 1] Cpu Float32 (t_data ones ++ t_data ones).
Definition uncond_half : Tensor Q :=
  mkTensor [1; 4; 1; 1] Cpu Float32 (take 4 (t_data (denoise ones2 500 guided_emb))).
Definition cond_half : Tensor Q :=
  mkTensor [1; 4; 1; 1] Cpu Float32 (drop 4 (t_data (denoise ones2 500 guided_emb))).

End Demo.

(** ** Python floats

    The scalars of a Python float: IEEE 754 binary64, with the literals
    rounded as the parser of Python rounds them. *)

Module Binary64.

#[local] Set Warnings "-inexact-float".

#[global] Instance float_scalar : Scalar float := {|
  fadd := PrimFloat.add;
  fsub := PrimFloat.sub;
  fmul := PrimFloat.mul;
  fdiv := PrimFloat.div;
  fgtb := fun x y => PrimFloat.ltb y x;
  f_0 := 0%float;
  f_1 := 1%float;
  f_2 := 2%float;
  f_0_5 := 0.5%float;
  f_0_18215 := 0.18215%float;
  fgtb_1_1 := eq_refl
|}.

(** A one-element prediction. *)
Definition scalar_tensor (v : float) : Tensor float := mkTensor [1] Cpu Float64 [v].

End Binary64.

(** ** Further vocabulary *)

Section Observations.
Context {F : Type} `{Scalar F} (self : Pipeline F).

(** The world a finished computation leaves. *)
Definition res_world {E A : Type} (r : Res self E A) : World self :=
  match r with
  | Ok _ w _ => w
  | Err _ w _ => w
  end.

(** [w'] has every tensor object of [w], unchanged, and possibly new ones;
    the generator state of [torch.randn] and the entropy are those of
    [w]. *)
Definition extends (w w' : World self) : Prop :=
  (exists ext, heap w' = heap w ++ ext) ∧ rng w' = rng w ∧ entropy w' = entropy w.

(** Every run of [c] only adds tensor objects. *)
Definition keeps {A : Type} (c : M self A) : Prop :=
  forall w, extends w (res_world (c w)).

Definition co_keeps {A : Type} (c : Co self (Elem F) A) : Prop :=
  forall w, extends w (res_world (outcome (c w))).

(** The elements a drained generator yields, each with the world its
    consumer finds on receiving it. *)
Fixpoint snapshots {A : Type} (r : CoRes self (Elem F) A) : list (Elem F * World self) :=
  match r with
  | Ret _ _ _ => []
  | Raise _ _ _ => []
  | Yield y w _ k => (y, w) :: snapshots (k w)
  end.

(** From each of its yields on, the drained generator only adds tensor
    objects. *)
Fixpoint frozen {A : Type} (r : CoRes self (Elem F) A) : Prop :=
  match r with
  | Ret _ _ _ => True
  | Raise _ _ _ => True
  | Yield _ w _ k => extends w (res_world (outcome (k w))) ∧ frozen (k w)
  end.

(** A generator all of whose runs are [frozen]. *)
Definition steady {A : Type} (c : Co self (Elem F) A) : Prop :=
  forall w, frozen (c w).

(** Every tensor reference of [y] refers to an object of [w]. *)
Definition resolves (w : World self) (y : Elem F) : Prop :=
  match y with
  | Intermediate s =>
      is_Some (heap w !! st_latents s)
      ∧ forall p, st_predicted_original s = Some p -> is_Some (heap w !! p)
  | Final _ => True
  end.

(** Whenever [c] hands over an element, its references resolve. *)
Definition sound {A : Type} (c : Co self (Elem F) A) : Prop :=
  forall w y wy, (y, wy) ∈ snapshots (c w) -> resolves wy y.

(** However the consumer changes the world between resumptions, a run of
    the generator that ends by returning does so with [P] holding of the
    last element it yielded ([last] before its first [yield]). *)
Fixpoint finishes {A : Type} (P : option (Elem F) -> Prop) (last : option (Elem F))
    (r : CoRes self (Elem F) A) : Prop :=
  match r with
  | Ret _ _ _ => P last
  | Raise _ _ _ => True
  | Yield y _ _ k => forall w', finishes P (Some y) (k w')
  end.

(** The last element is a final output. *)
Definition is_final (last : option (Elem F)) : Prop :=
  exists o, last = Some (Final o).

(** A callback, if there is one, that neither raises nor changes the
    world. *)
Definition passive (callback : option (Callback self)) : Prop :=
  forall cb, callback = Some cb -> forall y w, cb y w = (None, w).

(** The trace falls into consecutive segments, one for each phase of [ps]
    in this order; a segment may be empty. *)
Fixpoint staged (ps : list Phase) (tr : list (Call self)) : Prop :=
  match ps with
  | [] => tr = []
  | p :: ps' => exists a b, tr = a ++ b ∧ in_phase self p a ∧ staged ps' b
  end.

(** The blank captions [[<empty string>] * batch_size]. *)
Definition blank_captions (batch_size : nat) : Prompt :=
  PList (replicate batch_size EmptyString).

(** [opposing_prompt or blank captions]: the prompt that is encoded as the
    unconditional one. *)
Definition or_blank (opposing_prompt : option Prompt) (batch_size : nat) : Prompt :=
  match opposing_prompt with
  | Some p => if prompt_truthy opposing_prompt then p else blank_captions batch_size
  | None => blank_captions batch_size
  end.
End Observations.

Arguments res_world {F self E A}.
Arguments snapshots {F self A}.
Arguments frozen {F self A}.
Arguments finishes {F self A}.
Arguments is_final {F}.

(** ** The remaining methods of [StableDiffusionGeneratorPipeline] *)

(** *** Attention settings (lines 80-123) *)

(** [Optional[Union[str, int]]] *)
Inductive SliceSize := SliceStr (s : string) | SliceInt (n : Z) | SliceNone.

#[global] Instance SliceSize_eq_dec : EqDecision SliceSize.
Proof. solve_decision. Defined.

(** The two setters of the unet that the pipeline calls. *)
Inductive UnetSetting :=
| SetAttentionSlice (slice_size : SliceSize)
| SetUseMemoryEfficientAttentionXformers (valid : bool).

(** [enable_attention_slicing] (lines 80-97), for a unet whose
    [config.attention_head_dim] is [attention_head_dim]: the calls made on
    the unet. *)
Definition enable_attention_slicing (attention_head_dim : Z) (slice_size : SliceSize)
  : list UnetSetting :=
  let slice_size :=
    if decide (slice_size = SliceStr "auto")
    then
      (* half the attention head size is usually a good trade-off between
         speed and memory *)
      SliceInt (attention_head_dim `div` 2)
    else slice_size in
  [SetAttentionSlice slice_size].

(** [disable_attention_slicing] (lines 99-105) *)
Definition disable_attention_slicing (attention_head_dim : Z) : list UnetSetting :=
  enable_attention_slicing attention_head_dim SliceNone.

(** [enable_xformers_memory_efficient_attention] and
    [disable_xformers_memory_efficient_attention] (lines 107-123) *)
Definition enable_xformers_memory_efficient_attention : list UnetSetting :=
  [SetUseMemoryEfficientAttentionXformers true].
Definition disable_xformers_memory_efficient_attention : list UnetSetting :=
  [SetUseMemoryEfficientAttentionXformers false].

(** The number of slices the attention is computed in, after the
    docstring of [enable_attention_slicing]:
    [attention_head_dim // slice_size]. *)
Definition slices (attention_head_dim : Z) (s : UnetSetting) : option Z :=
  match s with
  | SetAttentionSlice (SliceInt n) => Some (attention_head_dim `div` n)
  | _ => None
  end.

(** *** [get_learned_conditioning] (lines 315-335) *)

(** What [get_learned_conditioning] needs beyond the modules of the
    pipeline: the values keyword arguments may have, [!=] on floats, the
    device of the text encoder and [input_ids.to(device)]. *)
Class Compat {F : Type} (self : Pipeline F) := {
  KwValue : Type;
  fneb : F -> F -> bool;
  text_encoder_device : device;
  input_ids_to : device -> TokenIds self -> TokenIds self
}.

(** [warnings.warn(...)]: the two messages, with the values they show. *)
Inductive Warning (F V : Type) :=
| FragmentWeightsNotImplemented (fragment_weights : list (list F))
| UnsupportedArgs (kwargs : list (string * V)).
Arguments FragmentWeightsNotImplemented {F V}.
Arguments UnsupportedArgs {F V}.

(** The exceptions of [get_learned_conditioning]: the failed [assert] and
    the [IndexError] of [c[0]] on an empty list. *)
Inductive CompatExn := AssertionFailed | IndexError.

Section Compatibility.
Context {F : Type} `{Scalar F} (self : Pipeline F) `{!Compat self}.

(** [channels] (lines 347-350) *)
Definition channels : Z := unet_in_channels self.

(** [get_learned_conditioning(c, return_tokens, fragment_weights, **kwargs)]:
    the warnings issued, and either the exception raised or the run of the
    tokenizer and the text encoder.  An omitted [fragment_weights] is
    [None]. *)
Definition get_learned_conditioning (c : list (list string)) (return_tokens : bool)
    (fragment_weights : option (list (list F))) (kwargs : list (string * KwValue))
  : World self ->
    list (Warning F KwValue)
    * (CompatExn + Res self (Call self) (Tensor F * TokenIds self)) := fun w =>
  if negb return_tokens then ([], inl AssertionFailed)
  else
    let warned_weights :=
      match fragment_weights with
      | Some (weights :: rest) =>
          if existsb (fun weight => fneb weight f_1) weights
          then [FragmentWeightsNotImplemented (weights :: rest)]
          else []
      | _ => []
      end in
    let warned_kwargs :=
      match kwargs with
      | [] => []
      | _ :: _ => [UnsupportedArgs kwargs]
      end in
    match c with
    | [] => (warned_weights ++ warned_kwargs, inl IndexError)
    | text_fragments :: _ =>
        (warned_weights ++ warned_kwargs,
         inr ((text_input ← _tokenize self (PList text_fragments);
               let token_ids := input_ids_to text_encoder_device text_input in
               text_embeddings ← call_text_encoder self token_ids;
               mret (text_embeddings, text_input)) w))
    end.
End Compatibility.

(** Further values for concrete runs. *)
Module Cases.

(** The device and comparison that go with [Demo.pipe]: everything lives
    on the CPU, moving token ids there changes nothing. *)
#[global] Instance compat : Compat Demo.pipe := {|
  KwValue := string;
  fneb := fun x y => negb (Qeq_bool x y);
  text_encoder_device := Cpu;
  input_ids_to := fun _ ids => ids
|}.

(** A non-empty opposing prompt. *)
Definition dog : option Prompt := Some (PStr "a dog").

(** The caller's tensor once it has been scaled, and the world and the
    state of step -1 of a run with identifier [run] from [Demo.w_ready]. *)
Definition scaled_ones : Tensor Q := mkTensor [1; 4; 1; 1] Cpu Float32 [2; 2; 2; 2]%Q.
Definition first_world : World Demo.pipe :=
  mkWorld (self := Demo.pipe) [scaled_ones] (Demo.spread_timesteps 2) 0%nat 0%nat.
Definition first_state : Elem Q :=
  Intermediate (mkState "run" (-1) 1000 0%nat None).


(** A callback that refuses every state. *)
Definition refuse : Callback Demo.pipe :=
  fun _ w => (Some (AssertionError "stop"), w).

End Cases.

(** * Properties *)

Ltac munfold :=
  unfold mbind, mret, M_bind, M_ret, Co_bind, Co_ret, get_world, put_world, emit,
    raise, co_raise, lift, yield_, of_sum, pass.
Ltac msimpl := repeat (munfold; cbn).

Section Monads.
Context {F : Type} `{Scalar F} (self : Pipeline F).

Lemma prepend_nil {E A : Type} (r : Res self E A) : prepend [] r = r.
Proof. destruct r; reflexivity. Qed.

Lemma res_trace_prepend {E A : Type} (tr : list E) (r : Res self E A) :
  res_trace (prepend tr r) = tr ++ res_trace r.
Proof. destruct r; reflexivity. Qed.

Lemma bind_Ok {A B : Type} (c : M self A) (f : A -> M self B) w a w' tr :
  c w = Ok a w' tr -> (c ≫= f) w = prepend tr (f a w').
Proof. intros E. munfold. rewrite E. reflexivity. Qed.

Lemma bind_Err {A B : Type} (c : M self A) (f : A -> M self B) w e w' tr :
  c w = Err e w' tr -> (c ≫= f) w = Err e w' tr.
Proof. intros E. munfold. rewrite E. reflexivity. Qed.

Lemma elements_co_prepend {A : Type} tr (r : CoRes self (Elem F) A) :
  elements (co_prepend tr r) = elements r.
Proof. destruct r; reflexivity. Qed.

Lemma outcome_co_prepend {A : Type} tr (r : CoRes self (Elem F) A) :
  outcome (co_prepend tr r) = prepend tr (outcome r).
Proof.
  destruct r; cbn; try reflexivity.
  destruct (outcome (k w)); cbn; rewrite app_assoc; reflexivity.
Qed.

(** The elements of [c ≫= f]: those of [c], then those of [f] if [c]
    returns. *)
Lemma elements_bind {A B : Type} (r : CoRes self (Elem F) A)
    (f : A -> Co self (Elem F) B) :
  elements (res_bind r f)
  = elements r ++ match outcome r with
                  | Ok a w _ => elements (f a w)
                  | Err _ _ _ => []
                  end.
Proof.
  induction r as [a w tr|e w tr|y w tr k IH]; cbn.
  - apply elements_co_prepend.
  - reflexivity.
  - rewrite IH. f_equal. f_equal. destruct (outcome (k w)); reflexivity.
Qed.

Lemma outcome_bind {A B : Type} (r : CoRes self (Elem F) A)
    (f : A -> Co self (Elem F) B) :
  outcome (res_bind r f)
  = match outcome r with
    | Ok a w tr => prepend tr (outcome (f a w))
    | Err e w tr => Err e w tr
    end.
Proof.
  induction r as [a w tr|e w tr|y w tr k IH]; cbn.
  - apply outcome_co_prepend.
  - reflexivity.
  - rewrite IH. destruct (outcome (k w)) as [a w' tr'|e w' tr']; cbn.
    + destruct (outcome (f a w')); cbn; rewrite app_assoc; reflexivity.
    + reflexivity.
Qed.

Lemma outcome_lift {A : Type} (c : M self A) w :
  outcome (lift (Y := Elem F) c w) = c w.
Proof. unfold lift. destruct (c w); reflexivity. Qed.

Lemma deref_Some (w : World self) (l : loc) (x : Tensor F) :
  heap w !! l = Some x -> deref self l w = Ok x w [].
Proof. intros E. unfold deref. msimpl. rewrite E. reflexivity. Qed.

Lemma deref_None (w : World self) (l : loc) :
  heap w !! l = None -> deref self l w = Err (DanglingReference l) w [].
Proof. intros E. unfold deref. msimpl. rewrite E. reflexivity. Qed.

Lemma imul_Some (w : World self) (l : loc) (x : Tensor F) (s : F) :
  heap w !! l = Some x ->
  t_inference x = false ->
  imul self l s w
  = Ok tt (mkWorld (<[l := tensor_mul_scalar x s]> (heap w))
                   (scheduler w) (rng w) (entropy w)) [].
Proof.
  intros E I. unfold imul. rewrite (bind_Ok _ _ _ _ _ _ (deref_Some _ _ _ E)).
  rewrite I. reflexivity.
Qed.

(** The in-place update of an inference tensor is refused, the tensor is
    left as it is. *)
Lemma imul_inference (w : World self) (l : loc) (x : Tensor F) (s : F) :
  heap w !! l = Some x ->
  t_inference x = true ->
  imul self l s w = Err (RuntimeError InplaceUpdateToInferenceTensor) w [].
Proof.
  intros E I. unfold imul. rewrite (bind_Ok _ _ _ _ _ _ (deref_Some _ _ _ E)).
  rewrite I. reflexivity.
Qed.

Lemma imul_None (w : World self) (l : loc) (s : F) :
  heap w !! l = None -> imul self l s w = Err (DanglingReference l) w [].
Proof.
  intros E. unfold imul. rewrite (bind_Err _ _ _ _ _ _ (deref_None _ _ E)).
  reflexivity.
Qed.
End Monads.

(** ** Validation *)

Section Validation.
Context {F : Type} `{Scalar F} (self : Pipeline F).

(** C5: [generate] with a height or a width that is not a multiple of 8
    raises the validation error at once: the world is untouched and no
    collaborator has been called; [__call__] fails the same way. *)
Theorem generate_rejects_indivisible (prompt : Prompt) (opposing_prompt : option Prompt)
    (height width num_inference_steps : Z) (guidance_scale : F)
    (generator : option (TorchGenerator self)) (latents : option loc)
    (run_id : option string) (callback : option (Callback self))
    (extra_step_kwargs : Kwargs self) (w : World self) :
  height `mod` 8 ≠ 0 ∨ width `mod` 8 ≠ 0 ->
  generate self prompt opposing_prompt height width num_inference_steps guidance_scale
           generator latents run_id extra_step_kwargs w
  = Raise (ValueError (HeightWidthNotDivisibleBy8 height width)) w []
  ∧ __call__ self prompt height width num_inference_steps guidance_scale
             generator latents callback extra_step_kwargs w
    = Err (ValueError (HeightWidthNotDivisibleBy8 height width)) w [].
Proof.
  intros Hdiv.
  assert (G : forall opp rid,
    generate self prompt opp height width num_inference_steps guidance_scale
             generator latents rid extra_step_kwargs w
    = Raise (ValueError (HeightWidthNotDivisibleBy8 height width)) w []).
  { intros opp rid. unfold generate.
    destruct (decide (height `mod` 8 ≠ 0 ∨ width `mod` 8 ≠ 0)); [reflexivity | contradiction]. }
  split; [apply G |].
  unfold __call__. rewrite G. reflexivity.
Qed.

Lemma prepare_latents_wrong_shape (w : World self) (l : loc) (x : Tensor F)
    (batch_size : nat) (height width : Z)
    (generator : option (TorchGenerator self)) (dt : dtype) :
  heap w !! l = Some x ->
  t_shape x ≠ latents_shape self batch_size height width ->
  prepare_latents self (Some l) batch_size height width generator dt w
  = Err (ValueError (UnexpectedLatentsShape (t_shape x)
           (latents_shape self batch_size height width))) w [].
Proof.
  intros E Hs. unfold prepare_latents.
  rewrite (bind_Err _ _ _ _ (ValueError (UnexpectedLatentsShape (t_shape x)
            (latents_shape self batch_size height width))) w []); [reflexivity |].
  rewrite (bind_Ok _ _ _ _ _ _ _ (deref_Some _ _ _ _ E)).
  destruct (decide _); [reflexivity | contradiction].
Qed.

Lemma prepare_latents_right_shape (w : World self) (l : loc) (x : Tensor F)
    (batch_size : nat) (height width : Z)
    (generator : option (TorchGenerator self)) (dt : dtype) :
  heap w !! l = Some x ->
  t_shape x = latents_shape self batch_size height width ->
  prepare_latents self (Some l) batch_size height width generator dt w
  = if decide (t_device x ≠ unet_device self)
    then Err (ValueError (UnexpectedLatentsDevice (t_device x) (unet_device self))) w []
    else if t_inference x
    then Err (RuntimeError InplaceUpdateToInferenceTensor) w []
    else Ok l (scaled_world self w l x (scheduler_init_noise_sigma self (scheduler w))) [].
Proof.
  intros E Hs. unfold prepare_latents.
  rewrite (bind_Ok _ _ _ _ l w []).
  - rewrite prepend_nil, (bind_Ok _ _ _ _ _ _ _ (deref_Some _ _ _ _ E)), prepend_nil.
    destruct (decide _); [reflexivity |].
    destruct (t_inference x) eqn:I; munfold.
    + rewrite (imul_inference _ _ _ _ _ E I). reflexivity.
    + rewrite (imul_Some _ _ _ _ _ E I). reflexivity.
  - rewrite (bind_Ok _ _ _ _ _ _ _ (deref_Some _ _ _ _ E)).
    destruct (decide _); [contradiction | reflexivity].
Qed.

(** C6: [prepare_latents] on a caller-supplied tensor [x]: a shape other
    than [latents_shape] raises the shape error; with the right shape, a
    device other than the unet's raises the device error (a wrong device
    always ends in a validation error, the shape being checked first);
    otherwise the tensor has passed validation and the same object is
    returned, its shape unchanged.  The in-place scaling that follows the
    validation is what torch refuses for an inference tensor: such a
    tensor passes validation too, and the multiplication then raises a
    [RuntimeError]. *)
Theorem prepare_latents_validates (w : World self) (l : loc) (x : Tensor F)
    (batch_size : nat) (height width : Z)
    (generator : option (TorchGenerator self)) (dt : dtype) :
  heap w !! l = Some x ->
  (t_shape x ≠ latents_shape self batch_size height width ->
     prepare_latents self (Some l) batch_size height width generator dt w
     = Err (ValueError (UnexpectedLatentsShape (t_shape x)
              (latents_shape self batch_size height width))) w [])
  ∧ (t_shape x = latents_shape self batch_size height width ->
     t_device x ≠ unet_device self ->
     prepare_latents self (Some l) batch_size height width generator dt w
     = Err (ValueError (UnexpectedLatentsDevice (t_device x) (unet_device self))) w [])
  ∧ (t_device x ≠ unet_device self ->
     exists msg, prepare_latents self (Some l) batch_size height width generator dt w
                 = Err (ValueError msg) w [])
  ∧ (t_shape x = latents_shape self batch_size height width ->
     t_device x = unet_device self ->
     if t_inference x
     then prepare_latents self (Some l) batch_size height width generator dt w
          = Err (RuntimeError InplaceUpdateToInferenceTensor) w []
     else exists w',
       prepare_latents self (Some l) batch_size height width generator dt w = Ok l w' []
       ∧ t_shape <$> heap w' !! l = Some (t_shape x)
       ∧ t_device <$> heap w' !! l = Some (t_device x)).
Proof.
  intros E.
  pose proof (prepare_latents_wrong_shape w l x batch_size height width generator dt E)
    as Hshape.
  pose proof (prepare_latents_right_shape w l x batch_size height width generator dt E)
    as Hpass.
  split; [exact Hshape |]. split; [| split].
  - intros Hs Hd. rewrite (Hpass Hs).
    destruct (decide _); [reflexivity | contradiction].
  - intros Hd.
    destruct (decide (t_shape x = latents_shape self batch_size height width)) as [Hs|Hs].
    + rewrite (Hpass Hs). destruct (decide _); [| contradiction]. eexists. reflexivity.
    + eexists. apply (Hshape Hs).
  - intros Hs Hd. rewrite (Hpass Hs).
    destruct (decide _) as [|_]; [contradiction |].
    destruct (t_inference x); [reflexivity |].
    eexists. split; [reflexivity |]. cbn.
    rewrite list_lookup_insert_eq by (eapply lookup_lt_Some; exact E).
    split; reflexivity.
Qed.
End Validation.

(** ** The convenience entry points and their callback *)

Section Callbacks.
Context {F : Type} `{Scalar F} (self : Pipeline F).

Lemma yielded_calls (tr : list (Call self)) : yielded (map ObsCall tr) = [].
Proof. induction tr; [reflexivity | assumption]. Qed.

Lemma called_back_calls (tr : list (Call self)) : called_back (map ObsCall tr) = [].
Proof. induction tr; [reflexivity | assumption]. Qed.

Lemma yielded_app (a b : list (Obs self)) : yielded (a ++ b) = yielded a ++ yielded b.
Proof. apply omap_app. Qed.

Lemma called_back_app (a b : list (Obs self)) :
  called_back (a ++ b) = called_back a ++ called_back b.
Proof. apply omap_app. Qed.

Lemma yielded_cons (y : Elem F) (tr : list (Obs self)) :
  yielded (ObsYield y :: tr) = y :: yielded tr.
Proof. reflexivity. Qed.

Lemma called_back_cons (y : Elem F) (tr : list (Obs self)) :
  called_back (ObsYield y :: tr) = called_back tr.
Proof. reflexivity. Qed.

Lemma res_trace_return_last (r : Res self (Obs self) (option (Elem F))) :
  res_trace (return_last self r) = res_trace r.
Proof. destruct r as [[?|] ? ?|? ? ?]; reflexivity. Qed.

(** Draining any generator with such a body invokes the callback exactly
    on the selected elements, in the order they are yielded. *)
Lemma for_each_called_back (sel : Elem F -> bool) body :
  selective self sel body ->
  forall r result,
    called_back (res_trace (for_each self body result r))
    = List.filter sel (yielded (res_trace (for_each self body result r))).
Proof.
  intros Hb r.
  induction r as [a w tr|e w tr|y w tr k IH]; intros result; cbn [for_each res_trace].
  - rewrite yielded_calls, called_back_calls. reflexivity.
  - rewrite yielded_calls, called_back_calls. reflexivity.
  - destruct (Hb y w) as [Hy Hc].
    destruct (body y w) as [[] w' tr'|e w' tr']; cbn [res_trace] in Hy, Hc.
    + rewrite res_trace_prepend, yielded_app, called_back_app.
      rewrite yielded_app, called_back_app, yielded_calls, called_back_calls.
      rewrite yielded_cons, called_back_cons, Hy, Hc, IH.
      cbn. destruct (sel y); reflexivity.
    + cbn [res_trace].
      rewrite yielded_app, called_back_app, yielded_calls, called_back_calls.
      rewrite yielded_cons, called_back_cons, Hy, Hc.
      cbn. destruct (sel y); reflexivity.
Qed.

Lemma call_callback_selective (cb : Callback self) :
  selective self (fun _ => true) (call_callback self cb).
Proof.
  intros y w. unfold call_callback. destruct (cb y w) as [[e|] w']; split; reflexivity.
Qed.

Lemma guarded_callback_selective (cb : Callback self) :
  selective self is_intermediate
    (fun result => if is_intermediate result then call_callback self cb result
                   else pass self).
Proof.
  intros y w. destruct (is_intermediate y).
  - apply (call_callback_selective cb y w).
  - split; reflexivity.
Qed.

Lemma filter_all {A : Type} (l : list A) : List.filter (fun _ => true) l = l.
Proof. induction l; cbn; congruence. Qed.

(** C2 (amended): with a callback supplied, [__call__] invokes it exactly
    once for every element the sequence yields, the final output included;
    [image_from_embeddings] invokes it exactly once for every intermediate
    state the sequence yields and never for the final output. *)
Theorem callback_once_per_element (cb : Callback self)
    (prompt : Prompt) (height width num_inference_steps : Z) (guidance_scale : F)
    (generator : option (TorchGenerator self)) (latents : option loc)
    (l : loc) (text_embeddings : Tensor F) (run_id : option string)
    (extra_step_kwargs : Kwargs self) (w : World self) :
  called_back (res_trace (__call__ self prompt height width num_inference_steps
                            guidance_scale generator latents (Some cb)
                            extra_step_kwargs w))
  = yielded (res_trace (__call__ self prompt height width num_inference_steps
                          guidance_scale generator latents (Some cb)
                          extra_step_kwargs w))
  ∧ called_back (res_trace (image_from_embeddings self l num_inference_steps
                              text_embeddings guidance_scale (Some cb) run_id
                              extra_step_kwargs w))
    = List.filter is_intermediate
        (yielded (res_trace (image_from_embeddings self l num_inference_steps
                               text_embeddings guidance_scale (Some cb) run_id
                               extra_step_kwargs w))).
Proof.
  split.
  - unfold __call__. rewrite res_trace_return_last.
    rewrite (for_each_called_back (fun _ => true) _ (call_callback_selective cb)).
    apply filter_all.
  - unfold image_from_embeddings.
    destruct (call_set_timesteps self num_inference_steps w) as [[] w' tr|e w' tr];
      cbn [res_trace].
    + rewrite res_trace_prepend, res_trace_return_last.
      rewrite yielded_app, called_back_app, yielded_calls, called_back_calls.
      apply (for_each_called_back is_intermediate _ (guarded_callback_selective cb)).
    + rewrite yielded_calls, called_back_calls. reflexivity.
Qed.
End Callbacks.

(** ** The denoising step *)

Section Step.
Context {F : Type} `{Scalar F} (self : Pipeline F).

(** [scheduler.step] on a live reference returns a fresh [prev_sample] and
    leaves every existing object as it was. *)
Lemma call_scheduler_step_Some noise t latents extra (w : World self) x :
  heap w !! latents = Some x ->
  exists pred w',
    call_scheduler_step self noise t latents extra w
    = Ok (mkStepOutput (length (heap w)) pred) w' [CallSchedulerStep noise t latents]
    ∧ heap w' !! length (heap w)
      = Some (as_inference
                (out_prev_sample (fst (scheduler_step self noise t x extra (scheduler w)))))
    ∧ (forall l y, heap w !! l = Some y -> heap w' !! l = Some y)
    ∧ rng w' = rng w ∧ entropy w' = entropy w.
Proof.
  intros E. unfold call_scheduler_step, deref, alloc, alloc_opt, alloc. msimpl.
  rewrite E. msimpl.
  destruct (out_pred_original_sample _) as [p|]; msimpl.
  - eexists _, _. split; [reflexivity |]. cbn. repeat split.
    + rewrite lookup_app_l by (rewrite length_app; cbn; lia).
      apply list_lookup_middle. reflexivity.
    + intros l y Hl. rewrite <- app_assoc. apply lookup_app_l_Some. exact Hl.
  - eexists _, _. split; [reflexivity |]. cbn. repeat split.
    + apply list_lookup_middle. reflexivity.
    + intros l y Hl. apply lookup_app_l_Some. exact Hl.
Qed.

(** Without guidance the unet sees the latents once and its prediction goes
    to the scheduler as it is. *)
Lemma step_unguided t latents g emb extra (w : World self) x :
  fgtb g f_1 = false ->
  heap w !! latents = Some x ->
  step self t latents g emb extra w
  = prepend
      [CallScaleModelInput x t;
       CallUnet (fst (scheduler_scale_model_input self x t (scheduler w))) t emb]
      (call_scheduler_step self
         (unet self (fst (scheduler_scale_model_input self x t (scheduler w))) t emb)
         t latents extra
         (mkWorld (heap w) (snd (scheduler_scale_model_input self x t (scheduler w)))
                  (rng w) (entropy w))).
Proof.
  intros G E. unfold step. rewrite G.
  rewrite (bind_Ok _ _ _ _ _ _ _ (deref_Some _ _ _ _ E)), prepend_nil.
  unfold call_scale_model_input, call_unet. msimpl.
  destruct (call_scheduler_step _ _ _ _ _ _); reflexivity.
Qed.

Lemma step_dangling t latents g emb extra (w : World self) :
  heap w !! latents = None ->
  step self t latents g emb extra w = Err (DanglingReference latents) w [].
Proof.
  intros E. unfold step.
  rewrite (bind_Err _ _ _ _ _ _ _ (deref_None _ _ _ E)). reflexivity.
Qed.

(** *** Guidance *)

Lemma torch_cat2_self (x : Tensor F) n r :
  t_shape x = n :: r ->
  torch_cat2 x x
  = inr (mkTensor ((n + n) :: r) (t_device x) (t_dtype x) (t_data x ++ t_data x)).
Proof.
  intros S. unfold torch_cat2. rewrite S.
  destruct (decide (r = r)); [reflexivity | contradiction].
Qed.

Lemma half_of_double (n : Z) : (n + n + 1) `div` 2 = n.
Proof. symmetry. apply (Z.div_unique _ 2 n 1); lia. Qed.

(** [chunk] splits a prediction whose first dimension is even into two
    halves of the same shape. *)
Lemma chunk2_even (x : Tensor F) n r :
  t_shape x = (n + n) :: r ->
  chunk2 x
  = inr (mkTensor (n :: r) (t_device x) (t_dtype x)
                  (take (Z.to_nat n * slice_numel r) (t_data x)),
         mkTensor (n :: r) (t_device x) (t_dtype x)
                  (drop (Z.to_nat n * slice_numel r) (t_data x))).
Proof.
  intros S. unfold chunk2. rewrite S.
  destruct (decide (n + n = 1)); [lia |].
  rewrite half_of_double. replace (n + n - n) with n by lia. reflexivity.
Qed.

(** [chunk] undoes [cat] on two well-formed tensors of the same shape: the
    first chunk has the elements of the first operand, the second those of
    the second. *)
Lemma chunk2_cat2 (u c np : Tensor F) :
  torch_cat2 u c = inr np ->
  t_shape u = t_shape c ->
  length (t_data u) = numel (t_shape u) ->
  chunk2 np = inr (mkTensor (t_shape u) (t_device u) (t_dtype u) (t_data u),
                   mkTensor (t_shape u) (t_device u) (t_dtype u) (t_data c)).
Proof.
  intros C S L. unfold torch_cat2 in C.
  destruct u as [su du tu xu iu], c as [sc dc tc xc ic]; cbn in *. subst sc.
  destruct su as [|n r]; [discriminate |].
  destruct (decide (r = r)); [| contradiction].
  injection C as <-.
  rewrite (chunk2_even _ n r) by reflexivity. cbn in *.
  rewrite take_app_length', drop_app_length' by (symmetry; exact L).
  reflexivity.
Qed.

Lemma elementwise_same (f : F -> F -> F) (x y : Tensor F) n r :
  t_shape x = n :: r ->
  t_shape y = n :: r ->
  elementwise f x y
  = inr (mkTensor (n :: r) (t_device x) (t_dtype x) (zip_with f (t_data x) (t_data y))).
Proof.
  intros Sx Sy. unfold elementwise. rewrite Sx, Sy.
  destruct (decide (r = r)); [| contradiction].
  destruct (decide (n = n)); [reflexivity | contradiction].
Qed.

Lemma zip_guidance (g : F) (us cs : list F) :
  zip_with fadd us (map (fun e => fmul g e) (zip_with fsub cs us))
  = zip_with (fun a b => fadd a (fmul g (fsub b a))) us cs.
Proof.
  revert cs. induction us as [|a us IH]; intros [|b cs]; cbn; try reflexivity.
  rewrite IH. reflexivity.
Qed.

(** With guidance the latents are doubled, the prediction is split into its
    two chunks [u] and [c], and the scheduler receives [guidance g u c]. *)
Lemma step_guided t latents g emb extra (w : World self) x xx u c n r :
  fgtb g f_1 = true ->
  heap w !! latents = Some x ->
  torch_cat2 x x = inr xx ->
  chunk2 (unet self (fst (scheduler_scale_model_input self xx t (scheduler w))) t emb)
  = inr (u, c) ->
  t_shape u = n :: r ->
  t_shape c = n :: r ->
  step self t latents g emb extra w
  = prepend
      [CallScaleModelInput xx t;
       CallUnet (fst (scheduler_scale_model_input self xx t (scheduler w))) t emb]
      (call_scheduler_step self (guidance g u c) t latents extra
         (mkWorld (heap w) (snd (scheduler_scale_model_input self xx t (scheduler w)))
                  (rng w) (entropy w))).
Proof.
  intros G E C K Su Sc. unfold step. rewrite G.
  rewrite (bind_Ok _ _ _ _ _ _ _ (deref_Some _ _ _ _ E)), prepend_nil.
  rewrite C. unfold call_scale_model_input, call_unet. msimpl.
  rewrite K. msimpl. unfold torch_sub, torch_add.
  rewrite (elementwise_same fsub c u n r Sc Su). msimpl.
  rewrite (elementwise_same fadd u _ n r Su) by reflexivity. msimpl.
  unfold scalar_mul_tensor, tensor_map. cbn.
  rewrite zip_guidance. unfold guidance. rewrite Su.
  destruct (call_scheduler_step _ _ _ _ _ _); reflexivity.
Qed.
End Step.

(** ** The generation loop *)

Section Loop.
Context {F : Type} `{Scalar F} (self : Pipeline F).

Lemma elements_lift_bind {A B : Type} (c : M self A) (f : A -> Co self (Elem F) B) w :
  elements ((lift c ≫= f) w)
  = match c w with
    | Ok a w' _ => elements (f a w')
    | Err _ _ _ => []
    end.
Proof.
  change ((lift c ≫= f) w) with (res_bind (lift c w) f).
  unfold lift. destruct (c w); cbn; [apply elements_co_prepend | reflexivity].
Qed.

Lemma outcome_lift_bind {A B : Type} (c : M self A) (f : A -> Co self (Elem F) B) w :
  outcome ((lift c ≫= f) w)
  = match c w with
    | Ok a w' tr => prepend tr (outcome (f a w'))
    | Err e w' tr => Err e w' tr
    end.
Proof.
  change ((lift c ≫= f) w) with (res_bind (lift c w) f).
  unfold lift. destruct (c w); cbn; [apply outcome_co_prepend | reflexivity].
Qed.

Lemma elements_yield_bind {B : Type} (y : Elem F) (f : unit -> Co self (Elem F) B) w :
  elements ((yield_ y ≫= f) w) = y :: elements (f tt w).
Proof.
  change ((yield_ y ≫= f) w) with (res_bind (yield_ y w) f).
  cbn. rewrite elements_co_prepend. reflexivity.
Qed.

Lemma outcome_yield_bind {B : Type} (y : Elem F) (f : unit -> Co self (Elem F) B) w :
  outcome ((yield_ y ≫= f) w) = outcome (f tt w).
Proof.
  change ((yield_ y ≫= f) w) with (res_bind (yield_ y w) f).
  cbn. rewrite outcome_co_prepend, !prepend_nil. reflexivity.
Qed.

Lemma elements_mbind {A B : Type} (c : Co self (Elem F) A) (f : A -> Co self (Elem F) B) w :
  elements ((c ≫= f) w)
  = elements (c w) ++ match outcome (c w) with
                      | Ok a w' _ => elements (f a w')
                      | Err _ _ _ => []
                      end.
Proof. apply elements_bind. Qed.

(** *** One step under the collaborators' contracts *)

Lemma step_succeeds (HC : Contracts self) t latents g emb extra (w : World self) :
  live self w latents ->
  exists out w' tr,
    step self t latents g emb extra w = Ok out w' tr
    ∧ live self w' (prev_sample out).
Proof.
  intros (x & E & Sx).
  destruct (t_shape x) as [|n r] eqn:S; [contradiction |].
  destruct (fgtb g f_1) eqn:G.
  - pose proof (torch_cat2_self x n r S) as C.
    set (xx := mkTensor ((n + n) :: r) (t_device x) (t_dtype x) (t_data x ++ t_data x)) in C.
    set (inp := fst (scheduler_scale_model_input self xx t (scheduler w))).
    assert (Snp : t_shape (unet self inp t emb) = (n + n) :: r).
    { rewrite (unet_shape self HC). unfold inp.
      rewrite (scale_model_input_shape self HC). reflexivity. }
    pose proof (chunk2_even _ n r Snp) as K.
    rewrite (step_guided self t latents g emb extra w x xx _ _ n r G E C K)
      by reflexivity.
    set (w1 := mkWorld _ _ _ _). set (noise := guidance g _ _).
    destruct (call_scheduler_step_Some self noise t latents extra w1 x E)
      as (pred & w' & -> & Hprev & _).
    eexists _, _, _. split; [reflexivity |].
    eexists. split; [exact Hprev |].
    cbn [as_inference t_shape]. rewrite (scheduler_step_shape self HC), S. discriminate.
  - rewrite (step_unguided self t latents g emb extra w x G E).
    set (w1 := mkWorld _ _ _ _).
    destruct (call_scheduler_step_Some self
                (unet self (fst (scheduler_scale_model_input self x t (scheduler w))) t emb)
                t latents extra w1 x E)
      as (pred & w' & -> & Hprev & _).
    eexists _, _, _. split; [reflexivity |].
    eexists. split; [exact Hprev |].
    cbn [as_inference t_shape]. rewrite (scheduler_step_shape self HC), S. discriminate.
Qed.

(** *** The loop *)

Lemma indices_from_S (i : Z) (n : nat) :
  indices_from i (S n) = i :: indices_from (i + 1) n.
Proof.
  unfold indices_from. cbn. f_equal; [lia |].
  rewrite <- seq_shift, map_map. apply map_ext. intros k. lia.
Qed.

(** Whatever happens, the loop yields intermediate states only, tagged
    with the run identifier, for the first timesteps in order and with
    contiguous step indices. *)
Lemma denoise_loop_elements rid g emb extra ts :
  forall i latents (w : World self),
  exists steps,
    elements (denoise_loop self rid g emb extra i ts latents w) = map Intermediate steps
    ∧ Forall (fun s => st_run_id s = rid) steps
    ∧ map st_step steps = indices_from i (length steps)
    ∧ map st_timestep steps = take (length steps) ts.
Proof.
  induction ts as [|t ts IH]; intros i latents w.
  - exists []. repeat split; constructor.
  - cbn [denoise_loop]. rewrite elements_lift_bind.
    destruct (step self t latents g emb extra w) as [out w' tr|e w' tr].
    + rewrite elements_yield_bind.
      destruct (IH (i + 1) (prev_sample out) w') as (steps & -> & Hr & Hs & Ht).
      exists (mkState rid i t (prev_sample out) (pred_original_sample out) :: steps).
      cbn [map length take]. rewrite indices_from_S, Hs, Ht.
      repeat split. constructor; [reflexivity | exact Hr].
    + exists []. repeat split; constructor.
Qed.

(** Under the contracts the loop runs through the whole schedule. *)
Lemma denoise_loop_succeeds (HC : Contracts self) rid g emb extra ts :
  forall i latents (w : World self),
  live self w latents ->
  exists steps latents' w' tr,
    elements (denoise_loop self rid g emb extra i ts latents w) = map Intermediate steps
    ∧ outcome (denoise_loop self rid g emb extra i ts latents w) = Ok latents' w' tr
    ∧ live self w' latents'
    ∧ map st_step steps = indices_from i (length ts)
    ∧ map st_timestep steps = ts.
Proof.
  induction ts as [|t ts IH]; intros i latents w L.
  - exists [], latents, w, []. repeat split. exact L.
  - cbn [denoise_loop]. rewrite elements_lift_bind, outcome_lift_bind.
    destruct (step_succeeds HC t latents g emb extra w L) as (out & w' & tr & -> & L').
    rewrite elements_yield_bind, outcome_yield_bind.
    destruct (IH (i + 1) (prev_sample out) w' L')
      as (steps & latents' & w'' & tr' & -> & -> & L'' & Hs & Ht).
    exists (mkState rid i t (prev_sample out) (pred_original_sample out) :: steps).
    eexists _, _, _. cbn [map length prepend]. rewrite indices_from_S, Hs, Ht.
    repeat split. exact L''.
Qed.

(** *** After the first yield *)

Lemma check_for_safety_Ok (output : StableDiffusionPipelineOutput F) (w : World self) :
  exists o tr, check_for_safety self output w = Ok o w tr.
Proof.
  unfold check_for_safety.
  destruct (feature_extractor self) as [fe|], (safety_checker self) as [sc|];
    msimpl; eexists _, _; reflexivity.
Qed.

Lemma decode_to_image_succeeds (HC : Contracts self) latents (w : World self) :
  live self w latents ->
  exists image tr, decode_to_image self latents w = Ok image w tr.
Proof.
  intros (x & E & _). unfold decode_to_image.
  rewrite (bind_Ok _ _ _ _ _ _ _ (deref_Some _ _ _ _ E)), prepend_nil.
  unfold call_vae_decode. msimpl.
  destruct (vae_decode_shape self HC
              (scalar_mul_tensor (fdiv f_1 f_0_18215) x)) as (n & c & h & w' & S).
  unfold permute_0231. cbn. rewrite S.
  eexists _, _. reflexivity.
Qed.

(** Whatever happens: intermediate states of the run first, then at most
    one final output, which went through [check_for_safety]. *)
Lemma finish_run_elements rid latents emb g extra (w : World self) :
  exists steps fin,
    elements (finish_run self rid latents emb g extra w)
    = map Intermediate steps ++ map Final fin
    ∧ Forall (fun s => st_run_id s = rid) steps
    ∧ map st_step steps = indices_from 0 (length steps)
    ∧ Forall (screened self) fin.
Proof.
  unfold finish_run. rewrite elements_lift_bind. unfold get_world at 1. cbn match.
  rewrite elements_mbind.
  destruct (denoise_loop_elements rid g emb extra
              (scheduler_timesteps self (scheduler w)) 0 latents w)
    as (steps & -> & Hr & Hs & _).
  exists steps.
  destruct (outcome _) as [latents' w' tr|e w' tr].
  - rewrite elements_lift_bind. unfold torch_cuda_empty_cache, emit at 1. cbn match.
    rewrite elements_lift_bind.
    destruct (decode_to_image self latents' w') as [image w2 tr1|e w2 tr1] eqn:D.
    + rewrite elements_lift_bind.
      destruct (check_for_safety_Ok (mkOutput image []) w2) as (o & tr2 & C).
      rewrite C. exists [o]. repeat split; try assumption.
      constructor; [| constructor].
      exists latents', image, w', w2, tr1, tr2. split; assumption.
    + exists []. repeat split; try assumption. constructor.
  - exists []. repeat split; try assumption. constructor.
Qed.

(** Under the contracts: one state per scheduled timestep, then the final
    output. *)
Lemma finish_run_succeeds (HC : Contracts self) rid latents emb g extra (w : World self) :
  live self w latents ->
  exists steps o,
    elements (finish_run self rid latents emb g extra w)
    = map Intermediate steps ++ [Final o]
    ∧ map st_step steps
      = indices_from 0 (length (scheduler_timesteps self (scheduler w)))
    ∧ map st_timestep steps = scheduler_timesteps self (scheduler w).
Proof.
  intros L. unfold finish_run. rewrite elements_lift_bind. unfold get_world at 1.
  cbn match. rewrite elements_mbind.
  destruct (denoise_loop_succeeds HC rid g emb extra
              (scheduler_timesteps self (scheduler w)) 0 latents w L)
    as (steps & latents' & w' & tr & -> & -> & L' & Hs & Ht).
  rewrite elements_lift_bind. unfold torch_cuda_empty_cache, emit at 1. cbn match.
  rewrite elements_lift_bind.
  destruct (decode_to_image_succeeds HC latents' w' L') as (image & tr1 & ->).
  rewrite elements_lift_bind.
  destruct (check_for_safety_Ok (mkOutput image []) w') as (o & tr2 & ->).
  exists steps, o. repeat split; assumption.
Qed.
End Loop.

(** ** Traces *)

Section Traces.
Context {F : Type} `{Scalar F} (self : Pipeline F).
Context (Q : list (Call self) -> Prop) (HQ : Monoidal self Q).

Lemma traces_ret {A : Type} (a : A) : traces Q (mret a : M self A).
Proof. intros w. apply (monoidal_nil self Q HQ). Qed.

Lemma traces_raise {A : Type} (e : Exn) : traces Q (raise e : M self A).
Proof. intros w. apply (monoidal_nil self Q HQ). Qed.

Lemma traces_bind {A B : Type} (c : M self A) (f : A -> M self B) :
  traces Q c -> (forall a, traces Q (f a)) -> traces Q (c ≫= f).
Proof.
  intros Hc Hf w. specialize (Hc w). munfold.
  destruct (c w) as [a w' tr|e w' tr]; cbn in *; [| exact Hc].
  rewrite res_trace_prepend. apply (monoidal_app self Q HQ); [exact Hc | apply Hf].
Qed.

Lemma traces_of_sum {A : Type} (r : Exn + A) : traces Q (of_sum r : M self A).
Proof. destruct r; [apply traces_raise | apply traces_ret]. Qed.

Lemma traces_get_world : traces Q (get_world self).
Proof. intros w. apply (monoidal_nil self Q HQ). Qed.

Lemma traces_put_world w' : traces Q (put_world self w').
Proof. intros w. apply (monoidal_nil self Q HQ). Qed.

Lemma traces_emit c : Q [c] -> traces Q (emit self c).
Proof. intros Hc w. exact Hc. Qed.

Lemma traces_deref l : traces Q (deref self l).
Proof.
  unfold deref. apply traces_bind; [apply traces_get_world |].
  intros w. destruct (heap w !! l); [apply traces_ret | apply traces_raise].
Qed.

Lemma traces_alloc t : traces Q (alloc self t).
Proof.
  unfold alloc. apply traces_bind; [apply traces_get_world | intros w].
  apply traces_bind; [apply traces_put_world | intros _; apply traces_ret].
Qed.

Lemma traces_alloc_opt t : traces Q (alloc_opt self t).
Proof.
  destruct t; cbn; [| apply traces_ret].
  apply traces_bind; [apply traces_alloc | intros l; apply traces_ret].
Qed.

Lemma traces_imul l s : traces Q (imul self l s).
Proof.
  unfold imul. apply traces_bind; [apply traces_deref | intros t].
  destruct (t_inference t); [apply traces_raise |].
  apply traces_bind; [apply traces_get_world | intros w; apply traces_put_world].
Qed.

(** A trace of calls of one phase has [Q] as soon as each such call has. *)
Lemma in_phase_traces (p : Phase) {A : Type} (c : M self A) :
  (forall e, phase self e = p -> Q [e]) ->
  traces (in_phase self p) c -> traces Q c.
Proof.
  intros Hp Hc w. specialize (Hc w). induction Hc as [|e tr He _ IH].
  - apply (monoidal_nil self Q HQ).
  - apply (monoidal_app self Q HQ [e] tr); [apply Hp, He | exact IH].
Qed.

(** Generators: the calls of a drained run. *)
Lemma co_traces_ret {A : Type} (a : A) : co_traces Q (mret a : Co self (Elem F) A).
Proof. intros w. apply (monoidal_nil self Q HQ). Qed.

Lemma co_traces_lift {A : Type} (c : M self A) : traces Q c -> co_traces Q (lift c).
Proof. intros Hc w. rewrite outcome_lift. apply Hc. Qed.

Lemma co_traces_yield (y : Elem F) : co_traces Q (yield_ y).
Proof. intros w. apply (monoidal_nil self Q HQ). Qed.

Lemma co_traces_bind {A B : Type} (c : Co self (Elem F) A) (f : A -> Co self (Elem F) B) :
  co_traces Q c -> (forall a, co_traces Q (f a)) -> co_traces Q (c ≫= f).
Proof.
  intros Hc Hf w. specialize (Hc w).
  change ((c ≫= f) w) with (res_bind (c w) f). rewrite outcome_bind.
  destruct (outcome (c w)) as [a w' tr|e w' tr]; cbn in *; [| exact Hc].
  rewrite res_trace_prepend. apply (monoidal_app self Q HQ); [exact Hc | apply Hf].
Qed.

Lemma co_traces_denoise_loop rid g emb extra ts :
  (forall t latents, traces Q (step self t latents g emb extra)) ->
  forall i latents, co_traces Q (denoise_loop self rid g emb extra i ts latents).
Proof.
  intros Hstep. induction ts as [|t ts IH]; intros i latents; cbn [denoise_loop].
  - apply co_traces_ret.
  - apply co_traces_bind; [apply co_traces_lift, Hstep | intros out].
    apply co_traces_bind; [apply co_traces_yield | intros _; apply IH].
Qed.
End Traces.

(** One rule of the trace logic, chosen by the shape of the program. *)
Ltac traces_rule HQ :=
  first
    [ apply (traces_bind _ _ HQ); [| intros ?]
    | apply (traces_ret _ _ HQ)
    | apply (traces_raise _ _ HQ)
    | apply (traces_of_sum _ _ HQ)
    | apply (traces_get_world _ _ HQ)
    | apply (traces_put_world _ _ HQ)
    | apply (traces_deref _ _ HQ)
    | apply (traces_alloc _ _ HQ)
    | apply (traces_alloc_opt _ _ HQ)
    | apply (traces_imul _ _ HQ)
    | apply traces_emit
    | match goal with
      | |- traces _ (match ?x with _ => _ end) => destruct x
      end ].
Ltac traces_auto HQ := repeat traces_rule HQ; try solve [repeat constructor].

Section Phases.
Context {F : Type} `{Scalar F} (self : Pipeline F).

Lemma in_phase_monoidal (p : Phase) : Monoidal self (in_phase self p).
Proof. split; [constructor | intros a b; apply Forall_app_2]. Qed.

Lemma step_in_phase t latents g emb extra :
  traces (in_phase self Denoising) (step self t latents g emb extra).
Proof.
  pose proof (in_phase_monoidal Denoising) as HQ.
  unfold step, call_scale_model_input, call_unet, call_scheduler_step.
  traces_auto HQ.
Qed.

Lemma prepare_latents_in_phase latents batch_size height width generator dt :
  traces (in_phase self Setup)
         (prepare_latents self latents batch_size height width generator dt).
Proof.
  pose proof (in_phase_monoidal Setup) as HQ.
  unfold prepare_latents, call_randn. traces_auto HQ.
Qed.

Lemma decode_to_image_in_phase latents :
  traces (in_phase self PostProcessing) (decode_to_image self latents).
Proof.
  pose proof (in_phase_monoidal PostProcessing) as HQ.
  unfold decode_to_image, call_vae_decode. traces_auto HQ.
Qed.

Lemma check_for_safety_in_phase output :
  traces (in_phase self PostProcessing) (check_for_safety self output).
Proof.
  pose proof (in_phase_monoidal PostProcessing) as HQ.
  unfold check_for_safety. traces_auto HQ.
Qed.

Lemma call_set_timesteps_in_phase n :
  traces (in_phase self Setup) (call_set_timesteps self n).
Proof.
  pose proof (in_phase_monoidal Setup) as HQ.
  unfold call_set_timesteps. traces_auto HQ.
Qed.

(** The calls of a run after its first yield: those of the steps, then
    post-processing. *)
Lemma co_traces_finish_run Q (HQ : Monoidal self Q) rid latents emb g extra :
  (forall t l, traces Q (step self t l g emb extra)) ->
  (forall c, phase self c = PostProcessing -> Q [c]) ->
  co_traces Q (finish_run self rid latents emb g extra).
Proof.
  intros Hstep Hpost. unfold finish_run.
  apply (co_traces_bind _ _ HQ);
    [apply co_traces_lift, (traces_get_world _ _ HQ) | intros w].
  apply (co_traces_bind _ _ HQ);
    [apply (co_traces_denoise_loop _ _ HQ), Hstep | intros latents'].
  apply (co_traces_bind _ _ HQ); [| intros _].
  { apply co_traces_lift, traces_emit, Hpost. reflexivity. }
  apply (co_traces_bind _ _ HQ); [| intros image].
  { apply co_traces_lift.
    apply (in_phase_traces _ _ HQ PostProcessing _ Hpost), decode_to_image_in_phase. }
  apply (co_traces_bind _ _ HQ); [| intros output; apply (co_traces_yield _ _ HQ)].
  apply co_traces_lift.
  apply (in_phase_traces _ _ HQ PostProcessing _ Hpost), check_for_safety_in_phase.
Qed.

Lemma co_traces_generate_from_embeddings Q (HQ : Monoidal self Q)
    latents emb g rid extra :
  (forall t l, traces Q (step self t l g emb extra)) ->
  (forall c, phase self c = PostProcessing -> Q [c]) ->
  (rid = None -> Q [CallTokenUrlsafe ID_LENGTH]) ->
  co_traces Q (generate_from_embeddings self latents emb g rid extra).
Proof.
  intros Hstep Hpost Hid. unfold generate_from_embeddings.
  apply (co_traces_bind _ _ HQ); [| intros r].
  { destruct rid; [apply (co_traces_ret _ _ HQ) |].
    apply co_traces_lift. unfold call_token_urlsafe.
    traces_auto HQ. apply Hid. reflexivity. }
  apply (co_traces_bind _ _ HQ);
    [apply co_traces_lift, (traces_get_world _ _ HQ) | intros w].
  apply (co_traces_bind _ _ HQ);
    [apply co_traces_lift, (traces_imul _ _ HQ) | intros _].
  apply (co_traces_bind _ _ HQ);
    [apply co_traces_lift, (traces_get_world _ _ HQ) | intros w'].
  apply (co_traces_bind _ _ HQ); [apply (co_traces_yield _ _ HQ) | intros _].
  apply (co_traces_finish_run Q HQ r latents emb g extra Hstep Hpost).
Qed.
End Phases.

(** ** Whole runs *)

Section Run.
Context {F : Type} `{Scalar F} (self : Pipeline F).

Lemma co_prepend_nil {A : Type} (r : CoRes self (Elem F) A) : co_prepend [] r = r.
Proof. destruct r; reflexivity. Qed.

Lemma co_bind_lift_Ok {A B : Type} (c : M self A) (f : A -> Co self (Elem F) B)
    w a w' tr :
  c w = Ok a w' tr -> (lift c ≫= f) w = co_prepend tr (f a w').
Proof.
  intros E. change ((lift c ≫= f) w) with (res_bind (lift c w) f).
  unfold lift. rewrite E. reflexivity.
Qed.

Lemma co_bind_lift_Err {A B : Type} (c : M self A) (f : A -> Co self (Elem F) B)
    w e w' tr :
  c w = Err e w' tr -> (lift c ≫= f) w = Raise e w' tr.
Proof.
  intros E. change ((lift c ≫= f) w) with (res_bind (lift c w) f).
  unfold lift. rewrite E. reflexivity.
Qed.

Lemma co_bind_ret {A B : Type} (a : A) (f : A -> Co self (Elem F) B) w :
  ((mret a : Co self (Elem F) A) ≫= f) w = f a w.
Proof.
  change ((mret a ≫= f) w) with (co_prepend [] (f a w)). apply co_prepend_nil.
Qed.

(** An omitted run identifier costs one call to [secrets.token_urlsafe];
    from there on the run is the one with that identifier supplied. *)
Lemma generate_from_embeddings_None latents emb g extra (w : World self) :
  generate_from_embeddings self latents emb g None extra w
  = co_prepend [CallTokenUrlsafe ID_LENGTH]
      (generate_from_embeddings self latents emb g (Some (run_id_of self w None)) extra
                                (run_world self w None)).
Proof.
  unfold generate_from_embeddings.
  rewrite (co_bind_lift_Ok _ _ w (run_id_of self w None) (run_world self w None)
             [CallTokenUrlsafe ID_LENGTH]) by reflexivity.
  rewrite co_bind_ret. reflexivity.
Qed.

(** The first resumption with the identifier supplied: the latents are
    scaled in place and yielded as step -1. *)
Lemma generate_from_embeddings_first latents emb g r extra (w : World self) x :
  heap w !! latents = Some x ->
  t_inference x = false ->
  exists k,
    generate_from_embeddings self latents emb g (Some r) extra w
    = Yield (Intermediate (mkState r (-1) (scheduler_num_train_timesteps self (scheduler w))
                                   latents None))
            (scaled_world self w latents x (scheduler_init_noise_sigma self (scheduler w)))
            [] k
    ∧ forall w', k w' = finish_run self r latents emb g extra w'.
Proof.
  intros E I. unfold generate_from_embeddings.
  rewrite co_bind_ret.
  rewrite (co_bind_lift_Ok _ _ w w w []) by reflexivity. rewrite co_prepend_nil.
  rewrite (co_bind_lift_Ok _ _ _ _ _ _ (imul_Some self w latents x _ E I)).
  rewrite co_prepend_nil.
  rewrite (co_bind_lift_Ok _ _ _ _ _ [] eq_refl), co_prepend_nil.
  eexists. split; [reflexivity |].
  intros w'. exact (co_prepend_nil _).
Qed.

Lemma generate_from_embeddings_dangling latents emb g r extra (w : World self) :
  heap w !! latents = None ->
  generate_from_embeddings self latents emb g (Some r) extra w
  = Raise (DanglingReference latents) w [].
Proof.
  intros E. unfold generate_from_embeddings.
  rewrite co_bind_ret.
  rewrite (co_bind_lift_Ok _ _ w w w []) by reflexivity. rewrite co_prepend_nil.
  rewrite (co_bind_lift_Err _ _ _ _ _ _ (imul_None self w latents _ E)).
  reflexivity.
Qed.

(** On an inference tensor the first resumption ends in the refusal of
    the in-place scaling: nothing is yielded, nothing is changed. *)
Lemma generate_from_embeddings_inference latents emb g r extra (w : World self) x :
  heap w !! latents = Some x ->
  t_inference x = true ->
  generate_from_embeddings self latents emb g (Some r) extra w
  = Raise (RuntimeError InplaceUpdateToInferenceTensor) w [].
Proof.
  intros E I. unfold generate_from_embeddings.
  rewrite co_bind_ret.
  rewrite (co_bind_lift_Ok _ _ w w w []) by reflexivity. rewrite co_prepend_nil.
  rewrite (co_bind_lift_Err _ _ _ _ _ _ (imul_inference self w latents x _ E I)).
  reflexivity.
Qed.

(** Latents either refer to a tensor that may be updated in place, or the
    scaling is refused (no tensor, or an inference tensor). *)
Lemma latents_cases (w : World self) (latents : loc) :
  (exists x, heap w !! latents = Some x ∧ t_inference x = false)
  ∨ (forall x, heap w !! latents = Some x -> t_inference x = true).
Proof.
  destruct (heap w !! latents) as [x|]; [| right; intros x [=]].
  destruct (t_inference x) eqn:I; [right; intros ? [= <-]; exact I |].
  left. exists x. split; [reflexivity | exact I].
Qed.

Lemma generate_from_embeddings_refused latents emb g r extra (w : World self) :
  (forall x, heap w !! latents = Some x -> t_inference x = true) ->
  exists e, generate_from_embeddings self latents emb g (Some r) extra w = Raise e w [].
Proof.
  intros Hr. destruct (heap w !! latents) as [x|] eqn:E.
  - eexists. apply (generate_from_embeddings_inference _ _ _ _ _ _ x E (Hr x eq_refl)).
  - eexists. apply generate_from_embeddings_dangling, E.
Qed.

Lemma generate_from_embeddings_elements latents emb g rid extra (w : World self) x :
  heap w !! latents = Some x ->
  t_inference x = false ->
  elements (generate_from_embeddings self latents emb g rid extra w)
  = Intermediate (mkState (run_id_of self w rid) (-1)
                          (scheduler_num_train_timesteps self (scheduler w)) latents None)
    :: elements (finish_run self (run_id_of self w rid) latents emb g extra
                   (scaled_world self (run_world self w rid) latents x
                      (scheduler_init_noise_sigma self (scheduler w)))).
Proof.
  intros E I. destruct rid as [r|].
  - destruct (generate_from_embeddings_first latents emb g r extra w x E I)
      as (k & -> & Hk).
    cbn [elements]. rewrite Hk. reflexivity.
  - rewrite generate_from_embeddings_None, elements_co_prepend.
    destruct (generate_from_embeddings_first latents emb g (run_id_of self w None) extra
                (run_world self w None) x E I) as (k & -> & Hk).
    cbn [elements]. rewrite Hk. reflexivity.
Qed.

Lemma generate_from_embeddings_elements_refused latents emb g rid extra (w : World self) :
  (forall x, heap w !! latents = Some x -> t_inference x = true) ->
  elements (generate_from_embeddings self latents emb g rid extra w) = [].
Proof.
  intros Hr. destruct rid as [r|].
  - destruct (generate_from_embeddings_refused latents emb g r extra w Hr) as (e & ->).
    reflexivity.
  - rewrite generate_from_embeddings_None, elements_co_prepend.
    destruct (generate_from_embeddings_refused latents emb g (run_id_of self w None) extra
                (run_world self w None) Hr) as (e & ->).
    reflexivity.
Qed.

Lemma intermediates_app (a b : list (Elem F)) :
  intermediates (a ++ b) = intermediates a ++ intermediates b.
Proof. apply omap_app. Qed.

Lemma finals_app (a b : list (Elem F)) : finals (a ++ b) = finals a ++ finals b.
Proof. apply omap_app. Qed.

Lemma intermediates_states (steps : list PipelineIntermediateState) :
  intermediates (map (Intermediate (F := F)) steps) = steps.
Proof. induction steps; cbn; [reflexivity | f_equal; assumption]. Qed.

Lemma intermediates_finals (fin : list (StableDiffusionPipelineOutput F)) :
  intermediates (map Final fin) = [].
Proof. induction fin; [reflexivity | assumption]. Qed.

Lemma finals_states (steps : list PipelineIntermediateState) :
  finals (map (Intermediate (F := F)) steps) = [].
Proof. induction steps; [reflexivity | assumption]. Qed.

Lemma finals_finals (fin : list (StableDiffusionPipelineOutput F)) :
  finals (map Final fin) = fin.
Proof. induction fin; cbn; [reflexivity | f_equal; assumption]. Qed.

(** C3: with collaborators that keep their contracts, latents that are a
    tensor of at least one dimension which torch lets the loop scale in
    place (it is not an inference tensor) and a schedule of [N] timesteps,
    the raw sequence of [generate_from_embeddings] has exactly [N + 2]
    elements: the state of step -1, which carries the caller's latents,
    each element multiplied by the initial noise sigma, shape, device and
    dtype as they were; one state per timestep, with step indices 0 to
    [N - 1] in order; the final output. *)
Theorem generate_from_embeddings_sequence (HC : Contracts self)
    (latents : loc) (x emb : Tensor F) (g : F) (rid : option string)
    (extra : Kwargs self) (w : World self) (N : nat) :
  heap w !! latents = Some x ->
  t_inference x = false ->
  t_shape x ≠ [] ->
  length (scheduler_timesteps self (scheduler w)) = N ->
  exists s0 steps o,
    elements (generate_from_embeddings self latents emb g rid extra w)
    = Intermediate s0 :: map Intermediate steps ++ [Final o]
    ∧ length (elements (generate_from_embeddings self latents emb g rid extra w))
      = (N + 2)%nat
    ∧ length steps = N
    ∧ map st_step (s0 :: steps) = indices_from (-1) (S N)
    ∧ map st_timestep steps = scheduler_timesteps self (scheduler w)
    ∧ st_latents s0 = latents
    ∧ exists w1 tr k,
        generate_from_embeddings self latents emb g rid extra w
        = Yield (Intermediate s0) w1 tr k
        ∧ heap w1 !! latents
          = Some (mkTensor (t_shape x) (t_device x) (t_dtype x)
                    (map (fun e => fmul e (scheduler_init_noise_sigma self (scheduler w)))
                         (t_data x))).
Proof.
  intros E I Sx HN.
  set (sigma := scheduler_init_noise_sigma self (scheduler w)).
  assert (L : live self (scaled_world self (run_world self w rid) latents x sigma) latents).
  { exists (tensor_mul_scalar x sigma). split; [| exact Sx].
    cbn. apply list_lookup_insert_eq.
    destruct rid; cbn; eapply lookup_lt_Some; exact E. }
  destruct (finish_run_succeeds self HC (run_id_of self w rid) latents emb g extra _ L)
    as (steps & o & He & Hs & Ht).
  assert (Hsched : scheduler (scaled_world self (run_world self w rid) latents x sigma)
                   = scheduler w) by (destruct rid; reflexivity).
  rewrite Hsched in Hs, Ht.
  assert (Hlen : length steps = N).
  { rewrite <- HN, <- Ht, length_map. reflexivity. }
  eexists _, steps, o.
  rewrite (generate_from_embeddings_elements latents emb g rid extra w x E I).
  fold sigma. rewrite He.
  split; [reflexivity |].
  split; [cbn; rewrite length_app, length_map, Hlen; cbn; lia |].
  split; [exact Hlen |].
  split; [rewrite indices_from_S; cbn [map st_step]; rewrite Hs, HN; reflexivity |].
  split; [exact Ht |].
  split; [reflexivity |].
  destruct rid as [r|].
  - destruct (generate_from_embeddings_first latents emb g r extra w x E I)
      as (k & -> & _).
    eexists _, _, _. split; [reflexivity |].
    cbn. apply list_lookup_insert_eq. eapply lookup_lt_Some; exact E.
  - rewrite generate_from_embeddings_None.
    destruct (generate_from_embeddings_first latents emb g (run_id_of self w None) extra
                (run_world self w None) x E I) as (k & -> & _).
    eexists _, _, _. split; [reflexivity |].
    cbn. apply list_lookup_insert_eq. eapply lookup_lt_Some; exact E.
Qed.

(** *** The run identifier *)

Lemma token_calls_app (a b : list (Call self)) :
  token_calls (a ++ b) = token_calls a ++ token_calls b.
Proof. apply omap_app. Qed.

Lemma no_token_monoidal : Monoidal self (fun tr => token_calls tr = []).
Proof.
  split; [reflexivity |].
  intros a b Ha Hb. rewrite token_calls_app, Ha, Hb. reflexivity.
Qed.

Lemma no_token_after_start latents emb g r extra (w : World self) :
  token_calls (res_trace (outcome
    (generate_from_embeddings self latents emb g (Some r) extra w))) = [].
Proof.
  apply (co_traces_generate_from_embeddings self _ no_token_monoidal).
  - intros t l.
    apply (in_phase_traces self _ no_token_monoidal Denoising);
      [| apply step_in_phase].
    intros [] Hc; try discriminate Hc; reflexivity.
  - intros [] Hc; try discriminate Hc; reflexivity.
  - discriminate.
Qed.

(** C4: every intermediate state of a run carries the same run identifier:
    the one supplied or, when it was omitted, the token returned by the
    single call [secrets.token_urlsafe(ID_LENGTH)] made as the run starts,
    with [ID_LENGTH = 8]. *)
Theorem run_id_stable (latents : loc) (emb : Tensor F) (g : F)
    (rid : option string) (extra : Kwargs self) (w : World self) :
  Forall (fun s => st_run_id s = run_id_of self w rid)
         (intermediates (elements
            (generate_from_embeddings self latents emb g rid extra w)))
  ∧ token_calls (res_trace (outcome
      (generate_from_embeddings self latents emb g rid extra w)))
    = match rid with
      | None => [ID_LENGTH]
      | Some _ => []
      end
  ∧ ID_LENGTH = 8.
Proof.
  split; [| split; [| reflexivity]].
  - destruct (latents_cases w latents) as [(x & E & I)|Hr].
    + rewrite (generate_from_embeddings_elements latents emb g rid extra w x E I).
      destruct (finish_run_elements self (run_id_of self w rid) latents emb g extra
                  (scaled_world self (run_world self w rid) latents x
                     (scheduler_init_noise_sigma self (scheduler w))))
        as (steps & fin & -> & Hr & _).
      change (intermediates (Intermediate ?s :: ?l)) with (s :: intermediates l).
      rewrite intermediates_app, intermediates_states, intermediates_finals, app_nil_r.
      constructor; [reflexivity | exact Hr].
    + rewrite generate_from_embeddings_elements_refused by exact Hr. constructor.
  - destruct rid as [r|].
    + apply no_token_after_start.
    + rewrite generate_from_embeddings_None, outcome_co_prepend, res_trace_prepend.
      rewrite token_calls_app, no_token_after_start. reflexivity.
Qed.

(** *** Safety screening *)

Lemma check_for_safety_skipped (output : StableDiffusionPipelineOutput F) (w : World self) :
  feature_extractor self = None ∨ safety_checker self = None ->
  check_for_safety self output w = Ok output w [].
Proof.
  intros [E|E]; unfold check_for_safety; rewrite E;
    [| destruct (feature_extractor self)]; reflexivity.
Qed.

Lemma check_for_safety_run (output : StableDiffusionPipelineOutput F) (w : World self)
    extractor checker :
  feature_extractor self = Some extractor ->
  safety_checker self = Some checker ->
  check_for_safety self output w
  = Ok (mkOutput
          (fst (checker (images output)
                        (tensor_to (pipeline_device self) (extractor (images output)))))
          (snd (checker (images output)
                        (tensor_to (pipeline_device self) (extractor (images output))))))
       w
       [CallFeatureExtractor (images output);
        CallSafetyChecker (images output)
          (tensor_to (pipeline_device self) (extractor (images output)))].
Proof. intros E1 E2. unfold check_for_safety. rewrite E1, E2. reflexivity. Qed.

(** Every final output of a run went through [check_for_safety]. *)
Lemma finals_screened latents emb g rid extra (w : World self) :
  Forall (screened self)
         (finals (elements (generate_from_embeddings self latents emb g rid extra w))).
Proof.
  destruct (latents_cases w latents) as [(x & E & I)|Hr].
  - rewrite (generate_from_embeddings_elements latents emb g rid extra w x E I).
    destruct (finish_run_elements self (run_id_of self w rid) latents emb g extra
                (scaled_world self (run_world self w rid) latents x
                   (scheduler_init_noise_sigma self (scheduler w))))
      as (steps & fin & -> & _ & _ & Hf).
    change (finals (Intermediate ?s :: ?l)) with (finals l).
    rewrite finals_app, finals_states, finals_finals. exact Hf.
  - rewrite generate_from_embeddings_elements_refused by exact Hr. constructor.
Qed.

(** C9: when the feature extractor or the safety checker is absent,
    [check_for_safety] returns its argument and calls nothing, so the final
    output of a run holds the decoded images and an empty flag list; when
    both are configured the checker runs on the decoded images and the
    final output holds the images and the flags it returned, one per image
    for a checker that reports one per image. *)
Theorem safety_screening (output : StableDiffusionPipelineOutput F) (w0 : World self)
    (latents : loc) (emb : Tensor F) (g : F) (rid : option string)
    (extra : Kwargs self) (w : World self) :
  (feature_extractor self = None ∨ safety_checker self = None ->
     check_for_safety self output w0 = Ok output w0 []
     ∧ Forall (fun o =>
                 nsfw_content_detected o = []
                 ∧ exists l w1 w2 tr, decode_to_image self l w1 = Ok (images o) w2 tr)
              (finals (elements
                 (generate_from_embeddings self latents emb g rid extra w))))
  ∧ (forall extractor checker,
       feature_extractor self = Some extractor ->
       safety_checker self = Some checker ->
       check_for_safety self output w0
       = Ok (mkOutput
               (fst (checker (images output)
                       (tensor_to (pipeline_device self) (extractor (images output)))))
               (snd (checker (images output)
                       (tensor_to (pipeline_device self) (extractor (images output))))))
            w0
            [CallFeatureExtractor (images output);
             CallSafetyChecker (images output)
               (tensor_to (pipeline_device self) (extractor (images output)))]
       ∧ Forall (fun o =>
                   exists image l w1 w2 tr,
                     decode_to_image self l w1 = Ok image w2 tr
                     ∧ images o
                       = fst (checker image
                                (tensor_to (pipeline_device self) (extractor image)))
                     ∧ nsfw_content_detected o
                       = snd (checker image
                                (tensor_to (pipeline_device self) (extractor image)))
                     ∧ ((forall imgs clip_input,
                           length (snd (checker imgs clip_input))
                           = Z.to_nat (hd 0 (t_shape imgs))) ->
                        length (nsfw_content_detected o)
                        = Z.to_nat (hd 0 (t_shape image))))
                (finals (elements
                   (generate_from_embeddings self latents emb g rid extra w)))).
Proof.
  pose proof (finals_screened latents emb g rid extra w) as Hf.
  split.
  - intros Habs. split; [apply check_for_safety_skipped, Habs |].
    eapply Forall_impl; [exact Hf |].
    intros o (l & image & w1 & w2 & tr1 & tr2 & D & C).
    rewrite (check_for_safety_skipped _ _ Habs) in C. injection C as <- _.
    split; [reflexivity |]. exists l, w1, w2, tr1. exact D.
  - intros extractor checker E1 E2.
    split; [apply (check_for_safety_run _ _ _ _ E1 E2) |].
    eapply Forall_impl; [exact Hf |].
    intros o (l & image & w1 & w2 & tr1 & tr2 & D & C).
    rewrite (check_for_safety_run _ _ _ _ E1 E2) in C. injection C as <- _.
    exists image, l, w1, w2, tr1.
    split; [exact D |]. split; [reflexivity |]. split; [reflexivity |].
    intros Hflags. apply Hflags.
Qed.
End Run.

(** ** Guidance *)

Section Guidance.
Context {F : Type} `{Scalar F} (self : Pipeline F).

(** C7: with guidance enabled, when the prediction of the unet on the
    doubled latents is the concatenation of an unconditional half [u] and a
    conditional half [c], the step succeeds and hands the scheduler
    [guidance g u c], whose elements are [u + g * (c - u)]. *)
Theorem step_guidance_formula (t : Z) (latents : loc) (g : F) (emb : Tensor F)
    (extra : Kwargs self) (w : World self) (x xx u c : Tensor F) :
  fgtb g f_1 = true ->
  heap w !! latents = Some x ->
  torch_cat2 x x = inr xx ->
  torch_cat2 u c
  = inr (unet self (fst (scheduler_scale_model_input self xx t (scheduler w))) t emb) ->
  t_shape u = t_shape c ->
  length (t_data u) = numel (t_shape u) ->
  scheduler_inputs (res_trace (step self t latents g emb extra w)) = [guidance g u c]
  ∧ (exists out w',
       step self t latents g emb extra w
       = Ok out w'
            [CallScaleModelInput xx t;
             CallUnet (fst (scheduler_scale_model_input self xx t (scheduler w))) t emb;
             CallSchedulerStep (guidance g u c) t latents])
  ∧ forall i a b,
      t_data u !! i = Some a ->
      t_data c !! i = Some b ->
      t_data (guidance g u c) !! i = Some (fadd a (fmul g (fsub b a))).
Proof.
  intros G E C Hnp Huc Hlen.
  pose proof (chunk2_cat2 u c _ Hnp Huc Hlen) as K.
  assert (exists n r, t_shape u = n :: r) as (n & r & Su).
  { unfold torch_cat2 in Hnp. destruct (t_shape u) as [|n r]; [discriminate | eauto]. }
  rewrite (step_guided self t latents g emb extra w x xx _ _ n r G E C K)
    by (cbn; exact Su).
  change (guidance g (mkTensor (t_shape u) (t_device u) (t_dtype u) (t_data u))
                     (mkTensor (t_shape u) (t_device u) (t_dtype u) (t_data c)))
    with (guidance g u c).
  set (w1 := mkWorld _ _ _ _).
  destruct (call_scheduler_step_Some self (guidance g u c) t latents extra w1 x E)
    as (pred & w' & -> & _).
  split; [reflexivity |]. split; [eexists _, _; reflexivity |].
  intros i a b Ha Hb. cbn. rewrite lookup_zip_with, Ha, Hb. reflexivity.
Qed.

(** *** Guidance scale 1.0 *)

Lemma scheduler_inputs_app (a b : list (Call self)) :
  scheduler_inputs (a ++ b) = scheduler_inputs a ++ scheduler_inputs b.
Proof. apply omap_app. Qed.

Lemma unet_calls_app (a b : list (Call self)) :
  unet_calls (a ++ b) = unet_calls a ++ unet_calls b.
Proof. apply omap_app. Qed.

Lemma tokenized_app (a b : list (Call self)) :
  tokenized (a ++ b) = tokenized a ++ tokenized b.
Proof. apply omap_app. Qed.

Lemma unguided_monoidal prompt cond : Monoidal self (unguided self prompt cond).
Proof.
  split; [repeat split; constructor |].
  intros a b (Ha1 & Ha2 & Ha3) (Hb1 & Hb2 & Hb3). unfold unguided.
  rewrite scheduler_inputs_app, unet_calls_app, tokenized_app, map_app, Ha1, Hb1.
  repeat split; apply Forall_app_2; assumption.
Qed.

(** Without guidance [step] gives the scheduler the prediction of the unet
    on the embeddings it was called with. *)
Lemma step_unguided_inputs t latents emb extra (w : World self) x :
  heap w !! latents = Some x ->
  scheduler_inputs (res_trace (step self t latents f_1 emb extra w))
  = [unet self (fst (scheduler_scale_model_input self x t (scheduler w))) t emb]
  ∧ unet_calls (res_trace (step self t latents f_1 emb extra w))
    = [(fst (scheduler_scale_model_input self x t (scheduler w)), t, emb)]
  ∧ tokenized (res_trace (step self t latents f_1 emb extra w)) = [].
Proof.
  intros E. rewrite (step_unguided self t latents f_1 emb extra w x fgtb_1_1 E).
  set (w1 := mkWorld _ _ _ _).
  destruct (call_scheduler_step_Some self
              (unet self (fst (scheduler_scale_model_input self x t (scheduler w))) t emb)
              t latents extra w1 x E) as (pred & w' & -> & _).
  repeat split.
Qed.

Lemma step_unguided_traces prompt emb extra t latents :
  traces (unguided self prompt emb) (step self t latents f_1 emb extra).
Proof.
  intros w. destruct (heap w !! latents) as [x|] eqn:E.
  - destruct (step_unguided_inputs t latents emb extra w x E) as (H1 & H2 & H3).
    unfold unguided. rewrite H1, H2, H3. repeat split; repeat constructor.
  - rewrite (step_dangling self t latents f_1 emb extra w E).
    repeat split; constructor.
Qed.

Lemma get_text_embeddings_unguided prompt opposing_prompt batch_size (w : World self) :
  get_text_embeddings self prompt opposing_prompt false batch_size w
  = Ok (text_encoder self (tokenizer self prompt)) w
       [CallTokenizer prompt; CallTextEncoder (tokenizer self prompt)].
Proof. reflexivity. Qed.

(** C8: a run of [generate] with guidance scale 1.0 tokenizes and encodes
    the prompt only; every call to the unet is conditioned on that
    embedding alone, and every noise prediction handed to [scheduler.step]
    is the output of the unet as it is ([unguided]).  In particular a step
    on live latents hands the scheduler exactly the unet's prediction. *)
Theorem unguided_generate (prompt : Prompt) (opposing_prompt : option Prompt)
    (height width num_inference_steps : Z) (generator : option (TorchGenerator self))
    (latents : option loc) (run_id : option string) (extra : Kwargs self)
    (w : World self) (t : Z) (l : loc) (x emb : Tensor F) (w' : World self) :
  unguided self prompt
    (tensor_to (unet_device self) (text_encoder self (tokenizer self prompt)))
    (res_trace (outcome
       (generate self prompt opposing_prompt height width num_inference_steps f_1
                 generator latents run_id extra w)))
  ∧ (heap w' !! l = Some x ->
     scheduler_inputs (res_trace (step self t l f_1 emb extra w'))
     = [unet self (fst (scheduler_scale_model_input self x t (scheduler w'))) t emb]).
Proof.
  split; [| intros E; apply (step_unguided_inputs t l emb extra w' x E)].
  set (cond := tensor_to (unet_device self) (text_encoder self (tokenizer self prompt))).
  pose proof (unguided_monoidal prompt cond) as HQ.
  assert (Haux : forall p, p = Setup ∨ p = Identifier ∨ p = PostProcessing ->
                 forall c, phase self c = p -> unguided self prompt cond [c]).
  { intros p Hp [] <-; destruct Hp as [Hp|[Hp|Hp]]; try discriminate Hp;
      repeat split; constructor. }
  unfold generate.
  destruct (decide (height `mod` 8 ≠ 0 ∨ width `mod` 8 ≠ 0)).
  { apply (monoidal_nil self _ HQ). }
  rewrite fgtb_1_1, outcome_lift_bind, get_text_embeddings_unguided, res_trace_prepend.
  apply (monoidal_app self _ HQ).
  { repeat split; repeat constructor. }
  fold cond.
  apply (co_traces_bind self _ HQ); [| intros _].
  { apply co_traces_lift.
    apply (in_phase_traces self _ HQ Setup _ (Haux Setup (or_introl eq_refl))).
    apply call_set_timesteps_in_phase. }
  apply (co_traces_bind self _ HQ); [| intros latents'].
  { apply co_traces_lift.
    apply (in_phase_traces self _ HQ Setup _ (Haux Setup (or_introl eq_refl))).
    apply prepare_latents_in_phase. }
  apply (co_traces_generate_from_embeddings self _ HQ).
  - intros t' l'. apply step_unguided_traces.
  - apply (Haux PostProcessing). auto.
  - intros _. apply (Haux Identifier); auto.
Qed.
End Guidance.

(** ** The caller's latents *)

Section CallerLatents.
Context {F : Type} `{Scalar F} (self : Pipeline F).

Lemma get_text_embeddings_succeeds (HC : Contracts self) prompt opposing_prompt cfg
    batch_size (w : World self) :
  exists emb tr,
    get_text_embeddings self prompt opposing_prompt cfg batch_size w = Ok emb w tr.
Proof.
  destruct cfg; [| eexists _, _; reflexivity].
  unfold get_text_embeddings, _tokenize, call_tokenizer, call_text_encoder. msimpl.
  match goal with
  | |- context [torch_cat2 (text_encoder self ?a) (text_encoder self ?b)] =>
      destruct (text_encoder_shape self HC a b) as (na & nb & rest & Sa & Sb);
      unfold torch_cat2; rewrite Sa, Sb
  end.
  destruct (decide (rest = rest)); [| contradiction].
  eexists _, _. reflexivity.
Qed.

(** C10: a tensor the caller passes to [generate] as [latents], of the
    expected shape and on the unet's device, is accepted when torch lets
    the pipeline multiply it in place, that is when it is not an inference
    tensor.  It is then the object the first state refers to, and by the
    time that state is yielded its elements have been multiplied in place
    by the initial noise sigma twice (once by [prepare_latents], once by
    [generate_from_embeddings]); its shape, device and dtype are as they
    were.  An inference tensor is not accepted: the multiplication of
    [prepare_latents] raises a [RuntimeError], nothing is yielded and the
    tensor is as it was. *)
Theorem generate_scales_caller_latents (HC : Contracts self)
    (prompt : Prompt) (opposing_prompt : option Prompt)
    (height width num_inference_steps : Z) (g : F)
    (generator : option (TorchGenerator self)) (l : loc) (x : Tensor F)
    (run_id : option string) (extra : Kwargs self) (w : World self) :
  height `mod` 8 = 0 ->
  width `mod` 8 = 0 ->
  heap w !! l = Some x ->
  t_shape x = latents_shape self (batch_size_of prompt) height width ->
  t_device x = unet_device self ->
  if t_inference x
  then
    exists w' tr,
      generate self prompt opposing_prompt height width num_inference_steps g
               generator (Some l) run_id extra w
      = Raise (RuntimeError InplaceUpdateToInferenceTensor) w' tr
      ∧ heap w' !! l = Some x
  else
    exists s0 w' tr k y,
      generate self prompt opposing_prompt height width num_inference_steps g
               generator (Some l) run_id extra w
      = Yield (Intermediate s0) w' tr k
      ∧ st_latents s0 = l
      ∧ heap w' !! l = Some y
      ∧ t_data y
        = map (fun e =>
                 fmul (fmul e (scheduler_init_noise_sigma self
                                 (scheduler_set_timesteps self num_inference_steps
                                    (scheduler w))))
                      (scheduler_init_noise_sigma self
                         (scheduler_set_timesteps self num_inference_steps (scheduler w))))
              (t_data x)
      ∧ t_shape y = t_shape x ∧ t_device y = t_device x ∧ t_dtype y = t_dtype x
      ∧ t_inference y = false.
Proof.
  intros Hh Hw E Sx Dx. unfold generate.
  destruct (decide (height `mod` 8 ≠ 0 ∨ width `mod` 8 ≠ 0)) as [[?|?]|_];
    [contradiction | contradiction |].
  destruct (get_text_embeddings_succeeds HC prompt opposing_prompt (fgtb g f_1)
              (batch_size_of prompt) w) as (emb & tr0 & Hemb).
  rewrite (co_bind_lift_Ok self _ _ _ _ _ _ Hemb).
  set (w1 := mkWorld (heap w)
               (scheduler_set_timesteps self num_inference_steps (scheduler w))
               (rng w) (entropy w)).
  rewrite (co_bind_lift_Ok self _ _ w tt w1 [CallSetTimesteps num_inference_steps])
    by reflexivity.
  set (sigma := scheduler_init_noise_sigma self
                  (scheduler_set_timesteps self num_inference_steps (scheduler w))).
  destruct (t_inference x) eqn:I.
  { assert (Hprep : prepare_latents self (Some l) (batch_size_of prompt) height width
                      generator (unet_dtype self) w1
                    = Err (RuntimeError InplaceUpdateToInferenceTensor) w1 []).
    { rewrite (prepare_latents_right_shape self w1 l x _ _ _ _ _ E Sx), I.
      destruct (decide _); [contradiction | reflexivity]. }
    rewrite (co_bind_lift_Err self _ _ _ _ _ _ Hprep).
    eexists _, _. split; [reflexivity | exact E]. }
  assert (Hprep : prepare_latents self (Some l) (batch_size_of prompt) height width
                    generator (unet_dtype self) w1
                  = Ok l (scaled_world self w1 l x sigma) []).
  { rewrite (prepare_latents_right_shape self w1 l x _ _ _ _ _ E Sx), I.
    destruct (decide _); [contradiction | reflexivity]. }
  rewrite (co_bind_lift_Ok self _ _ _ _ _ _ Hprep).
  assert (E2 : heap (scaled_world self w1 l x sigma) !! l
               = Some (tensor_mul_scalar x sigma)).
  { cbn. apply list_lookup_insert_eq. eapply lookup_lt_Some; exact E. }
  assert (I2 : t_inference (tensor_mul_scalar x sigma) = false) by reflexivity.
  assert (Hfirst : exists rid' w2 tr2 k2,
            generate_from_embeddings self l
              (tensor_to (unet_device self) emb) g run_id extra
              (scaled_world self w1 l x sigma)
            = Yield (Intermediate (mkState rid' (-1)
                       (scheduler_num_train_timesteps self (scheduler w1)) l None))
                    w2 tr2 k2
            ∧ heap w2 !! l
              = Some (tensor_mul_scalar (tensor_mul_scalar x sigma) sigma)).
  { destruct run_id as [r|].
    - destruct (generate_from_embeddings_first self l (tensor_to (unet_device self) emb)
                  g r extra _ _ E2 I2) as (k & -> & _).
      eexists _, _, _, _. split; [reflexivity |].
      cbn. rewrite list_insert_insert_eq. apply list_lookup_insert_eq.
      eapply lookup_lt_Some; exact E.
    - rewrite generate_from_embeddings_None.
      destruct (generate_from_embeddings_first self l (tensor_to (unet_device self) emb)
                  g (run_id_of self (scaled_world self w1 l x sigma) None) extra
                  (run_world self (scaled_world self w1 l x sigma) None) _ E2 I2)
        as (k & -> & _).
      eexists _, _, _, _. split; [reflexivity |].
      cbn. rewrite list_insert_insert_eq. apply list_lookup_insert_eq.
      eapply lookup_lt_Some; exact E. }
  destruct Hfirst as (rid' & w2 & tr2 & k2 & -> & E3).
  eexists _, w2, _, _, _. split; [reflexivity |].
  split; [reflexivity |]. split; [exact E3 |].
  cbn. rewrite map_map. repeat split.
Qed.
End CallerLatents.

(** ** Concrete runs *)

Lemma demo_contracts extractor checker : Contracts (Demo.pipe_with extractor checker).
Proof.
  split; cbn; intros.
  - reflexivity.
  - reflexivity.
  - reflexivity.
  - eexists _, _, _. split; reflexivity.
  - eexists _, _, _, _. reflexivity.
Qed.

(** C1: on a scheduler whose initial noise sigma is 2, [generate] draws
    noise that is 1 everywhere and yields, as the state of step -1, latents
    that are 4 everywhere: the noise has been scaled by sigma twice. *)
Theorem generate_scales_initial_noise_twice :
  fst (torch_randn Demo.pipe [1; 4; 1; 1] None 0%nat) = [1; 1; 1; 1]%Q
  ∧ scheduler_init_noise_sigma Demo.pipe (Demo.spread_timesteps 2) = 2%Q
  ∧ first_latents
      (generate Demo.pipe (PStr "a cat") None 8 8 2 1%Q None None None tt Demo.w0)
    = Some (mkTensor [1; 4; 1; 1] Cpu Float32 [4; 4; 4; 4]%Q).
Proof. repeat split; vm_compute; reflexivity. Qed.

(** C2 (as stated) fails for [image_from_embeddings]: on a run of one step
    three elements are yielded, the last of them the final output, and the
    callback is invoked on the two intermediate states only. *)
Lemma image_from_embeddings_skips_final :
  map is_intermediate
    (yielded (res_trace
       (image_from_embeddings Demo.pipe 0%nat 1 Demo.cond_emb 1%Q
          (Some (Demo.watch Demo.pipe)) None tt Demo.w0)))
  = [true; true; false]
  ∧ map is_intermediate
      (called_back (res_trace
         (image_from_embeddings Demo.pipe 0%nat 1 Demo.cond_emb 1%Q
            (Some (Demo.watch Demo.pipe)) None tt Demo.w0)))
    = [true; true].
Proof. split; vm_compute; reflexivity. Qed.

(** The scenario of the specification: two steps give four elements, and
    the first state carries the caller's ones scaled by sigma = 2. *)
Lemma generate_from_embeddings_sequence_witness :
  length (scheduler_timesteps Demo.pipe (scheduler Demo.w_ready)) = 2%nat
  ∧ length (elements
      (generate_from_embeddings Demo.pipe 0%nat Demo.cond_emb 1%Q None tt Demo.w_ready))
    = 4%nat
  ∧ first_latents
      (generate_from_embeddings Demo.pipe 0%nat Demo.cond_emb 1%Q None tt Demo.w_ready)
    = Some (mkTensor [1; 4; 1; 1] Cpu Float32 [2; 2; 2; 2]%Q).
Proof.
  split; [reflexivity |].
  assert (Hs : t_shape Demo.ones ≠ []) by discriminate.
  destruct (generate_from_embeddings_sequence Demo.pipe (demo_contracts None None)
              0%nat Demo.ones Demo.cond_emb 1%Q None tt Demo.w_ready 2
              eq_refl eq_refl Hs eq_refl)
    as (s0 & steps & o & _ & Hlen & _ & _ & _ & Hl & w1 & tr & k & Hy & Hh).
  split; [exact Hlen |].
  rewrite Hy. cbn [first_latents]. rewrite Hl. exact Hh.
Defined.

Lemma generate_rejects_indivisible_witness :
  511 `mod` 8 ≠ 0
  ∧ generate Demo.pipe (PStr "a cat") None 511 512 50 (15 # 2)%Q None None None tt Demo.w0
    = Raise (ValueError (HeightWidthNotDivisibleBy8 511 512)) Demo.w0 []
  ∧ generate Demo.pipe (PStr "a cat") None 512 513 50 (15 # 2)%Q None None None tt Demo.w0
    = Raise (ValueError (HeightWidthNotDivisibleBy8 512 513)) Demo.w0 [].
Proof.
  split; [discriminate |]. split.
  - apply (generate_rejects_indivisible Demo.pipe (PStr "a cat") None 511 512 50
             (15 # 2)%Q None None None None tt Demo.w0).
    left. discriminate.
  - apply (generate_rejects_indivisible Demo.pipe (PStr "a cat") None 512 513 50
             (15 # 2)%Q None None None None tt Demo.w0).
    right. discriminate.
Defined.

Lemma prepare_latents_validates_witness :
  heap Demo.w0 !! 0%nat = Some Demo.ones
  ∧ prepare_latents Demo.pipe (Some 0%nat) 1 16 8 None Float32 Demo.w0
    = Err (ValueError (UnexpectedLatentsShape [1; 4; 1; 1] [1; 4; 2; 1])) Demo.w0 []
  ∧ exists w',
      prepare_latents Demo.pipe (Some 0%nat) 1 8 8 None Float32 Demo.w0 = Ok 0%nat w' []
      ∧ t_shape <$> heap w' !! 0%nat = Some [1; 4; 1; 1].
Proof.
  split; [reflexivity |]. split.
  - apply (prepare_latents_validates Demo.pipe Demo.w0 0%nat Demo.ones 1 16 8 None
             Float32 eq_refl).
    discriminate.
  - destruct (prepare_latents_validates Demo.pipe Demo.w0 0%nat Demo.ones 1 8 8 None
                Float32 eq_refl) as (_ & _ & _ & Hok).
    destruct (Hok eq_refl eq_refl) as (w' & E & S & _).
    exists w'. split; [exact E | exact S].
Defined.

(** Guidance scale 7.5 on the concrete unet: the scheduler receives
    [u + 7.5 * (c - u)]. *)
Lemma step_guidance_formula_witness :
  fgtb (15 # 2)%Q f_1 = true
  ∧ scheduler_inputs (res_trace
      (step Demo.pipe 500 0%nat (15 # 2)%Q Demo.guided_emb tt Demo.w_ready))
    = [guidance (15 # 2)%Q Demo.uncond_half Demo.cond_half].
Proof.
  split; [reflexivity |].
  apply (step_guidance_formula Demo.pipe 500 0%nat (15 # 2)%Q Demo.guided_emb tt
           Demo.w_ready Demo.ones Demo.ones2 Demo.uncond_half Demo.cond_half);
    reflexivity.
Defined.

Lemma generate_scales_caller_latents_witness :
  heap Demo.w0 !! 0%nat = Some Demo.ones
  ∧ exists s0 w' tr k y,
      generate Demo.pipe (PStr "a cat") None 8 8 2 (15 # 2)%Q None (Some 0%nat)
               None tt Demo.w0
      = Yield (Intermediate s0) w' tr k
      ∧ st_latents s0 = 0%nat
      ∧ heap w' !! 0%nat = Some y
      ∧ t_data y = [4; 4; 4; 4]%Q
      ∧ t_shape y = [1; 4; 1; 1].
Proof.
  split; [reflexivity |].
  destruct (generate_scales_caller_latents Demo.pipe (demo_contracts None None)
              (PStr "a cat") None 8 8 2 (15 # 2)%Q None 0%nat Demo.ones None tt Demo.w0
              eq_refl eq_refl eq_refl eq_refl eq_refl)
    as (s0 & w' & tr & k & y & E & Hl & Hy & Hd & Hs & _).
  exists s0, w', tr, k, y. repeat split; assumption.
Defined.

(** With the always-flagging checker the final output has one [True] per
    image; without a checker its flag list is empty. *)
Lemma safety_screening_witness :
  map nsfw_content_detected
    (finals (elements
       (generate_from_embeddings Demo.pipe_checked 0%nat Demo.cond_emb 1%Q None tt
                                 Demo.w_ready_checked)))
  = [[true]]
  ∧ Forall (fun o => nsfw_content_detected o = [])
      (finals (elements
         (generate_from_embeddings Demo.pipe 0%nat Demo.cond_emb 1%Q None tt
                                   Demo.w_ready))).
Proof.
  split; [vm_compute; reflexivity |].
  destruct (safety_screening Demo.pipe (mkOutput Demo.ones []) Demo.w0 0%nat
              Demo.cond_emb 1%Q None tt Demo.w_ready) as (Habsent & _).
  destruct (Habsent (or_introl eq_refl)) as (_ & Hf).
  eapply Forall_impl; [exact Hf |]. intros o (Ho & _). exact Ho.
Defined.

(** A whole run through [__call__]: four elements, the callback on each. *)
Lemma callback_once_per_element_witness :
  map is_intermediate
    (yielded (res_trace
       (__call__ Demo.pipe (PStr "a cat") 8 8 2 1%Q None None
                 (Some (Demo.watch Demo.pipe)) tt Demo.w0)))
  = [true; true; true; false]
  ∧ called_back (res_trace
      (__call__ Demo.pipe (PStr "a cat") 8 8 2 1%Q None None
                (Some (Demo.watch Demo.pipe)) tt Demo.w0))
    = yielded (res_trace
        (__call__ Demo.pipe (PStr "a cat") 8 8 2 1%Q None None
                  (Some (Demo.watch Demo.pipe)) tt Demo.w0)).
Proof.
  split; [vm_compute; reflexivity |].
  exact (proj1 (callback_once_per_element Demo.pipe (Demo.watch Demo.pipe)
                  (PStr "a cat") 8 8 2 1%Q None None 0%nat Demo.cond_emb None tt Demo.w0)).
Defined.

(** Three intermediate states, all tagged with the token drawn at the
    start. *)
Lemma run_id_stable_witness :
  map st_run_id
    (intermediates (elements
       (generate_from_embeddings Demo.pipe 0%nat Demo.cond_emb 1%Q None tt Demo.w_ready)))
  = ["k3J9xQ2mZpA"; "k3J9xQ2mZpA"; "k3J9xQ2mZpA"]%string
  ∧ token_calls (res_trace (outcome
      (generate_from_embeddings Demo.pipe 0%nat Demo.cond_emb 1%Q None tt Demo.w_ready)))
    = [8].
Proof.
  split; [vm_compute; reflexivity |].
  exact (proj1 (proj2 (run_id_stable Demo.pipe 0%nat Demo.cond_emb 1%Q None tt
                         Demo.w_ready))).
Defined.

(** Two steps at guidance scale 1.0: two calls to the unet, both on the
    embedding of the prompt, their outputs handed to the scheduler. *)
Lemma unguided_generate_witness :
  length (scheduler_inputs (res_trace (outcome
    (generate Demo.pipe (PStr "a cat") None 8 8 2 1%Q None None None tt Demo.w0))))
  = 2%nat
  ∧ unguided Demo.pipe (PStr "a cat") Demo.cond_emb
      (res_trace (outcome
         (generate Demo.pipe (PStr "a cat") None 8 8 2 1%Q None None None tt Demo.w0))).
Proof.
  split; [vm_compute; reflexivity |].
  exact (proj1 (unguided_generate Demo.pipe (PStr "a cat") None 8 8 2 None None None tt
                  Demo.w0 0 0%nat Demo.ones Demo.cond_emb Demo.w0)).
Defined.

(** The guidance formula in binary64: [0.5 + 7.5 * (5.5 - 0.5) = 38.0]. *)
Example guidance_binary64 :
  guidance 7.5%float (Binary64.scalar_tensor 0.5%float) (Binary64.scalar_tensor 5.5%float)
  = Binary64.scalar_tensor 38%float.
Proof. reflexivity. Qed.

(** ** The torch operations on small tensors *)

(** A prediction with a batch of one has a single chunk: the unpacking of
    [chunk(2)] fails. *)
Example chunk2_batch_of_one :
  chunk2 (mkTensor [1; 2] Cpu Float32 [1; 2]%Q) = inl (ValueError NotEnoughValuesToUnpack).
Proof. reflexivity. Qed.

(** A batch of three splits into chunks of two and one, and the smaller is
    broadcast over the larger. *)
Example chunk2_batch_of_three :
  chunk2 (mkTensor [3; 1] Cpu Float32 [1; 2; 3]%Q)
  = inr (mkTensor [2; 1] Cpu Float32 [1; 2]%Q, mkTensor [1; 1] Cpu Float32 [3]%Q)
  ∧ torch_sub (mkTensor [1; 1] Cpu Float32 [3]%Q) (mkTensor [2; 1] Cpu Float32 [1; 2]%Q)
    = inr (mkTensor [2; 1] Cpu Float32 [3 - 1; 3 - 2]%Q).
Proof. split; reflexivity. Qed.

(** [permute(0, 2, 3, 1)] moves the channels last. *)
Example permute_0231_channels_last :
  permute_0231 (mkTensor [1; 2; 1; 3] Cpu Float32 [1; 2; 3; 4; 5; 6]%Q)
  = inr (mkTensor [1; 1; 3; 2] Cpu Float32 [1; 4; 2; 5; 3; 6]%Q).
Proof. reflexivity. Qed.

(** * Further properties *)

(** ** Text conditioning *)

Section Conditioning.
Context {F : Type} `{Scalar F} (self : Pipeline F).

(** X1: at a guidance scale that does not exceed 1.0 the opposing prompt is
    never looked at: the run is the run without one. *)
Theorem generate_ignores_opposing_prompt (prompt : Prompt)
    (opposing_prompt : option Prompt) (height width num_inference_steps : Z) (g : F)
    (generator : option (TorchGenerator self)) (latents : option loc)
    (run_id : option string) (extra : Kwargs self) (w : World self) :
  fgtb g f_1 = false ->
  generate self prompt opposing_prompt height width num_inference_steps g
           generator latents run_id extra w
  = generate self prompt None height width num_inference_steps g
             generator latents run_id extra w.
Proof. intros G. unfold generate. rewrite G. reflexivity. Qed.

(** X2: with guidance, an opposing prompt that is omitted, the empty string
    or the empty list is replaced by one blank caption per batch element, a
    non-empty one is used as given; the embeddings returned are those of
    the opposing prompt followed by those of the prompt, and the world is
    unchanged. *)
Theorem get_text_embeddings_guided (HC : Contracts self) (prompt : Prompt)
    (opposing_prompt : option Prompt) (batch_size : nat) (w : World self) :
  exists effective emb,
    (prompt_truthy opposing_prompt = false -> effective = blank_captions batch_size)
    ∧ (forall p, opposing_prompt = Some p -> prompt_truthy opposing_prompt = true ->
       effective = p)
    ∧ get_text_embeddings self prompt opposing_prompt true batch_size w
      = Ok emb w
           [CallTokenizer prompt; CallTextEncoder (tokenizer self prompt);
            CallTokenizer effective; CallTextEncoder (tokenizer self effective)]
    ∧ t_data emb
      = t_data (text_encoder self (tokenizer self effective))
        ++ t_data (text_encoder self (tokenizer self prompt)).
Proof.
  set (effective := match opposing_prompt with
                    | Some p => if prompt_truthy opposing_prompt then p
                                else blank_captions batch_size
                    | None => blank_captions batch_size
                    end).
  exists effective.
  destruct (text_encoder_shape self HC (tokenizer self effective) (tokenizer self prompt))
    as (na & nb & rest & Sa & Sb).
  eexists. split; [| split; [| split]].
  - intros Hf. unfold effective. destruct opposing_prompt; [rewrite Hf |]; reflexivity.
  - intros p -> Ht. unfold effective. rewrite Ht. reflexivity.
  - unfold get_text_embeddings, _tokenize, call_tokenizer, call_text_encoder. msimpl.
    fold (blank_captions batch_size). fold effective.
    unfold torch_cat2. rewrite Sa, Sb.
    destruct (decide (rest = rest)); [| contradiction]. reflexivity.
  - reflexivity.
Qed.
End Conditioning.

(** ** Latents drawn by the pipeline *)

Section FreshLatents.
Context {F : Type} `{Scalar F} (self : Pipeline F).

Lemma prepare_latents_fresh (batch_size : nat) (height width : Z)
    (generator : option (TorchGenerator self)) (dt : dtype) (w : World self) :
  Forall (fun d => 0 <= d) (latents_shape self batch_size height width) ->
  prepare_latents self None batch_size height width generator dt w
  = Ok (length (heap w))
       (mkWorld
          (heap w
           ++ [mkTensor (latents_shape self batch_size height width) (unet_device self) dt
                 (map (fun e => fmul e (scheduler_init_noise_sigma self (scheduler w)))
                      (fst (torch_randn self (latents_shape self batch_size height width)
                              generator (rng w))))])
          (scheduler w)
          (snd (torch_randn self (latents_shape self batch_size height width)
                  generator (rng w)))
          (entropy w))
       [CallRandn (latents_shape self batch_size height width)].
Proof.
  intros Hall. unfold prepare_latents, call_randn. msimpl.
  destruct (decide (Forall (fun d => 0 <= d) (latents_shape self batch_size height width)))
    as [_|Hn]; [| contradiction].
  unfold alloc, deref, imul, deref. msimpl.
  rewrite list_lookup_middle by reflexivity. msimpl.
  destruct (decide (unet_device self ≠ unet_device self)) as [Hd|_]; [contradiction |].
  msimpl. rewrite list_lookup_middle by reflexivity. msimpl.
  rewrite insert_app_r_alt, Nat.sub_diag by lia. reflexivity.
Qed.

(** X3: without supplied latents and with dimensions that are not
    negative, [prepare_latents] draws once from [torch.randn] and returns a
    reference to a new object: a tensor of [latents_shape] on the device of
    the unet, of the dtype asked for, holding the noise multiplied once by
    the initial noise sigma.  The device check cannot fail, every tensor
    that existed is as it was, and only the generator state has advanced. *)
Theorem prepare_latents_draws (batch_size : nat) (height width : Z)
    (generator : option (TorchGenerator self)) (dt : dtype) (w : World self) :
  0 <= unet_in_channels self ->
  0 <= height `div` 8 ->
  0 <= width `div` 8 ->
  prepare_latents self None batch_size height width generator dt w
  = Ok (length (heap w))
       (mkWorld
          (heap w
           ++ [mkTensor (latents_shape self batch_size height width) (unet_device self) dt
                 (map (fun e => fmul e (scheduler_init_noise_sigma self (scheduler w)))
                      (fst (torch_randn self (latents_shape self batch_size height width)
                              generator (rng w))))])
          (scheduler w)
          (snd (torch_randn self (latents_shape self batch_size height width)
                  generator (rng w)))
          (entropy w))
       [CallRandn (latents_shape self batch_size height width)].
Proof.
  intros Hc Hh Hw. apply prepare_latents_fresh.
  unfold latents_shape. repeat constructor; lia.
Qed.
End FreshLatents.

(** ** What a run leaves behind *)

Section Frame.
Context {F : Type} `{Scalar F} (self : Pipeline F).

Lemma res_world_prepend {E A : Type} (tr : list E) (r : Res self E A) :
  res_world (prepend tr r) = res_world r.
Proof. destruct r; reflexivity. Qed.

Lemma extends_refl (w : World self) : extends self w w.
Proof. split; [exists []; symmetry; apply app_nil_r | split; reflexivity]. Qed.

Lemma extends_trans (w1 w2 w3 : World self) :
  extends self w1 w2 -> extends self w2 w3 -> extends self w1 w3.
Proof.
  intros ((e1 & H1) & R1 & N1) ((e2 & H2) & R2 & N2). split; [| split; congruence].
  exists (e1 ++ e2). rewrite H2, H1, app_assoc. reflexivity.
Qed.

Lemma extends_lookup (w w' : World self) l t :
  extends self w w' -> heap w !! l = Some t -> heap w' !! l = Some t.
Proof. intros ((e & ->) & _) E. apply lookup_app_l_Some, E. Qed.

Lemma keeps_ret {A : Type} (a : A) : keeps self (mret a).
Proof. intros w. apply extends_refl. Qed.

Lemma keeps_raise {A : Type} (e : Exn) : keeps self (raise e : M self A).
Proof. intros w. apply extends_refl. Qed.

Lemma keeps_bind {A B : Type} (c : M self A) (f : A -> M self B) :
  keeps self c -> (forall a, keeps self (f a)) -> keeps self (c ≫= f).
Proof.
  intros Hc Hf w. specialize (Hc w). munfold.
  destruct (c w) as [a w' tr|e w' tr]; cbn in *; [| exact Hc].
  rewrite res_world_prepend. eapply extends_trans; [exact Hc | apply Hf].
Qed.

Lemma keeps_of_sum {A : Type} (r : Exn + A) : keeps self (of_sum r : M self A).
Proof. destruct r; [apply keeps_raise | apply keeps_ret]. Qed.

Lemma keeps_emit c : keeps self (emit self c).
Proof. intros w. apply extends_refl. Qed.

Lemma keeps_deref l : keeps self (deref self l).
Proof.
  intros w. unfold deref. msimpl.
  destruct (heap w !! l); apply extends_refl.
Qed.

Lemma keeps_alloc t : keeps self (alloc self t).
Proof.
  intros w. unfold alloc. msimpl. split; [exists [t]; reflexivity | split; reflexivity].
Qed.

Lemma keeps_alloc_opt t : keeps self (alloc_opt self t).
Proof.
  destruct t; cbn; [| apply keeps_ret].
  apply keeps_bind; [apply keeps_alloc | intros l; apply keeps_ret].
Qed.

Lemma keeps_call_scale_model_input x t : keeps self (call_scale_model_input self x t).
Proof.
  intros w. unfold call_scale_model_input. msimpl.
  split; [exists []; symmetry; apply app_nil_r | split; reflexivity].
Qed.

Lemma keeps_call_unet x t e : keeps self (call_unet self x t e).
Proof. intros w. apply extends_refl. Qed.

Lemma keeps_call_vae_decode z : keeps self (call_vae_decode self z).
Proof. intros w. apply extends_refl. Qed.

Lemma keeps_call_scheduler_step noise t latents extra :
  keeps self (call_scheduler_step self noise t latents extra).
Proof.
  intros w. unfold call_scheduler_step.
  destruct (heap w !! latents) as [x|] eqn:E.
  - unfold deref, alloc_opt, alloc. msimpl. rewrite E. msimpl.
    destruct (out_pred_original_sample _) as [p|]; msimpl.
    + split; [| split; reflexivity]. eexists. rewrite <- app_assoc. reflexivity.
    + split; [| split; reflexivity]. eexists. reflexivity.
  - unfold deref. msimpl. rewrite E. apply extends_refl.
Qed.

Lemma keeps_step t latents g emb extra : keeps self (step self t latents g emb extra).
Proof.
  unfold step.
  apply keeps_bind; [apply keeps_deref | intros x].
  apply keeps_bind; [destruct (fgtb g f_1); [apply keeps_of_sum | apply keeps_ret] |].
  intros xx. apply keeps_bind; [apply keeps_call_scale_model_input | intros inp].
  apply keeps_bind; [apply keeps_call_unet | intros np].
  apply keeps_bind; [| intros noise; apply keeps_call_scheduler_step].
  destruct (fgtb g f_1); [| apply keeps_ret].
  apply keeps_bind; [apply keeps_of_sum | intros [u c]].
  apply keeps_bind; [apply keeps_of_sum | intros d; apply keeps_of_sum].
Qed.

(** [decode_to_image] and [check_for_safety] leave the world as it is. *)
Lemma decode_to_image_world latents (w : World self) :
  res_world (decode_to_image self latents w) = w.
Proof.
  unfold decode_to_image, deref, call_vae_decode. msimpl.
  destruct (heap w !! latents); msimpl; [| reflexivity].
  destruct (permute_0231 _); reflexivity.
Qed.

Lemma check_for_safety_world output (w : World self) :
  res_world (check_for_safety self output w) = w.
Proof.
  destruct (check_for_safety_Ok self output w) as (o & tr & ->). reflexivity.
Qed.

Lemma co_keeps_ret {A : Type} (a : A) : co_keeps self (mret a).
Proof. intros w. apply extends_refl. Qed.

Lemma co_keeps_lift {A : Type} (c : M self A) : keeps self c -> co_keeps self (lift c).
Proof. intros Hc w. rewrite outcome_lift. apply Hc. Qed.

Lemma co_keeps_yield (y : Elem F) : co_keeps self (yield_ y).
Proof. intros w. apply extends_refl. Qed.

Lemma co_keeps_bind {A B : Type} (c : Co self (Elem F) A) (f : A -> Co self (Elem F) B) :
  co_keeps self c -> (forall a, co_keeps self (f a)) -> co_keeps self (c ≫= f).
Proof.
  intros Hc Hf w. specialize (Hc w).
  change ((c ≫= f) w) with (res_bind (c w) f). rewrite outcome_bind.
  destruct (outcome (c w)) as [a w' tr|e w' tr]; cbn in *; [| exact Hc].
  rewrite res_world_prepend. eapply extends_trans; [exact Hc | apply Hf].
Qed.

Lemma co_keeps_denoise_loop rid g emb extra ts :
  forall i latents, co_keeps self (denoise_loop self rid g emb extra i ts latents).
Proof.
  induction ts as [|t ts IH]; intros i latents; cbn [denoise_loop].
  - apply co_keeps_ret.
  - apply co_keeps_bind; [apply co_keeps_lift, keeps_step | intros out].
    apply co_keeps_bind; [apply co_keeps_yield | intros _; apply IH].
Qed.

Lemma keeps_same {A : Type} (c : M self A) :
  (forall w, res_world (c w) = w) -> keeps self c.
Proof. intros Hc w. rewrite Hc. apply extends_refl. Qed.

Lemma co_keeps_finish_run rid latents emb g extra :
  co_keeps self (finish_run self rid latents emb g extra).
Proof.
  unfold finish_run.
  apply co_keeps_bind; [apply co_keeps_lift; intros w; apply extends_refl | intros w].
  apply co_keeps_bind; [apply co_keeps_denoise_loop | intros latents'].
  apply co_keeps_bind; [apply co_keeps_lift, keeps_emit | intros _].
  apply co_keeps_bind;
    [apply co_keeps_lift, keeps_same, decode_to_image_world | intros image].
  apply co_keeps_bind;
    [apply co_keeps_lift, keeps_same, check_for_safety_world | intros output].
  apply co_keeps_yield.
Qed.
End Frame.

Section EndState.
Context {F : Type} `{Scalar F} (self : Pipeline F).

Lemma generate_from_embeddings_extends latents emb g rid extra (w : World self) x :
  heap w !! latents = Some x ->
  t_inference x = false ->
  extends self
    (scaled_world self (run_world self w rid) latents x
       (scheduler_init_noise_sigma self (scheduler w)))
    (res_world (outcome (generate_from_embeddings self latents emb g rid extra w))).
Proof.
  intros E I. destruct rid as [r|].
  - destruct (generate_from_embeddings_first self latents emb g r extra w x E I)
      as (k & -> & Hk).
    cbn [outcome run_world]. rewrite res_world_prepend, Hk.
    apply co_keeps_finish_run.
  - rewrite generate_from_embeddings_None, outcome_co_prepend, res_world_prepend.
    assert (E' : heap (run_world self w None) !! latents = Some x) by exact E.
    destruct (generate_from_embeddings_first self latents emb g (run_id_of self w None)
                extra (run_world self w None) x E' I) as (k & -> & Hk).
    cbn [outcome]. rewrite res_world_prepend, Hk.
    apply co_keeps_finish_run.
Qed.

End EndState.

(** ** The states a consumer holds *)

Section Snapshots.
Context {F : Type} `{Scalar F} (self : Pipeline F).

Lemma snapshots_co_prepend {A : Type} tr (r : CoRes self (Elem F) A) :
  snapshots (co_prepend tr r) = snapshots r.
Proof. destruct r; reflexivity. Qed.

Lemma frozen_co_prepend {A : Type} tr (r : CoRes self (Elem F) A) :
  frozen (co_prepend tr r) <-> frozen r.
Proof. destruct r; reflexivity. Qed.

Lemma snapshots_bind {A B : Type} (r : CoRes self (Elem F) A)
    (f : A -> Co self (Elem F) B) :
  snapshots (res_bind r f)
  = snapshots r ++ match outcome r with
                   | Ok a w _ => snapshots (f a w)
                   | Err _ _ _ => []
                   end.
Proof.
  induction r as [a w tr|e w tr|y w tr k IH]; cbn.
  - apply snapshots_co_prepend.
  - reflexivity.
  - rewrite IH. destruct (outcome (k w)); reflexivity.
Qed.

Lemma frozen_bind {A B : Type} (r : CoRes self (Elem F) A)
    (f : A -> Co self (Elem F) B) :
  frozen r -> (forall a, co_keeps self (f a)) -> (forall a, steady self (f a)) ->
  frozen (res_bind r f).
Proof.
  intros Hr Hk Hs.
  induction r as [a w tr|e w tr|y w tr k IH]; cbn.
  - apply frozen_co_prepend, Hs.
  - exact I.
  - destruct Hr as [Hw Hr]. split; [| apply IH, Hr].
    rewrite outcome_bind.
    destruct (outcome (k w)) as [a wa tra|e wa tra]; cbn in *; [| exact Hw].
    rewrite res_world_prepend.
    eapply extends_trans; [exact Hw | apply Hk].
Qed.

Lemma steady_ret {A : Type} (a : A) : steady self (mret a).
Proof. intros w. exact I. Qed.

Lemma steady_lift {A : Type} (c : M self A) : steady self (lift c).
Proof. intros w. unfold lift. destruct (c w); exact I. Qed.

Lemma steady_yield (y : Elem F) : steady self (yield_ y).
Proof. intros w. cbn. split; [apply extends_refl | exact I]. Qed.

Lemma steady_bind {A B : Type} (c : Co self (Elem F) A) (f : A -> Co self (Elem F) B) :
  steady self c -> (forall a, co_keeps self (f a)) -> (forall a, steady self (f a)) ->
  steady self (c ≫= f).
Proof. intros Hc Hk Hs w. apply frozen_bind; [apply Hc | exact Hk | exact Hs]. Qed.

(** What precedes the first [yield] may change the world at will. *)
Lemma steady_lift_bind {A B : Type} (c : M self A) (f : A -> Co self (Elem F) B) :
  (forall a, steady self (f a)) -> steady self (lift c ≫= f).
Proof.
  intros Hs w. change ((lift c ≫= f) w) with (res_bind (lift c w) f).
  unfold lift. destruct (c w) as [a w' tr|e w' tr]; cbn; [| exact I].
  apply frozen_co_prepend, Hs.
Qed.

Lemma steady_denoise_loop rid g emb extra ts :
  forall i latents, steady self (denoise_loop self rid g emb extra i ts latents).
Proof.
  induction ts as [|t ts IH]; intros i latents; cbn [denoise_loop].
  - apply steady_ret.
  - apply steady_lift_bind. intros out.
    apply steady_bind; [apply steady_yield | | intros _; apply IH].
    intros _. apply co_keeps_denoise_loop.
Qed.

Lemma co_keeps_post latents :
  co_keeps self
    (lift (torch_cuda_empty_cache self);;
     image ← lift (decode_to_image self latents);
     output ← lift (check_for_safety self (mkOutput image []));
     yield_ (Final output)).
Proof.
  apply co_keeps_bind; [apply co_keeps_lift, keeps_emit | intros _].
  apply co_keeps_bind;
    [apply co_keeps_lift, keeps_same, decode_to_image_world | intros image].
  apply co_keeps_bind;
    [apply co_keeps_lift, keeps_same, check_for_safety_world | intros output].
  apply co_keeps_yield.
Qed.

Lemma steady_post latents :
  steady self
    (lift (torch_cuda_empty_cache self);;
     image ← lift (decode_to_image self latents);
     output ← lift (check_for_safety self (mkOutput image []));
     yield_ (Final output)).
Proof.
  apply steady_lift_bind. intros _.
  apply steady_lift_bind. intros image.
  apply steady_lift_bind. intros output.
  apply steady_yield.
Qed.

Lemma steady_finish_run rid latents emb g extra :
  steady self (finish_run self rid latents emb g extra).
Proof.
  unfold finish_run.
  apply steady_lift_bind. intros w.
  apply steady_bind; [apply steady_denoise_loop | |]; intros latents'.
  - apply co_keeps_post.
  - apply steady_post.
Qed.

Lemma steady_generate_from_embeddings latents emb g rid extra :
  steady self (generate_from_embeddings self latents emb g rid extra).
Proof.
  intros w. destruct (latents_cases self w latents) as [(x & E & Hi)|Hr].
  - destruct rid as [r|].
    + destruct (generate_from_embeddings_first self latents emb g r extra w x E Hi)
        as (k & -> & Hk).
      cbn. rewrite !Hk. split; [apply co_keeps_finish_run | apply steady_finish_run].
    + rewrite generate_from_embeddings_None. apply frozen_co_prepend.
      assert (E' : heap (run_world self w None) !! latents = Some x) by exact E.
      destruct (generate_from_embeddings_first self latents emb g (run_id_of self w None)
                  extra (run_world self w None) x E' Hi) as (k & -> & Hk).
      cbn. rewrite !Hk. split; [apply co_keeps_finish_run | apply steady_finish_run].
  - destruct rid as [r|].
    + destruct (generate_from_embeddings_refused self latents emb g r extra w Hr)
        as (e & ->).
      exact I.
    + rewrite generate_from_embeddings_None. apply frozen_co_prepend.
      destruct (generate_from_embeddings_refused self latents emb g
                  (run_id_of self w None) extra (run_world self w None) Hr) as (e & ->).
      exact I.
Qed.

Lemma frozen_snapshots {A : Type} (r : CoRes self (Elem F) A) :
  frozen r ->
  forall y wy, (y, wy) ∈ snapshots r -> extends self wy (res_world (outcome r)).
Proof.
  induction r as [a w tr|e w tr|y0 w tr k IH]; cbn; intros Hr y wy Hin.
  - apply elem_of_nil in Hin as [].
  - apply elem_of_nil in Hin as [].
  - destruct Hr as [Hw Hr]. rewrite res_world_prepend.
    apply elem_of_cons in Hin as [Heq|Hin].
    + inversion Heq; subst. exact Hw.
    + apply (IH w Hr y wy Hin).
Qed.
End Snapshots.

Section Fresh.
Context {F : Type} `{Scalar F} (self : Pipeline F).

Lemma bind_Ok_inv {A B : Type} (c : M self A) (f : A -> M self B) w b w' tr :
  (c ≫= f) w = Ok b w' tr ->
  exists a w1 tr1 tr2, c w = Ok a w1 tr1 ∧ f a w1 = Ok b w' tr2 ∧ tr = tr1 ++ tr2.
Proof.
  munfold. destruct (c w) as [a w1 tr1|e w1 tr1]; [| discriminate].
  destruct (f a w1) as [b' w2 tr2|e w2 tr2] eqn:Ef; cbn; [| discriminate].
  intros [= -> -> <-]. eexists _, _, _, _. repeat split; eassumption.
Qed.

Lemma deref_Ok_inv l (w : World self) x w' tr :
  deref self l w = Ok x w' tr -> w' = w ∧ heap w !! l = Some x.
Proof.
  unfold deref. msimpl. destruct (heap w !! l); msimpl; [| discriminate].
  intros [= -> -> _]. split; reflexivity.
Qed.

Lemma of_sum_Ok_inv {A : Type} (r : Exn + A) (w : World self) a w' tr :
  of_sum r w = Ok a w' tr -> w' = w.
Proof. destruct r; msimpl; [discriminate | intros [= _ -> _]; reflexivity]. Qed.

(** A scheduler step that returns has made its outputs as new objects: the
    previous sample right after the objects that existed, the predicted
    original (if any) after it. *)
Lemma call_scheduler_step_Ok noise t latents extra (w : World self) out w' tr :
  call_scheduler_step self noise t latents extra w = Ok out w' tr ->
  prev_sample out = length (heap w)
  ∧ is_Some (heap w' !! prev_sample out)
  ∧ (forall p, pred_original_sample out = Some p -> is_Some (heap w' !! p))
  ∧ (length (heap w) < length (heap w'))%nat.
Proof.
  unfold call_scheduler_step, deref, alloc_opt, alloc. msimpl.
  destruct (heap w !! latents) as [x|]; msimpl; [| discriminate].
  destruct (out_pred_original_sample _) as [p|]; msimpl; intros [= <- <- _]; cbn.
  - split; [reflexivity |]. split; [| split].
    + apply lookup_lt_is_Some. rewrite !length_app. cbn. lia.
    + intros p' [= <-]. apply lookup_lt_is_Some. rewrite !length_app. cbn. lia.
    + rewrite !length_app. cbn. lia.
  - split; [reflexivity |]. split; [| split].
    + apply lookup_lt_is_Some. rewrite !length_app. cbn. lia.
    + intros p' [=].
    + rewrite !length_app. cbn. lia.
Qed.

Lemma step_Ok t latents g emb extra (w : World self) out w' tr :
  step self t latents g emb extra w = Ok out w' tr ->
  prev_sample out = length (heap w)
  ∧ is_Some (heap w' !! prev_sample out)
  ∧ (forall p, pred_original_sample out = Some p -> is_Some (heap w' !! p))
  ∧ (length (heap w) < length (heap w'))%nat.
Proof.
  unfold step. intros E.
  apply bind_Ok_inv in E as (x & w1 & tr1 & tr1' & E1 & E & _).
  apply deref_Ok_inv in E1 as [-> _].
  apply bind_Ok_inv in E as (xx & w2 & tr2 & tr2' & E2 & E & _).
  assert (w2 = w) as ->.
  { destruct (fgtb g f_1); [eapply of_sum_Ok_inv, E2 |].
    revert E2. msimpl. intros [= _ -> _]. reflexivity. }
  apply bind_Ok_inv in E as (inp & w3 & tr3 & tr3' & E3 & E & _).
  assert (H3 : heap w3 = heap w).
  { revert E3. unfold call_scale_model_input. msimpl. intros [= _ <- _]. reflexivity. }
  apply bind_Ok_inv in E as (np & w4 & tr4 & tr4' & E4 & E & _).
  assert (w4 = w3) as ->.
  { revert E4. unfold call_unet. msimpl. intros [= _ -> _]. reflexivity. }
  apply bind_Ok_inv in E as (noise & w5 & tr5 & tr5' & E5 & E & _).
  assert (w5 = w3) as ->.
  { destruct (fgtb g f_1).
    - apply bind_Ok_inv in E5 as ([u c] & w6 & tr6 & tr6' & E6 & E5 & _).
      apply of_sum_Ok_inv in E6 as ->.
      apply bind_Ok_inv in E5 as (d & w7 & tr7 & tr7' & E7 & E5 & _).
      apply of_sum_Ok_inv in E7 as ->.
      eapply of_sum_Ok_inv, E5.
    - revert E5. msimpl. intros [= _ -> _]. reflexivity. }
  apply call_scheduler_step_Ok in E. rewrite H3 in E. exact E.
Qed.
End Fresh.

Section Sound.
Context {F : Type} `{Scalar F} (self : Pipeline F).

Lemma snapshots_lift_bind {A B : Type} (c : M self A) (f : A -> Co self (Elem F) B) w :
  snapshots ((lift c ≫= f) w)
  = match c w with
    | Ok a w' _ => snapshots (f a w')
    | Err _ _ _ => []
    end.
Proof.
  change ((lift c ≫= f) w) with (res_bind (lift c w) f).
  rewrite snapshots_bind, outcome_lift. unfold lift.
  destruct (c w); reflexivity.
Qed.

Lemma snapshots_yield_bind {B : Type} (y : Elem F) (f : unit -> Co self (Elem F) B) w :
  snapshots ((yield_ y ≫= f) w) = (y, w) :: snapshots (f tt w).
Proof.
  change ((yield_ y ≫= f) w) with (res_bind (yield_ y w) f).
  rewrite snapshots_bind. reflexivity.
Qed.

Lemma snapshots_mbind {A B : Type} (c : Co self (Elem F) A) (f : A -> Co self (Elem F) B) w :
  snapshots ((c ≫= f) w)
  = snapshots (c w) ++ match outcome (c w) with
                       | Ok a w' _ => snapshots (f a w')
                       | Err _ _ _ => []
                       end.
Proof. apply snapshots_bind. Qed.

Lemma snapshots_elements {A : Type} (r : CoRes self (Elem F) A) :
  map fst (snapshots r) = elements r.
Proof.
  induction r as [a w tr|e w tr|y w tr k IH]; cbn; [reflexivity | reflexivity |].
  f_equal. apply IH.
Qed.

Lemma sound_lift_bind {A B : Type} (c : M self A) (f : A -> Co self (Elem F) B) :
  (forall a, sound self (f a)) -> sound self (lift c ≫= f).
Proof.
  intros Hf w y wy. rewrite snapshots_lift_bind.
  destruct (c w) as [a w' tr|e w' tr]; [apply Hf | intros Hin].
  apply elem_of_nil in Hin as [].
Qed.

Lemma sound_mbind {A B : Type} (c : Co self (Elem F) A) (f : A -> Co self (Elem F) B) :
  sound self c -> (forall a, sound self (f a)) -> sound self (c ≫= f).
Proof.
  intros Hc Hf w y wy. rewrite snapshots_mbind. intros Hin.
  apply elem_of_app in Hin as [Hin|Hin]; [apply (Hc w), Hin |].
  destruct (outcome (c w)) as [a w' tr|e w' tr]; [apply (Hf a w'), Hin |].
  apply elem_of_nil in Hin as [].
Qed.

Lemma sound_yield_final o : sound self (yield_ (Final o)).
Proof.
  intros w y wy Hin. cbn in Hin.
  apply elem_of_cons in Hin as [Heq|Hin]; [| apply elem_of_nil in Hin as []].
  inversion Heq; subst. exact I.
Qed.

Lemma sound_denoise_loop rid g emb extra ts :
  forall i latents, sound self (denoise_loop self rid g emb extra i ts latents).
Proof.
  induction ts as [|t ts IH]; intros i latents w y wy; cbn [denoise_loop].
  - intros Hin. apply elem_of_nil in Hin as [].
  - rewrite snapshots_lift_bind.
    destruct (step self t latents g emb extra w) as [out w' tr|e w' tr] eqn:S;
      [| intros Hin; apply elem_of_nil in Hin as []].
    apply step_Ok in S as (_ & Hprev & Hpred & _).
    rewrite snapshots_yield_bind. intros Hin.
    apply elem_of_cons in Hin as [Heq|Hin]; [| eapply IH, Hin].
    inversion Heq; subst. split; assumption.
Qed.

Lemma sound_finish_run rid latents emb g extra :
  sound self (finish_run self rid latents emb g extra).
Proof.
  unfold finish_run.
  apply sound_lift_bind. intros w.
  apply sound_mbind; [apply sound_denoise_loop | intros latents'].
  apply sound_lift_bind. intros _.
  apply sound_lift_bind. intros image.
  apply sound_lift_bind. intros output.
  apply sound_yield_final.
Qed.

Lemma sound_generate_from_embeddings latents emb g rid extra :
  sound self (generate_from_embeddings self latents emb g rid extra).
Proof.
  assert (Hsome : forall r, sound self (generate_from_embeddings self latents emb g (Some r) extra)).
  { intros r w y wy. destruct (latents_cases self w latents) as [(x & E & Hi)|Hr].
    - destruct (generate_from_embeddings_first self latents emb g r extra w x E Hi)
        as (k & -> & Hk).
      cbn [snapshots]. rewrite Hk. intros Hin.
      apply elem_of_cons in Hin as [Heq|Hin]; [| eapply sound_finish_run, Hin].
      inversion Heq; subst. split; [| intros p [=]].
      cbn. apply lookup_lt_is_Some. rewrite length_insert.
      eapply lookup_lt_Some, E.
    - destruct (generate_from_embeddings_refused self latents emb g r extra w Hr)
        as (e & ->).
      intros Hin. apply elem_of_nil in Hin as []. }
  destruct rid as [r|]; [apply Hsome |].
  intros w y wy. rewrite generate_from_embeddings_None, snapshots_co_prepend.
  apply Hsome.
Qed.

(** X5: whenever [generate_from_embeddings] hands a state to its consumer,
    the latents and the predicted original of that state refer to tensor
    objects, and no object that exists at that moment is overwritten by the
    rest of the run: a consumer that keeps a state finds its tensors
    unchanged when the run has ended. *)
Theorem yielded_states_persist latents emb g rid extra (w : World self) y wy :
  (y, wy) ∈ snapshots (generate_from_embeddings self latents emb g rid extra w) ->
  resolves self wy y
  ∧ forall l t,
      heap wy !! l = Some t ->
      heap (res_world (outcome (generate_from_embeddings self latents emb g rid extra w))) !! l
      = Some t.
Proof.
  intros Hin. split; [eapply sound_generate_from_embeddings, Hin |].
  intros l t Hl. eapply extends_lookup; [| exact Hl].
  eapply frozen_snapshots; [apply steady_generate_from_embeddings | exact Hin].
Qed.
End Sound.

(** ** States as initial latents *)

Section Resumption.
Context {F : Type} `{Scalar F} (self : Pipeline F).






End Resumption.


(** ** What the entry points return *)

Section Results.
Context {F : Type} `{Scalar F} (self : Pipeline F).

Lemma finishes_co_prepend {A : Type} P last tr (r : CoRes self (Elem F) A) :
  finishes P last (co_prepend tr r) <-> finishes P last r.
Proof. destruct r; reflexivity. Qed.

(** Whatever comes first, a generator finishes as its last part does. *)
Lemma finishes_bind {A B : Type} P (r : CoRes self (Elem F) A)
    (f : A -> Co self (Elem F) B) :
  (forall a last w, finishes P last (f a w)) ->
  forall last, finishes P last (res_bind r f).
Proof.
  intros Hf. induction r as [a w tr|e w tr|y w tr k IH]; intros last; cbn.
  - apply finishes_co_prepend, Hf.
  - exact I.
  - intros w'. apply IH.
Qed.

Lemma finishes_mbind {A B : Type} P (c : Co self (Elem F) A)
    (f : A -> Co self (Elem F) B) last w :
  (forall a last w, finishes P last (f a w)) ->
  finishes P last ((c ≫= f) w).
Proof. intros Hf. apply (finishes_bind P (c w) f Hf). Qed.

Lemma finishes_yield_final o last (w : World self) :
  finishes is_final last (yield_ (Final o) w).
Proof. intros w'. exists o. reflexivity. Qed.

Lemma finishes_generate_from_embeddings latents emb g rid extra last (w : World self) :
  finishes is_final last (generate_from_embeddings self latents emb g rid extra w).
Proof.
  unfold generate_from_embeddings.
  do 10 (apply finishes_mbind; intros ? ? ?).
  apply finishes_yield_final.
Qed.

Lemma finishes_generate prompt opposing_prompt height width n g generator latents rid extra
    last (w : World self) :
  finishes is_final last
    (generate self prompt opposing_prompt height width n g generator latents rid extra w).
Proof.
  unfold generate. destruct (decide _); [exact I |].
  do 3 (apply finishes_mbind; intros ? ? ?).
  apply finishes_generate_from_embeddings.
Qed.

Lemma prepend_Ok_inv {E A : Type} (tr : list E) (r : Res self E A) a w tr' :
  prepend tr r = Ok a w tr' -> exists tr2, r = Ok a w tr2.
Proof. destruct r; cbn; [intros [= -> -> _]; eexists; reflexivity | discriminate]. Qed.

Lemma for_each_finishes P body (r : CoRes self (Elem F) unit) :
  forall last res w tr,
    finishes P last r ->
    for_each self body last r = Ok res w tr -> P res.
Proof.
  induction r as [a w0 tr0|e w0 tr0|y w0 tr0 k IH]; intros last res w tr Hr; cbn.
  - intros [= <- _ _]. exact Hr.
  - discriminate.
  - destruct (body y w0) as [[] w1 tr1|e w1 tr1]; [| discriminate].
    intros E. apply prepend_Ok_inv in E as (tr2 & E).
    eapply IH; [apply Hr | exact E].
Qed.

Lemma return_last_Ok_inv (r : Res self (Obs self) (option (Elem F))) y w tr :
  return_last self r = Ok y w tr -> r = Ok (Some y) w tr.
Proof.
  destruct r as [[y'|] w' tr'|e w' tr']; cbn; [| discriminate | discriminate].
  intros [= -> -> ->]. reflexivity.
Qed.

(** X7: what [__call__] and [image_from_embeddings] return, whenever they
    return, is the final output of the run and never an intermediate
    state, whatever the callback does to the world between two states. *)
Theorem entry_points_return_final :
  (forall prompt height width n g generator latents callback extra (w : World self)
          y w' tr,
     __call__ self prompt height width n g generator latents callback extra w = Ok y w' tr ->
     exists o, y = Final o)
  ∧ (forall latents n emb g callback rid extra (w : World self) y w' tr,
       image_from_embeddings self latents n emb g callback rid extra w = Ok y w' tr ->
       exists o, y = Final o).
Proof.
  split.
  - intros prompt height width n g generator latents callback extra w y w' tr E.
    unfold __call__ in E. apply return_last_Ok_inv in E.
    eapply (for_each_finishes is_final) in E; [| apply finishes_generate].
    destruct E as (o & [= ->]). exists o. reflexivity.
  - intros latents n emb g callback rid extra w y w' tr E.
    unfold image_from_embeddings in E.
    destruct (call_set_timesteps self n w) as [[] w1 tr1|e w1 tr1]; [| discriminate].
    apply prepend_Ok_inv in E as (tr2 & E). apply return_last_Ok_inv in E.
    eapply (for_each_finishes is_final) in E; [| apply finishes_generate_from_embeddings].
    destruct E as (o & [= ->]). exists o. reflexivity.
Qed.

(** X8: the loops of [__call__] and [image_from_embeddings] never end with
    [result] still [None]: the generator they drain either raises or has
    yielded, so the [AssertionError] about an empty generator that both
    guard against cannot be raised by the guard. *)
Theorem empty_generator_guard_is_dead body (w : World self) :
  (forall prompt opposing_prompt height width n g generator latents rid extra,
     match for_each self body None
             (generate self prompt opposing_prompt height width n g generator latents
                       rid extra w) with
     | Ok None _ _ => False
     | _ => True
     end)
  ∧ (forall latents emb g rid extra,
       match for_each self body None
               (generate_from_embeddings self latents emb g rid extra w) with
       | Ok None _ _ => False
       | _ => True
       end).
Proof.
  split.
  - intros prompt opposing_prompt height width n g generator latents rid extra.
    destruct (for_each _ _ _ _) as [[y|] w' tr|e w' tr] eqn:E; [exact I | | exact I].
    eapply (for_each_finishes is_final) in E; [| apply finishes_generate].
    destruct E as (o & [=]).
  - intros latents emb g rid extra.
    destruct (for_each _ _ _ _) as [[y|] w' tr|e w' tr] eqn:E; [exact I | | exact I].
    eapply (for_each_finishes is_final) in E; [| apply finishes_generate_from_embeddings].
    destruct E as (o & [=]).
Qed.
End Results.

(** ** Runs that complete *)

Section Completion.
Context {F : Type} `{Scalar F} (self : Pipeline F).

Lemma outcome_mbind {A B : Type} (c : Co self (Elem F) A) (f : A -> Co self (Elem F) B) w :
  outcome ((c ≫= f) w)
  = match outcome (c w) with
    | Ok a w' tr => prepend tr (outcome (f a w'))
    | Err e w' tr => Err e w' tr
    end.
Proof. apply outcome_bind. Qed.

Lemma finish_run_completes (HC : Contracts self) rid latents emb g extra (w : World self) :
  live self w latents ->
  exists steps o w' tr,
    elements (finish_run self rid latents emb g extra w)
    = map Intermediate steps ++ [Final o]
    ∧ outcome (finish_run self rid latents emb g extra w) = Ok tt w' tr
    ∧ map st_timestep steps = scheduler_timesteps self (scheduler w).
Proof.
  intros L. unfold finish_run.
  rewrite elements_lift_bind, outcome_lift_bind. unfold get_world at 1 2.
  cbn match. rewrite elements_mbind, outcome_mbind.
  destruct (denoise_loop_succeeds self HC rid g emb extra
              (scheduler_timesteps self (scheduler w)) 0 latents w L)
    as (steps & latents' & w' & tr & -> & -> & L' & Hs & Ht).
  rewrite elements_lift_bind, outcome_lift_bind.
  unfold torch_cuda_empty_cache, emit at 1 2. cbn match.
  rewrite elements_lift_bind, outcome_lift_bind.
  destruct (decode_to_image_succeeds self HC latents' w' L') as (image & tr1 & ->).
  rewrite elements_lift_bind, outcome_lift_bind.
  destruct (check_for_safety_Ok self (mkOutput image []) w') as (o & tr2 & ->).
  exists steps, o. eexists _, _. split; [reflexivity |]. split; [| exact Ht].
  cbn. reflexivity.
Qed.

Lemma generate_from_embeddings_completes (HC : Contracts self) latents emb g rid extra
    (w : World self) x :
  heap w !! latents = Some x ->
  t_inference x = false ->
  t_shape x ≠ [] ->
  exists s0 steps o w' tr,
    elements (generate_from_embeddings self latents emb g rid extra w)
    = Intermediate s0 :: map Intermediate steps ++ [Final o]
    ∧ outcome (generate_from_embeddings self latents emb g rid extra w) = Ok tt w' tr
    ∧ map st_timestep steps = scheduler_timesteps self (scheduler w).
Proof.
  intros E Hi Sx.
  set (sigma := scheduler_init_noise_sigma self (scheduler w)).
  assert (L : live self (scaled_world self (run_world self w rid) latents x sigma) latents).
  { exists (tensor_mul_scalar x sigma). split; [| exact Sx].
    cbn. apply list_lookup_insert_eq.
    destruct rid; cbn; eapply lookup_lt_Some; exact E. }
  destruct (finish_run_completes HC (run_id_of self w rid) latents emb g extra _ L)
    as (steps & o & w' & tr & He & Ho & Ht).
  assert (Hsched : scheduler (scaled_world self (run_world self w rid) latents x sigma)
                   = scheduler w) by (destruct rid; reflexivity).
  rewrite Hsched in Ht.
  rewrite (generate_from_embeddings_elements self latents emb g rid extra w x E Hi).
  fold sigma. rewrite He.
  eexists _, steps, o.
  destruct rid as [r|].
  - destruct (generate_from_embeddings_first self latents emb g r extra w x E Hi)
      as (k & -> & Hk).
    cbn [outcome]. rewrite Hk. cbn [run_world run_id_of] in Ho. fold sigma.
    rewrite Ho. eexists _, _. split; [reflexivity |]. split; [reflexivity | exact Ht].
  - rewrite generate_from_embeddings_None, outcome_co_prepend.
    assert (E' : heap (run_world self w None) !! latents = Some x) by exact E.
    destruct (generate_from_embeddings_first self latents emb g (run_id_of self w None)
                extra (run_world self w None) x E' Hi) as (k & -> & Hk).
    cbn [outcome]. rewrite Hk.
    change (scheduler (run_world self w None)) with (scheduler w). fold sigma.
    rewrite Ho. eexists _, _. split; [reflexivity |]. split; [reflexivity | exact Ht].
Qed.

(** Draining a generator that completes, with a loop body that leaves the
    world alone and does not raise: the loop ends in the world the
    generator leaves, with the last element as its result. *)
Lemma for_each_passive body (r : CoRes self (Elem F) unit) :
  (forall y w, exists tr, body y w = Ok tt w tr ∧ yielded tr = []) ->
  forall result w' tr,
    outcome r = Ok tt w' tr ->
    exists tr',
      for_each self body result r
      = Ok (from_option Some result (last (elements r))) w' tr'
      ∧ yielded tr' = elements r.
Proof.
  intros Hb.
  induction r as [[] w0 tr0|e w0 tr0|y w0 tr0 k IH]; intros result w' tr; cbn.
  - intros [= -> _]. eexists. split; [reflexivity | apply yielded_calls].
  - discriminate.
  - intros E. apply prepend_Ok_inv in E as (tr2 & E).
    destruct (Hb y w0) as (trb & -> & Hy).
    destruct (IH w0 (Some y) w' tr2 E) as (tr' & -> & Hy').
    eexists. split.
    + cbn. rewrite last_cons. destruct (last (elements (k w0))); reflexivity.
    + rewrite !yielded_app, yielded_calls, yielded_cons, Hy, Hy'.
      reflexivity.
Qed.

Lemma passive_body (callback : option (Callback self)) (sel : Elem F -> bool) :
  passive self callback ->
  forall y w, exists tr,
    match callback with
    | Some callback => if sel y then call_callback self callback y else pass self
    | None => pass self
    end w = Ok tt w tr
    ∧ yielded tr = [].
Proof.
  intros Hp y w. destruct callback as [cb|]; [| eexists; split; reflexivity].
  destruct (sel y); [| eexists; split; reflexivity].
  unfold call_callback. rewrite (Hp cb eq_refl y w).
  eexists; split; reflexivity.
Qed.

Lemma last_states_final (s0 : PipelineIntermediateState) steps
    (o : StableDiffusionPipelineOutput F) :
  last (Intermediate s0 :: map Intermediate steps ++ [Final o]) = Some (Final o).
Proof. rewrite app_comm_cons. apply last_snoc. Qed.

Lemma co_prepend_co_prepend {A : Type} tr1 tr2 (r : CoRes self (Elem F) A) :
  co_prepend tr1 (co_prepend tr2 r) = co_prepend (tr1 ++ tr2) r.
Proof. destruct r; cbn; rewrite app_assoc; reflexivity. Qed.

(** With dimensions that pass validation and no supplied latents,
    [generate] reaches [generate_from_embeddings] on a new noise tensor. *)
Lemma generate_fresh (HC : Contracts self) prompt opposing_prompt height width n g
    generator rid extra (w : World self) :
  height `mod` 8 = 0 -> width `mod` 8 = 0 ->
  0 <= height -> 0 <= width -> 0 <= unet_in_channels self ->
  exists emb tr noise,
    t_shape noise = latents_shape self (batch_size_of prompt) height width
    ∧ t_inference noise = false
    ∧ generate self prompt opposing_prompt height width n g generator None rid extra w
      = co_prepend tr
          (generate_from_embeddings self (length (heap w)) emb g rid extra
             (mkWorld (heap w ++ [noise])
                (scheduler_set_timesteps self n (scheduler w))
                (snd (torch_randn self
                        (latents_shape self (batch_size_of prompt) height width)
                        generator (rng w)))
                (entropy w))).
Proof.
  intros Hh Hw Ph Pw Pc. unfold generate.
  destruct (decide _) as [[?|?]|_]; [contradiction | contradiction |].
  destruct (get_text_embeddings_succeeds self HC prompt opposing_prompt (fgtb g f_1)
              (batch_size_of prompt) w) as (emb & tr & Hg).
  rewrite (co_bind_lift_Ok self _ _ _ _ _ _ Hg). cbn beta.
  set (w1 := mkWorld (heap w) (scheduler_set_timesteps self n (scheduler w))
                     (rng w) (entropy w)).
  assert (Hs : call_set_timesteps self n w = Ok tt w1 [CallSetTimesteps n]) by reflexivity.
  rewrite (co_bind_lift_Ok self _ _ _ _ _ _ Hs). cbn beta.
  assert (Dh : 0 <= height `div` 8) by (apply Z.div_pos; lia).
  assert (Dw : 0 <= width `div` 8) by (apply Z.div_pos; lia).
  assert (Hall : Forall (fun d => 0 <= d)
                   (latents_shape self (batch_size_of prompt) height width))
    by (unfold latents_shape; repeat constructor; lia).
  assert (Hp := prepare_latents_fresh self (batch_size_of prompt) height width generator
                  (unet_dtype self) w1 Hall).
  rewrite (co_bind_lift_Ok self _ _ _ _ _ _ Hp). cbn beta.
  rewrite !co_prepend_co_prepend.
  eexists _, _, _. split; [| split; [| reflexivity]]; reflexivity.
Qed.

Lemma image_from_embeddings_inference latents n emb g callback rid extra
    (w : World self) x :
  heap w !! latents = Some x ->
  t_inference x = true ->
  image_from_embeddings self latents n emb g callback rid extra w
  = Err (RuntimeError InplaceUpdateToInferenceTensor)
        (run_world self
           (mkWorld (heap w) (scheduler_set_timesteps self n (scheduler w))
                    (rng w) (entropy w)) rid)
        (ObsCall (CallSetTimesteps n)
         :: match rid with
            | None => [ObsCall (CallTokenUrlsafe ID_LENGTH)]
            | Some _ => []
            end).
Proof.
  intros E Hi. unfold image_from_embeddings.
  set (w1 := mkWorld (heap w) (scheduler_set_timesteps self n (scheduler w))
                     (rng w) (entropy w)).
  assert (Hs : call_set_timesteps self n w = Ok tt w1 [CallSetTimesteps n]) by reflexivity.
  rewrite Hs.
  assert (E1 : heap w1 !! latents = Some x) by exact E.
  destruct rid as [r|].
  - rewrite (generate_from_embeddings_inference self latents emb g r extra w1 x E1 Hi).
    reflexivity.
  - rewrite generate_from_embeddings_None.
    assert (E2 : heap (run_world self w1 None) !! latents = Some x) by exact E.
    rewrite (generate_from_embeddings_inference self latents emb g _ extra _ x E2 Hi).
    reflexivity.
Qed.

(** X9: with collaborators that keep their contracts, latents that are a
    tensor of at least one dimension and a callback that only watches.
    When torch lets the pipeline scale the latents in place (they are not
    an inference tensor), [image_from_embeddings] returns the final
    output, after one state for the scaled latents and one per timestep of
    the schedule it has just set; when it returns, the caller's tensor
    holds its former values, each multiplied once by the initial noise
    sigma of that schedule.  On an inference tensor, such as the latents
    of a state of an earlier run, the scaling raises a [RuntimeError]:
    nothing is yielded, the callback is not invoked, and the schedule has
    been set all the same. *)
Theorem image_from_embeddings_completes (HC : Contracts self) latents n emb g callback rid
    extra (w : World self) x :
  heap w !! latents = Some x ->
  t_shape x ≠ [] ->
  passive self callback ->
  let sched := scheduler_set_timesteps self n (scheduler w) in
  if t_inference x
  then
    image_from_embeddings self latents n emb g callback rid extra w
    = Err (RuntimeError InplaceUpdateToInferenceTensor)
          (run_world self (mkWorld (heap w) sched (rng w) (entropy w)) rid)
          (ObsCall (CallSetTimesteps n)
           :: match rid with
              | None => [ObsCall (CallTokenUrlsafe ID_LENGTH)]
              | Some _ => []
              end)
  else
    exists o s0 steps w' tr,
      image_from_embeddings self latents n emb g callback rid extra w = Ok (Final o) w' tr
      ∧ yielded tr = Intermediate s0 :: map Intermediate steps ++ [Final o]
      ∧ map st_timestep steps = scheduler_timesteps self sched
      ∧ heap w' !! latents
        = Some (mkTensor (t_shape x) (t_device x) (t_dtype x)
                  (map (fun e => fmul e (scheduler_init_noise_sigma self sched))
                       (t_data x))).
Proof.
  intros E Sx Hp sched.
  destruct (t_inference x) eqn:Hi.
  { exact (image_from_embeddings_inference latents n emb g callback rid extra w x E Hi). }
  unfold image_from_embeddings.
  set (w1 := mkWorld (heap w) sched (rng w) (entropy w)).
  assert (Hs : call_set_timesteps self n w = Ok tt w1 [CallSetTimesteps n]) by reflexivity.
  rewrite Hs.
  assert (E1 : heap w1 !! latents = Some x) by exact E.
  destruct (generate_from_embeddings_completes HC latents emb g rid extra w1 x E1 Hi Sx)
    as (s0 & steps & o & w' & tr & He & Ho & Ht).
  destruct (for_each_passive
              (fun result =>
                 match callback with
                 | Some callback =>
                     if is_intermediate result then call_callback self callback result
                     else pass self
                 | None => pass self
                 end)
              _ (passive_body callback is_intermediate Hp) None w' tr Ho)
    as (tr' & Hf & Hy).
  rewrite He, last_states_final in Hf. cbn [from_option] in Hf.
  rewrite Hf. cbn [return_last prepend].
  exists o, s0, steps. eexists _, _. split; [reflexivity |].
  split; [rewrite yielded_app, yielded_calls, Hy, He; reflexivity |].
  split; [exact Ht |].
  pose proof (generate_from_embeddings_extends self latents emb g rid extra w1 x E1 Hi)
    as Hx.
  rewrite Ho in Hx. cbn [res_world] in Hx.
  eapply extends_lookup; [exact Hx |].
  cbn. apply list_lookup_insert_eq.
  destruct rid; cbn; eapply lookup_lt_Some; exact E.
Qed.

(** X10: with collaborators that keep their contracts, a height and width
    that are multiples of 8, no supplied latents and a callback that only
    watches, [__call__] returns the final output, after one state for the
    initial noise and one per timestep of the schedule set for
    [num_inference_steps]; the noise is drawn once, and every tensor that
    existed before the call is unchanged. *)
Theorem call_completes (HC : Contracts self) prompt height width n g generator callback
    extra (w : World self) :
  height `mod` 8 = 0 -> width `mod` 8 = 0 ->
  0 <= height -> 0 <= width -> 0 <= unet_in_channels self ->
  passive self callback ->
  let sched := scheduler_set_timesteps self n (scheduler w) in
  exists o s0 steps w' tr,
    __call__ self prompt height width n g generator None callback extra w
    = Ok (Final o) w' tr
    ∧ yielded tr = Intermediate s0 :: map Intermediate steps ++ [Final o]
    ∧ map st_timestep steps = scheduler_timesteps self sched
    ∧ rng w' = snd (torch_randn self
                      (latents_shape self (batch_size_of prompt) height width)
                      generator (rng w))
    ∧ exists made, heap w' = heap w ++ made.
Proof.
  intros Hh Hw Ph Pw Pc Hp sched. unfold __call__.
  destruct (generate_fresh HC prompt None height width n g generator None extra w
              Hh Hw Ph Pw Pc) as (emb & tr0 & noise & Sn & Hi & ->).
  set (w2 := mkWorld (heap w ++ [noise]) _ _ _).
  assert (E2 : heap w2 !! length (heap w) = Some noise)
    by (apply list_lookup_middle; reflexivity).
  assert (Sx : t_shape noise ≠ []) by (rewrite Sn; discriminate).
  destruct (generate_from_embeddings_completes HC (length (heap w)) emb g None extra
              w2 noise E2 Hi Sx)
    as (s0 & steps & o & w' & tr & He & Ho & Ht).
  assert (Ho' : outcome (co_prepend tr0
                  (generate_from_embeddings self (length (heap w)) emb g None extra w2))
                = Ok tt w' (tr0 ++ tr))
    by (rewrite outcome_co_prepend, Ho; reflexivity).
  destruct (for_each_passive
              (fun result =>
                 match callback with
                 | Some callback => call_callback self callback result
                 | None => pass self
                 end)
              _ (passive_body callback (fun _ => true) Hp) None w' _ Ho')
    as (tr' & Hf & Hy).
  rewrite elements_co_prepend, He in Hf, Hy. rewrite last_states_final in Hf.
  cbn [from_option] in Hf. cbn beta iota in Hf.
  rewrite Hf. cbn [return_last].
  exists o, s0, steps. eexists _, _. split; [reflexivity |].
  split; [exact Hy |]. split; [exact Ht |].
  pose proof (generate_from_embeddings_extends self (length (heap w)) emb g None extra
                w2 noise E2 Hi) as ((made & Hm) & Hr & _).
  rewrite Ho in Hm, Hr. cbn [res_world] in Hm, Hr.
  split; [exact Hr |].
  eexists. rewrite Hm. cbn.
  rewrite insert_app_r_alt, Nat.sub_diag by lia. cbn.
  rewrite <- app_assoc. reflexivity.
Qed.
End Completion.

(** ** The order of the collaborator calls *)

Section Order.
Context {F : Type} `{Scalar F} (self : Pipeline F).

Lemma staged_nil ps : staged self ps [].
Proof.
  induction ps as [|p ps IH]; [reflexivity |].
  exists [], []. split; [reflexivity |]. split; [constructor | exact IH].
Qed.

Lemma staged_cons p ps a b :
  in_phase self p a -> staged self ps b -> staged self (p :: ps) (a ++ b).
Proof. intros Ha Hb. exists a, b. split; [reflexivity |]. split; assumption. Qed.

Lemma staged_skip p ps b : staged self ps b -> staged self (p :: ps) b.
Proof. intros Hb. apply (staged_cons p ps [] b); [constructor | exact Hb]. Qed.

Lemma staged_absorb p ps a b :
  in_phase self p a -> staged self (p :: ps) b -> staged self (p :: ps) (a ++ b).
Proof.
  intros Ha (b1 & b2 & -> & H1 & H2). rewrite app_assoc.
  apply staged_cons; [apply Forall_app_2; assumption | exact H2].
Qed.

Lemma trace_lift_bind {A B : Type} (c : M self A) (f : A -> Co self (Elem F) B) w :
  res_trace (outcome ((lift c ≫= f) w))
  = res_trace (c w) ++ match c w with
                       | Ok a w' _ => res_trace (outcome (f a w'))
                       | Err _ _ _ => []
                       end.
Proof.
  rewrite outcome_lift_bind. destruct (c w) as [a w' tr|e w' tr]; cbn.
  - apply res_trace_prepend.
  - symmetry. apply app_nil_r.
Qed.

Lemma trace_mbind {A B : Type} (c : Co self (Elem F) A) (f : A -> Co self (Elem F) B) w :
  res_trace (outcome ((c ≫= f) w))
  = res_trace (outcome (c w)) ++ match outcome (c w) with
                                 | Ok a w' _ => res_trace (outcome (f a w'))
                                 | Err _ _ _ => []
                                 end.
Proof.
  rewrite outcome_mbind. destruct (outcome (c w)) as [a w' tr|e w' tr]; cbn.
  - apply res_trace_prepend.
  - symmetry. apply app_nil_r.
Qed.

Lemma get_text_embeddings_in_phase prompt opposing_prompt cfg batch_size :
  traces (in_phase self Conditioning)
         (get_text_embeddings self prompt opposing_prompt cfg batch_size).
Proof.
  pose proof (in_phase_monoidal self Conditioning) as HQ.
  unfold get_text_embeddings, _tokenize, call_tokenizer, call_text_encoder.
  traces_auto HQ.
Qed.

Lemma post_in_phase latents :
  co_traces (in_phase self PostProcessing)
    (lift (torch_cuda_empty_cache self);;
     image ← lift (decode_to_image self latents);
     output ← lift (check_for_safety self (mkOutput image []));
     yield_ (Final output)).
Proof.
  pose proof (in_phase_monoidal self PostProcessing) as HQ.
  apply (co_traces_bind _ _ HQ); [| intros _].
  { apply co_traces_lift, traces_emit. repeat constructor. }
  apply (co_traces_bind _ _ HQ); [| intros image].
  { apply co_traces_lift, decode_to_image_in_phase. }
  apply (co_traces_bind _ _ HQ); [| intros output; apply (co_traces_yield _ _ HQ)].
  apply co_traces_lift, check_for_safety_in_phase.
Qed.

Lemma finish_run_staged rid latents emb g extra (w : World self) :
  staged self [Denoising; PostProcessing]
         (res_trace (outcome (finish_run self rid latents emb g extra w))).
Proof.
  unfold finish_run. rewrite trace_lift_bind. unfold get_world at 1 2. cbn [res_trace app].
  rewrite trace_mbind. apply staged_cons.
  - apply (co_traces_denoise_loop self _ (in_phase_monoidal self Denoising)).
    intros t l. apply step_in_phase.
  - destruct (outcome _) as [latents' w' tr|e w' tr]; [| apply staged_nil].
    rewrite <- (app_nil_r (res_trace _)).
    apply staged_cons; [apply post_in_phase | reflexivity].
Qed.

Lemma generate_from_embeddings_staged latents emb g rid extra (w : World self) :
  staged self [Identifier; Denoising; PostProcessing]
         (res_trace (outcome (generate_from_embeddings self latents emb g rid extra w))).
Proof.
  assert (Hsome : forall r w,
            staged self [Denoising; PostProcessing]
              (res_trace (outcome
                 (generate_from_embeddings self latents emb g (Some r) extra w)))).
  { intros r w0. destruct (latents_cases self w0 latents) as [(x & E & Hi)|Hr].
    - destruct (generate_from_embeddings_first self latents emb g r extra w0 x E Hi)
        as (k & -> & Hk).
      cbn [outcome]. rewrite prepend_nil, Hk. apply finish_run_staged.
    - destruct (generate_from_embeddings_refused self latents emb g r extra w0 Hr)
        as (e & ->).
      apply staged_nil. }
  destruct rid as [r|]; [apply staged_skip, Hsome |].
  rewrite generate_from_embeddings_None, outcome_co_prepend, res_trace_prepend.
  apply staged_cons; [repeat constructor | apply Hsome].
Qed.

(** X11: in every run of [generate], completed or not, the collaborators
    are called in the order of the phases: first the tokenizer and the text
    encoder, then the set-up of the schedule and of the noise, then the
    draw of the run identifier, then the denoising calls (scale, unet,
    scheduler step), and decoding and safety checking last; no call of an
    earlier phase follows a call of a later one. *)
Theorem generate_calls_in_phase_order prompt opposing_prompt height width n g generator
    latents rid extra (w : World self) :
  staged self [Conditioning; Setup; Identifier; Denoising; PostProcessing]
    (res_trace (outcome (generate self prompt opposing_prompt height width n g generator
                                  latents rid extra w))).
Proof.
  unfold generate. destruct (decide _); [apply staged_nil |].
  rewrite trace_lift_bind. apply staged_cons; [apply get_text_embeddings_in_phase |].
  destruct (get_text_embeddings _ _ _ _ _ _) as [emb w1 tr1|e w1 tr1]; [| apply staged_nil].
  rewrite trace_lift_bind. apply staged_absorb; [apply call_set_timesteps_in_phase |].
  destruct (call_set_timesteps _ _ _) as [[] w2 tr2|e w2 tr2]; [| apply staged_nil].
  rewrite trace_lift_bind. apply staged_cons; [apply prepare_latents_in_phase |].
  destruct (prepare_latents _ _ _ _ _ _ _ _) as [l w3 tr3|e w3 tr3]; [| apply staged_nil].
  apply generate_from_embeddings_staged.
Qed.
End Order.

(** ** A callback that raises *)

Section Abort.
Context {F : Type} `{Scalar F} (self : Pipeline F).

(** X12: an exception raised by the callback on the first state leaves
    [image_from_embeddings] as it is, in the world the callback left: the
    loop is not resumed, so after [set_timesteps] and the draw of an
    omitted identifier no collaborator is called, neither the unet nor the
    scheduler nor the decoder.  The first state reaches the callback when
    torch lets the pipeline scale the latents in place; on an inference
    tensor the scaling raises before anything is yielded, and it is that
    [RuntimeError] which leaves [image_from_embeddings], the callback not
    having been invoked. *)
Theorem callback_error_stops_run latents n emb g (cb : Callback self) rid extra
    (w : World self) x e w_cb :
  let w1 := mkWorld (heap w) (scheduler_set_timesteps self n (scheduler w))
                    (rng w) (entropy w) in
  let s0 := Intermediate
              (mkState (run_id_of self w1 rid) (-1)
                       (scheduler_num_train_timesteps self (scheduler w1)) latents None) in
  heap w !! latents = Some x ->
  cb s0 (scaled_world self (run_world self w1 rid) latents x
           (scheduler_init_noise_sigma self (scheduler w1)))
  = (Some e, w_cb) ->
  image_from_embeddings self latents n emb g (Some cb) rid extra w
  = if t_inference x
    then Err (RuntimeError InplaceUpdateToInferenceTensor) (run_world self w1 rid)
             (ObsCall (CallSetTimesteps n)
              :: match rid with
                 | None => [ObsCall (CallTokenUrlsafe ID_LENGTH)]
                 | Some _ => []
                 end)
    else Err e w_cb
             (ObsCall (CallSetTimesteps n)
              :: match rid with
                 | None => [ObsCall (CallTokenUrlsafe ID_LENGTH)]
                 | Some _ => []
                 end
              ++ [ObsYield s0; ObsCallback s0]).
Proof.
  intros w1 s0 E Hcb.
  destruct (t_inference x) eqn:Hi.
  { exact (image_from_embeddings_inference self latents n emb g (Some cb) rid extra w x
             E Hi). }
  unfold image_from_embeddings.
  assert (Hs : call_set_timesteps self n w = Ok tt w1 [CallSetTimesteps n]) by reflexivity.
  rewrite Hs.
  assert (E1 : heap w1 !! latents = Some x) by exact E.
  destruct rid as [r|].
  - destruct (generate_from_embeddings_first self latents emb g r extra w1 x E1 Hi)
      as (k & -> & Hk).
    cbn [for_each is_intermediate]. unfold call_callback.
    cbn [run_id_of run_world] in s0, Hcb. fold s0. rewrite Hcb. reflexivity.
  - rewrite generate_from_embeddings_None.
    assert (E2 : heap (run_world self w1 None) !! latents = Some x) by exact E.
    destruct (generate_from_embeddings_first self latents emb g (run_id_of self w1 None)
                extra (run_world self w1 None) x E2 Hi) as (k & -> & Hk).
    cbn [co_prepend for_each is_intermediate]. unfold call_callback.
    change (scheduler (run_world self w1 None)) with (scheduler w1).
    fold s0. rewrite Hcb. reflexivity.
Qed.
End Abort.

(** ** Decoding *)

Section Decoding.
Context {F : Type} `{Scalar F} (self : Pipeline F).

Lemma fclamp_range (x : F) :
  fgtb f_0 f_0 = false -> fgtb f_0 f_1 = false ->
  fgtb f_0 (fclamp f_0 f_1 x) = false ∧ fgtb (fclamp f_0 f_1 x) f_1 = false.
Proof.
  intros H00 H01. unfold fclamp.
  destruct (fgtb f_0 x) eqn:Lo; [split; assumption |].
  destruct (fgtb x f_1) eqn:Hi; [split; [exact H01 | apply fgtb_1_1] |].
  split; assumption.
Qed.

Lemma permute_0231_Forall (P : F -> Prop) (x y : Tensor F) :
  permute_0231 x = inr y -> Forall P (t_data x) -> Forall P (t_data y).
Proof.
  unfold permute_0231.
  destruct (t_shape x) as [|n [|c [|h [|w [|]]]]]; try discriminate.
  intros [= <-] Hx. cbn [t_data].
  rewrite Forall_forall in Hx. apply Forall_forall. intros e He.
  apply list_elem_of_bind in He as (ni & He & _).
  apply list_elem_of_bind in He as (hi & He & _).
  apply list_elem_of_bind in He as (wi & He & _).
  apply list_elem_of_bind in He as (ci & He & _).
  destruct (t_data x !! _) as [e'|] eqn:L; cbn in He.
  - apply list_elem_of_singleton in He as ->.
    apply Hx. eapply list_elem_of_lookup_2, L.
  - apply elem_of_nil in He as [].
Qed.

(** X13: [decode_to_image] hands the latents divided by 0.18215 to the
    decoder, once; of a decoded batch of shape (n, c, h, w) it returns an
    image of shape (n, h, w, c) on the CPU, and it changes neither the
    latents nor anything else.  Every element of the image is one of the
    decoded values, halved, shifted by 0.5 and clamped to 0 and 1 with the
    comparison of the scalars: it does not compare below 0 and does not
    compare above 1.  A value that compares with neither bound, as the NaN
    of the floats does, passes the clamp as it is. *)
Theorem decode_to_image_range latents (w : World self) x n c h wd :
  fgtb f_0 f_0 = false ->
  fgtb f_0 f_1 = false ->
  heap w !! latents = Some x ->
  t_shape (vae_decode self (scalar_mul_tensor (fdiv f_1 f_0_18215) x)) = [n; c; h; wd] ->
  exists image,
    decode_to_image self latents w
    = Ok image w [CallVaeDecode (scalar_mul_tensor (fdiv f_1 f_0_18215) x)]
    ∧ t_shape image = [n; h; wd; c]
    ∧ t_device image = Cpu
    ∧ Forall (fun e =>
                (exists v,
                    v ∈ t_data (vae_decode self (scalar_mul_tensor (fdiv f_1 f_0_18215) x))
                    ∧ e = (if fgtb f_0 (fadd (fdiv v f_2) f_0_5) then f_0
                           else if fgtb (fadd (fdiv v f_2) f_0_5) f_1 then f_1
                           else fadd (fdiv v f_2) f_0_5))
                ∧ fgtb f_0 e = false ∧ fgtb e f_1 = false)
             (t_data image).
Proof.
  intros H00 H01 E S.
  set (z := scalar_mul_tensor (fdiv f_1 f_0_18215) x) in *.
  set (clamped := tensor_to Cpu
         (tensor_clamp (tensor_add_scalar (tensor_div_scalar (vae_decode self z) f_2) f_0_5)
            f_0 f_1)).
  set (P := fun e : F =>
              (exists v,
                  v ∈ t_data (vae_decode self z)
                  ∧ e = (if fgtb f_0 (fadd (fdiv v f_2) f_0_5) then f_0
                         else if fgtb (fadd (fdiv v f_2) f_0_5) f_1 then f_1
                         else fadd (fdiv v f_2) f_0_5))
              ∧ fgtb f_0 e = false ∧ fgtb e f_1 = false).
  assert (Hc : Forall P (t_data clamped)).
  { unfold clamped. cbn. apply Forall_forall. intros e He.
    apply list_elem_of_fmap in He as (v1 & -> & He).
    apply list_elem_of_fmap in He as (v2 & -> & He).
    apply list_elem_of_fmap in He as (v & -> & He).
    split; [exists v; split; [exact He | reflexivity] |].
    apply fclamp_range; assumption. }
  destruct (permute_0231 clamped) as [err|image] eqn:Q.
  { exfalso. revert Q. unfold permute_0231, clamped. cbn. rewrite S. discriminate. }
  exists image.
  assert (Hd : decode_to_image self latents w = Ok image w [CallVaeDecode z]).
  { unfold decode_to_image, call_vae_decode. rewrite (bind_Ok self _ _ _ _ _ _ (deref_Some self w latents x E)).
    cbn [prepend app]. msimpl. fold z. fold clamped. rewrite Q. reflexivity. }
  split; [exact Hd |].
  pose proof (permute_0231_Forall P clamped image Q Hc) as Hr.
  revert Q. unfold permute_0231. replace (t_shape clamped) with [n; c; h; wd]
    by (symmetry; exact S).
  intros [= <-]. repeat split. exact Hr.
Qed.
End Decoding.

(** On floats a NaN passes the clamp of [decode_to_image]: it compares
    with neither bound. *)
Remark fclamp_nan : fclamp (F := float) f_0 f_1 nan = nan.
Proof. reflexivity. Qed.

(** ** The calls of the denoising steps *)

Section UnetCalls.
Context {F : Type} `{Scalar F} (self : Pipeline F).

Lemma step_trace (HC : Contracts self) t latents g emb extra (w : World self) x :
  heap w !! latents = Some x ->
  t_shape x ≠ [] ->
  exists out w' sample noise,
    step self t latents g emb extra w
    = Ok out w'
         [CallScaleModelInput sample t;
          CallUnet (fst (scheduler_scale_model_input self sample t (scheduler w))) t emb;
          CallSchedulerStep noise t latents]
    ∧ t_data sample = (if fgtb g f_1 then t_data x ++ t_data x else t_data x)
    ∧ live self w' (prev_sample out).
Proof.
  intros E Sx.
  destruct (t_shape x) as [|n r] eqn:S; [contradiction |].
  destruct (fgtb g f_1) eqn:G.
  - pose proof (torch_cat2_self x n r S) as C.
    set (xx := mkTensor ((n + n) :: r) (t_device x) (t_dtype x) (t_data x ++ t_data x)) in C.
    set (inp := fst (scheduler_scale_model_input self xx t (scheduler w))).
    assert (Snp : t_shape (unet self inp t emb) = (n + n) :: r).
    { rewrite (unet_shape self HC). unfold inp.
      rewrite (scale_model_input_shape self HC). reflexivity. }
    pose proof (chunk2_even _ n r Snp) as K.
    rewrite (step_guided self t latents g emb extra w x xx _ _ n r G E C K)
      by reflexivity.
    set (w1 := mkWorld _ _ _ _). set (noise := guidance g _ _).
    destruct (call_scheduler_step_Some self noise t latents extra w1 x E)
      as (pred & w' & -> & Hprev & _).
    eexists _, _, xx, noise. split; [reflexivity |]. split; [reflexivity |].
    eexists. split; [exact Hprev |].
    cbn [as_inference t_shape]. rewrite (scheduler_step_shape self HC), S. discriminate.
  - rewrite (step_unguided self t latents g emb extra w x G E).
    set (w1 := mkWorld _ _ _ _).
    destruct (call_scheduler_step_Some self
                (unet self (fst (scheduler_scale_model_input self x t (scheduler w))) t emb)
                t latents extra w1 x E)
      as (pred & w' & -> & Hprev & _).
    eexists _, _, x, _. split; [reflexivity |]. split; [reflexivity |].
    eexists. split; [exact Hprev |].
    cbn [as_inference t_shape]. rewrite (scheduler_step_shape self HC), S. discriminate.
Qed.

(** X14: under the collaborators' contracts a step on latents of at least
    one dimension makes exactly three collaborator calls, in this order:
    [scale_model_input], the unet, [scheduler.step].  The unet is called
    once whether guidance is on or not: with guidance it is given the
    latents twice in one batch.  The latents the step was given are not
    modified. *)
Theorem step_calls_unet_once (HC : Contracts self) t latents g emb extra (w : World self) x :
  heap w !! latents = Some x ->
  t_shape x ≠ [] ->
  exists out w' sample noise,
    step self t latents g emb extra w
    = Ok out w'
         [CallScaleModelInput sample t;
          CallUnet (fst (scheduler_scale_model_input self sample t (scheduler w))) t emb;
          CallSchedulerStep noise t latents]
    ∧ t_data sample = (if fgtb g f_1 then t_data x ++ t_data x else t_data x)
    ∧ heap w' !! latents = Some x.
Proof.
  intros E Sx.
  destruct (step_trace HC t latents g emb extra w x E Sx)
    as (out & w' & sample & noise & Hs & Hd & _).
  exists out, w', sample, noise. split; [exact Hs |]. split; [exact Hd |].
  pose proof (keeps_step self t latents g emb extra w) as Hk.
  rewrite Hs in Hk. eapply extends_lookup; [exact Hk | exact E].
Qed.

Lemma denoise_loop_unet_calls (HC : Contracts self) rid g emb extra ts :
  forall i latents (w : World self),
    live self w latents ->
    map (fun c => (c.1.2, c.2))
        (unet_calls (res_trace (outcome (denoise_loop self rid g emb extra i ts latents w))))
    = map (fun t => (t, emb)) ts.
Proof.
  induction ts as [|t ts IH]; intros i latents w (x & E & Sx); cbn [denoise_loop].
  - reflexivity.
  - rewrite trace_lift_bind.
    destruct (step_trace HC t latents g emb extra w x E Sx)
      as (out & w' & sample & noise & -> & _ & L').
    cbn [res_trace]. rewrite outcome_yield_bind, unet_calls_app, map_app.
    rewrite (IH (i + 1) (prev_sample out) w' L'). reflexivity.
Qed.

Lemma in_phase_unet_calls p (tr : list (Call self)) :
  in_phase self p tr -> p ≠ Denoising -> unet_calls tr = [].
Proof.
  intros Hp Hn. induction Hp as [|c tr Hc _ IH]; [reflexivity |].
  destruct c; cbn in *; try exact IH; congruence.
Qed.

Lemma finish_run_unet_calls (HC : Contracts self) rid latents emb g extra (w : World self) :
  live self w latents ->
  map (fun c => (c.1.2, c.2))
      (unet_calls (res_trace (outcome (finish_run self rid latents emb g extra w))))
  = map (fun t => (t, emb)) (scheduler_timesteps self (scheduler w)).
Proof.
  intros L. unfold finish_run. rewrite trace_lift_bind. unfold get_world at 1 2.
  cbn [res_trace app]. rewrite trace_mbind, unet_calls_app, map_app.
  rewrite (denoise_loop_unet_calls HC rid g emb extra _ 0 latents w L).
  rewrite <- (app_nil_r (map _ (scheduler_timesteps _ _))) at 2. f_equal.
  destruct (outcome _) as [latents' w' tr|e w' tr]; [| reflexivity].
  rewrite (in_phase_unet_calls PostProcessing); [reflexivity | | discriminate].
  apply post_in_phase.
Qed.

(** X15: under the collaborators' contracts and on latents of at least one
    dimension which torch lets the loop scale in place (not an inference
    tensor), a run of [generate_from_embeddings] evaluates the unet exactly
    once for each timestep of the schedule, in the order of the schedule,
    and every time on the text embeddings it was given.  On an inference
    tensor the scaling raises and the unet is not called at all. *)
Theorem unet_called_once_per_timestep (HC : Contracts self) latents emb g rid extra
    (w : World self) x :
  heap w !! latents = Some x ->
  t_shape x ≠ [] ->
  map (fun c => (c.1.2, c.2))
      (unet_calls
         (res_trace (outcome (generate_from_embeddings self latents emb g rid extra w))))
  = if t_inference x then []
    else map (fun t => (t, emb)) (scheduler_timesteps self (scheduler w)).
Proof.
  intros E Sx. destruct (t_inference x) eqn:Hi.
  { destruct rid as [r|].
    - rewrite (generate_from_embeddings_inference self latents emb g r extra w x E Hi).
      reflexivity.
    - rewrite generate_from_embeddings_None, outcome_co_prepend, res_trace_prepend.
      assert (E' : heap (run_world self w None) !! latents = Some x) by exact E.
      rewrite (generate_from_embeddings_inference self latents emb g _ extra _ x E' Hi).
      reflexivity. }
  set (sigma := scheduler_init_noise_sigma self (scheduler w)).
  assert (L : live self (scaled_world self (run_world self w rid) latents x sigma) latents).
  { exists (tensor_mul_scalar x sigma). split; [| exact Sx].
    cbn. apply list_lookup_insert_eq.
    destruct rid; cbn; eapply lookup_lt_Some; exact E. }
  pose proof (finish_run_unet_calls HC (run_id_of self w rid) latents emb g extra _ L) as Hf.
  assert (Hsched : scheduler (scaled_world self (run_world self w rid) latents x sigma)
                   = scheduler w) by (destruct rid; reflexivity).
  rewrite Hsched in Hf.
  destruct rid as [r|].
  - destruct (generate_from_embeddings_first self latents emb g r extra w x E Hi)
      as (k & -> & Hk).
    cbn [outcome]. rewrite prepend_nil, Hk. exact Hf.
  - rewrite generate_from_embeddings_None, outcome_co_prepend, res_trace_prepend.
    assert (E' : heap (run_world self w None) !! latents = Some x) by exact E.
    destruct (generate_from_embeddings_first self latents emb g (run_id_of self w None)
                extra (run_world self w None) x E' Hi) as (k & -> & Hk).
    cbn [outcome]. rewrite prepend_nil, Hk. exact Hf.
Qed.
End UnetCalls.

(** ** The compatibility function *)

Section CompatibilityProperties.
Context {F : Type} `{Scalar F} (self : Pipeline F) `{!Compat self}.

(** X16: with token ids that already live on the device of the text
    encoder, [get_learned_conditioning] returns what the unguided
    [get_text_embeddings] returns for the first list of fragments, through
    the same two calls, together with the token ids; the other lists of
    [c], the fragment weights and the keyword arguments have no influence
    on the result. *)
Theorem get_learned_conditioning_first_fragments (frags : list string)
    (opposing_prompt : option Prompt) (batch_size : nat) (w : World self) :
  input_ids_to text_encoder_device (tokenizer self (PList frags))
  = tokenizer self (PList frags) ->
  exists emb tr,
    get_text_embeddings self (PList frags) opposing_prompt false batch_size w = Ok emb w tr
    ∧ forall rest fragment_weights kwargs,
        snd (get_learned_conditioning self (frags :: rest) true fragment_weights kwargs w)
        = inr (Ok (emb, tokenizer self (PList frags)) w tr).
Proof.
  intros Hto. eexists _, _. split.
  - unfold get_text_embeddings, _tokenize, call_tokenizer, call_text_encoder. msimpl.
    reflexivity.
  - intros rest fragment_weights kwargs.
    unfold get_learned_conditioning, _tokenize, call_tokenizer, call_text_encoder.
    msimpl. rewrite Hto. reflexivity.
Qed.

(** X17: without keyword arguments, [get_learned_conditioning] stays
    silent exactly when every weight of the first row of
    [fragment_weights] equals 1.0: the rows after the first are not
    examined, a weight other than 1.0 there is dropped without a
    warning. *)
Theorem warns_on_first_row_only (c : list (list string)) (row : list F)
    (rows : list (list F)) (w : World self) :
  fst (get_learned_conditioning self c true (Some (row :: rows)) [] w) = []
  <-> Forall (fun weight => fneb weight f_1 = false) row.
Proof.
  unfold get_learned_conditioning. cbn [negb].
  destruct (existsb (fun weight => fneb weight f_1) row) eqn:Ex.
  - split.
    + destruct c; cbn; discriminate.
    + intros Hall. exfalso.
      apply existsb_exists in Ex as (weight & Hin & Hne).
      rewrite Forall_forall in Hall.
      rewrite (Hall weight) in Hne; [discriminate |].
      apply list_elem_of_In. exact Hin.
  - split; [intros _ | intros _; destruct c; reflexivity].
    apply Forall_forall. intros weight Hin.
    destruct (fneb weight f_1) eqn:Hne; [| reflexivity].
    assert (existsb (fun weight => fneb weight f_1) row = true) as Ht.
    { apply existsb_exists. exists weight. split; [| exact Hne].
      apply list_elem_of_In. exact Hin. }
    congruence.
Qed.
End CompatibilityProperties.

(** ** Attention slicing *)

(** X18: for a unet whose attention head dimension is positive and even,
    [enable_attention_slicing("auto")] sets a slice size that makes the
    attention be computed in exactly two slices. *)
Theorem auto_slicing_two_slices (attention_head_dim : Z) :
  0 < attention_head_dim ->
  attention_head_dim `mod` 2 = 0 ->
  map (slices attention_head_dim)
      (enable_attention_slicing attention_head_dim (SliceStr "auto"))
  = [Some 2].
Proof.
  intros Hpos Heven. unfold enable_attention_slicing.
  destruct (decide _) as [_|Hn]; [| contradiction].
  cbn. do 2 f_equal.
  assert (Hd : attention_head_dim = 2 * (attention_head_dim `div` 2))
    by (apply Z.div_exact; [lia | exact Heven]).
  set (k := attention_head_dim `div` 2) in *.
  rewrite Hd. apply Z.div_mul. lia.
Qed.

(** ** Sizes that validation lets through *)

Section NegativeSize.
Context {F : Type} `{Scalar F} (self : Pipeline F).

(** X19: the validation of [generate] looks at divisibility only.  A
    negative height or width that is a multiple of 8 passes it; without
    supplied latents the run then fails in [torch.randn] with a
    [RuntimeError], after the prompt has been tokenized and encoded and the
    schedule has been set, and before anything is yielded. *)
Theorem generate_negative_size (HC : Contracts self) prompt opposing_prompt height width n g
    generator rid extra (w : World self) :
  height `mod` 8 = 0 -> width `mod` 8 = 0 ->
  height < 0 ∨ width < 0 ->
  exists emb tr,
    get_text_embeddings self prompt opposing_prompt (fgtb g f_1) (batch_size_of prompt) w
    = Ok emb w tr
    ∧ generate self prompt opposing_prompt height width n g generator None rid extra w
      = Raise (RuntimeError NegativeDimension)
              (mkWorld (heap w) (scheduler_set_timesteps self n (scheduler w))
                       (rng w) (entropy w))
              (tr ++ [CallSetTimesteps n;
                      CallRandn (latents_shape self (batch_size_of prompt) height width)]).
Proof.
  intros Hh Hw Hneg. unfold generate.
  destruct (decide _) as [[?|?]|_]; [contradiction | contradiction |].
  destruct (get_text_embeddings_succeeds self HC prompt opposing_prompt (fgtb g f_1)
              (batch_size_of prompt) w) as (emb & tr & Hg).
  exists emb, tr. split; [exact Hg |].
  rewrite (co_bind_lift_Ok self _ _ _ _ _ _ Hg). cbn beta.
  set (w1 := mkWorld (heap w) (scheduler_set_timesteps self n (scheduler w))
                     (rng w) (entropy w)).
  assert (Hs : call_set_timesteps self n w = Ok tt w1 [CallSetTimesteps n]) by reflexivity.
  rewrite (co_bind_lift_Ok self _ _ _ _ _ _ Hs). cbn beta.
  assert (Hp : prepare_latents self None (batch_size_of prompt) height width generator
                 (unet_dtype self) w1
               = Err (RuntimeError NegativeDimension) w1
                     [CallRandn (latents_shape self (batch_size_of prompt) height width)]).
  { unfold prepare_latents, call_randn. msimpl.
    destruct (decide (Forall (fun d => 0 <= d)
                        (latents_shape self (batch_size_of prompt) height width)))
      as [Hall|_]; [| reflexivity].
    exfalso. unfold latents_shape in Hall.
    apply Forall_cons in Hall as [_ Hall]. apply Forall_cons in Hall as [_ Hall].
    apply Forall_cons in Hall as [Hdh Hall]. apply Forall_cons in Hall as [Hdw _].
    destruct Hneg as [Hn|Hn].
    - assert (height `div` 8 < 0) by (apply Z.div_lt_upper_bound; lia). lia.
    - assert (width `div` 8 < 0) by (apply Z.div_lt_upper_bound; lia). lia. }
  rewrite (co_bind_lift_Err self _ _ _ _ _ _ Hp). cbn [co_prepend].
  reflexivity.
Qed.
End NegativeSize.

(** ** The prompts that are encoded *)

Section Tokenized.
Context {F : Type} `{Scalar F} (self : Pipeline F).

Lemma in_phase_tokenized p (tr : list (Call self)) :
  in_phase self p tr -> p ≠ Conditioning -> tokenized tr = [].
Proof.
  intros Hp Hn. induction Hp as [|c tr Hc _ IH]; [reflexivity |].
  destruct c; cbn in *; try exact IH; congruence.
Qed.

Lemma staged_tokenized ps (tr : list (Call self)) :
  staged self ps tr -> Conditioning ∉ ps -> tokenized tr = [].
Proof.
  revert tr. induction ps as [|p ps IH]; intros tr; cbn.
  - intros -> _. reflexivity.
  - intros (a & b & -> & Ha & Hb) Hn.
    rewrite tokenized_app, (in_phase_tokenized p a Ha), IH; [reflexivity | exact Hb | |].
    + intros Hin. apply Hn. right. exact Hin.
    + intros ->. apply Hn. left.
Qed.

Lemma get_text_embeddings_guided_run (HC : Contracts self) prompt opposing_prompt batch_size
    (w : World self) :
  exists emb,
    get_text_embeddings self prompt opposing_prompt true batch_size w
    = Ok emb w
         [CallTokenizer prompt; CallTextEncoder (tokenizer self prompt);
          CallTokenizer (or_blank opposing_prompt batch_size);
          CallTextEncoder (tokenizer self (or_blank opposing_prompt batch_size))].
Proof.
  set (effective := or_blank opposing_prompt batch_size).
  destruct (text_encoder_shape self HC (tokenizer self effective) (tokenizer self prompt))
    as (na & nb & rest & Sa & Sb).
  eexists.
  unfold get_text_embeddings, _tokenize, call_tokenizer, call_text_encoder. msimpl.
  fold (blank_captions batch_size).
  change (match opposing_prompt with
          | Some p => if prompt_truthy opposing_prompt then p else blank_captions batch_size
          | None => blank_captions batch_size
          end) with effective.
  unfold torch_cat2. rewrite Sa, Sb.
  destruct (decide (rest = rest)); [| contradiction]. reflexivity.
Qed.

(** X20: with a guidance scale above 1.0, a run of [generate] whose sizes
    pass validation tokenizes exactly two prompts, whether it completes or
    not: the prompt, then the opposing prompt, for which one blank caption
    per batch element stands in when it is omitted or empty.  No later
    phase of the run goes back to the tokenizer. *)
Theorem guided_generate_tokenizes (HC : Contracts self) prompt opposing_prompt height width
    n g generator latents rid extra (w : World self) :
  fgtb g f_1 = true ->
  height `mod` 8 = 0 -> width `mod` 8 = 0 ->
  tokenized (res_trace (outcome (generate self prompt opposing_prompt height width n g
                                          generator latents rid extra w)))
  = [prompt; or_blank opposing_prompt (batch_size_of prompt)].
Proof.
  intros G Hh Hw. unfold generate.
  destruct (decide _) as [[?|?]|_]; [contradiction | contradiction |].
  rewrite G, trace_lift_bind.
  destruct (get_text_embeddings_guided_run HC prompt opposing_prompt
              (batch_size_of prompt) w) as (emb & ->).
  cbn [res_trace]. rewrite tokenized_app.
  match goal with
  | |- context [tokenized (res_trace ?r)] =>
      rewrite (staged_tokenized [Setup; Identifier; Denoising; PostProcessing]
                 (res_trace r))
  end; [reflexivity | |].
  - rewrite trace_lift_bind. apply staged_absorb; [apply call_set_timesteps_in_phase |].
    destruct (call_set_timesteps _ _ _) as [[] w2 tr2|e w2 tr2]; [| apply staged_nil].
    rewrite trace_lift_bind. apply staged_cons; [apply prepare_latents_in_phase |].
    destruct (prepare_latents _ _ _ _ _ _ _ _) as [l w3 tr3|e w3 tr3]; [| apply staged_nil].
    apply generate_from_embeddings_staged.
  - intros Hin. repeat (apply elem_of_cons in Hin as [Hin|Hin]; [discriminate |]).
    apply elem_of_nil in Hin as [].
Qed.
End Tokenized.

(** ** Validation errors at the entry point *)

Section EntryErrors.
Context {F : Type} `{Scalar F} (self : Pipeline F).

(** X21: a height or width that is not a multiple of 8 makes [__call__]
    raise the [ValueError] of [generate] as it is: no collaborator has been
    called, the callback has not been invoked, nothing has been yielded and
    the world is unchanged. *)
Theorem call_rejects_indivisible prompt height width n g generator latents
    (callback : option (Callback self)) extra (w : World self) :
  height `mod` 8 ≠ 0 ∨ width `mod` 8 ≠ 0 ->
  __call__ self prompt height width n g generator latents callback extra w
  = Err (ValueError (HeightWidthNotDivisibleBy8 height width)) w [].
Proof.
  intros Hbad. unfold __call__, generate.
  destruct (decide _) as [_|Hok]; [| contradiction].
  reflexivity.
Qed.
End EntryErrors.

(** ** Further concrete runs

    The theorems above at [Demo.pipe]: a prompt of one caption, images of
    8 by 8 pixels, two inference steps. *)

Lemma get_text_embeddings_guided_witness :
  exists emb,
    get_text_embeddings Demo.pipe (PStr "a cat") None true 1 Demo.w0
    = Ok emb Demo.w0
         [CallTokenizer (PStr "a cat");
          CallTextEncoder (tokenizer Demo.pipe (PStr "a cat"));
          CallTokenizer (blank_captions 1);
          CallTextEncoder (tokenizer Demo.pipe (blank_captions 1))].
Proof.
  destruct (get_text_embeddings_guided Demo.pipe (demo_contracts None None)
              (PStr "a cat") None 1 Demo.w0)
    as (effective & emb & Hblank & _ & Hrun & _).
  rewrite (Hblank eq_refl) in Hrun. exists emb. exact Hrun.
Defined.

Lemma generate_ignores_opposing_prompt_witness :
  fgtb 1%Q f_1 = false
  ∧ generate Demo.pipe (PStr "a cat") Cases.dog 8 8 2 1%Q None None None tt Demo.w0
    = generate Demo.pipe (PStr "a cat") None 8 8 2 1%Q None None None tt Demo.w0.
Proof.
  split; [reflexivity |].
  exact (generate_ignores_opposing_prompt Demo.pipe (PStr "a cat") Cases.dog 8 8 2 1%Q
           None None None tt Demo.w0 eq_refl).
Defined.

Lemma prepare_latents_draws_witness :
  (0 <= unet_in_channels Demo.pipe ∧ 0 <= 8 `div` 8)
  ∧ prepare_latents Demo.pipe None 1 8 8 None Float32 Demo.w0
    = Ok 1%nat
         (mkWorld (self := Demo.pipe) [Demo.ones; Cases.scaled_ones] [] 1%nat 0%nat)
         [CallRandn [1; 4; 1; 1]].
Proof.
  assert (Hc : 0 <= unet_in_channels Demo.pipe) by (vm_compute; discriminate).
  assert (Hd : 0 <= 8 `div` 8) by (vm_compute; discriminate).
  split; [split; assumption |].
  exact (prepare_latents_draws Demo.pipe 1 8 8 None Float32 Demo.w0 Hc Hd Hd).
Defined.

Lemma yielded_states_persist_witness :
  (Cases.first_state, Cases.first_world)
    ∈ snapshots (generate_from_embeddings Demo.pipe 0%nat Demo.cond_emb 1%Q (Some "run") tt
                   Demo.w_ready)
  ∧ resolves Demo.pipe Cases.first_world Cases.first_state.
Proof.
  assert (Hin : (Cases.first_state, Cases.first_world)
                  ∈ snapshots (generate_from_embeddings Demo.pipe 0%nat Demo.cond_emb 1%Q
                                 (Some "run") tt Demo.w_ready)).
  { destruct (generate_from_embeddings_first Demo.pipe 0%nat Demo.cond_emb 1%Q "run" tt
                Demo.w_ready Demo.ones eq_refl eq_refl) as (k & -> & _).
    cbn [snapshots]. apply list_elem_of_here. }
  split; [exact Hin |].
  exact (proj1 (yielded_states_persist Demo.pipe 0%nat Demo.cond_emb 1%Q (Some "run") tt
                  Demo.w_ready Cases.first_state Cases.first_world Hin)).
Defined.

Lemma image_from_embeddings_completes_witness :
  exists o w' tr,
    image_from_embeddings Demo.pipe 0%nat 2 Demo.cond_emb 1%Q (Some (Demo.watch Demo.pipe))
                          None tt Demo.w0
    = Ok (Final o) w' tr
    ∧ heap w' !! 0%nat = Some (mkTensor [1; 4; 1; 1] Cpu Float32 [2; 2; 2; 2]%Q).
Proof.
  assert (Hp : passive Demo.pipe (Some (Demo.watch Demo.pipe))).
  { intros cb [= <-] y w. reflexivity. }
  assert (Hs : t_shape Demo.ones ≠ []) by discriminate.
  pose proof (image_from_embeddings_completes Demo.pipe (demo_contracts None None)
                0%nat 2 Demo.cond_emb 1%Q (Some (Demo.watch Demo.pipe)) None tt
                Demo.w0 Demo.ones eq_refl Hs Hp) as Hx.
  cbv zeta in Hx. destruct Hx as (o & s0 & steps & w' & tr & Hr & _ & _ & Hh).
  exists o, w', tr. split; [exact Hr | exact Hh].
Defined.

Lemma call_completes_witness :
  exists o w' tr,
    __call__ Demo.pipe (PStr "a cat") 8 8 2 (15 # 2)%Q None None
             (Some (Demo.watch Demo.pipe)) tt Demo.w0
    = Ok (Final o) w' tr
    ∧ rng w' = 1%nat.
Proof.
  assert (Hp : passive Demo.pipe (Some (Demo.watch Demo.pipe))).
  { intros cb [= <-] y w. reflexivity. }
  assert (Hc : 0 <= unet_in_channels Demo.pipe) by (vm_compute; discriminate).
  assert (H8 : (0 : Z) <= 8) by lia.
  pose proof (call_completes Demo.pipe (demo_contracts None None) (PStr "a cat") 8 8 2
                (15 # 2)%Q None (Some (Demo.watch Demo.pipe)) tt Demo.w0
                eq_refl eq_refl H8 H8 Hc Hp) as Hx.
  cbv zeta in Hx. destruct Hx as (o & s0 & steps & w' & tr & Hr & _ & _ & Hg & _).
  exists o, w', tr. split; [exact Hr | exact Hg].
Defined.

Lemma callback_error_stops_run_witness :
  heap Demo.w0 !! 0%nat = Some Demo.ones
  ∧ image_from_embeddings Demo.pipe 0%nat 2 Demo.cond_emb 1%Q (Some Cases.refuse)
                          (Some "run") tt Demo.w0
    = Err (AssertionError "stop") Cases.first_world
          [ObsCall (CallSetTimesteps 2); ObsYield Cases.first_state;
           ObsCallback Cases.first_state].
Proof.
  split; [reflexivity |].
  exact (callback_error_stops_run Demo.pipe 0%nat 2 Demo.cond_emb 1%Q Cases.refuse
           (Some "run") tt Demo.w0 Demo.ones (AssertionError "stop") Cases.first_world
           eq_refl eq_refl).
Defined.

Lemma decode_to_image_range_witness :
  (fgtb (0 : Q) 0%Q = false ∧ fgtb (0 : Q) 1%Q = false)
  ∧ exists image,
      decode_to_image Demo.pipe 0%nat Demo.w0
      = Ok image Demo.w0 [CallVaeDecode (scalar_mul_tensor (fdiv f_1 f_0_18215) Demo.ones)]
      ∧ t_shape image = [1; 1; 1; 3]
      ∧ t_data (vae_decode Demo.pipe (scalar_mul_tensor (fdiv f_1 f_0_18215) Demo.ones))
        = [20000 # 3643; 20000 # 3643; 20000 # 3643]%Q
      ∧ t_data image = [1; 1; 1]%Q.
Proof.
  assert (H00 : fgtb (0 : Q) 0%Q = false) by reflexivity.
  assert (H01 : fgtb (0 : Q) 1%Q = false) by reflexivity.
  split; [split; assumption |].
  destruct (decode_to_image_range Demo.pipe 0%nat Demo.w0 Demo.ones 1 3 1 1
              H00 H01 eq_refl eq_refl) as (image & Hd & Hs & _).
  exists image. split; [exact Hd |]. split; [exact Hs |]. split; [reflexivity |].
  assert (Hv : decode_to_image Demo.pipe 0%nat Demo.w0
               = Ok (mkTensor [1; 1; 1; 3] Cpu Float32 [1; 1; 1]%Q) Demo.w0
                    [CallVaeDecode (scalar_mul_tensor (fdiv f_1 f_0_18215) Demo.ones)])
    by reflexivity.
  rewrite Hd in Hv. injection Hv as ->. reflexivity.
Defined.

Lemma step_calls_unet_once_witness :
  exists out w' sample noise,
    step Demo.pipe 500 0%nat (15 # 2)%Q Demo.guided_emb tt Demo.w_ready
    = Ok out w'
         [CallScaleModelInput sample 500; CallUnet sample 500 Demo.guided_emb;
          CallSchedulerStep noise 500 0%nat]
    ∧ t_data sample = t_data Demo.ones ++ t_data Demo.ones
    ∧ heap w' !! 0%nat = Some Demo.ones.
Proof.
  assert (Hs : t_shape Demo.ones ≠ []) by discriminate.
  exact (step_calls_unet_once Demo.pipe (demo_contracts None None) 500 0%nat (15 # 2)%Q
           Demo.guided_emb tt Demo.w_ready Demo.ones eq_refl Hs).
Defined.

Lemma unet_called_once_per_timestep_witness :
  map (fun c => (c.1.2, c.2))
      (unet_calls (res_trace (outcome
         (generate_from_embeddings Demo.pipe 0%nat Demo.cond_emb 1%Q None tt Demo.w_ready))))
  = [(500, Demo.cond_emb); (0, Demo.cond_emb)].
Proof.
  assert (Hs : t_shape Demo.ones ≠ []) by discriminate.
  exact (unet_called_once_per_timestep Demo.pipe (demo_contracts None None) 0%nat
           Demo.cond_emb 1%Q None tt Demo.w_ready Demo.ones eq_refl Hs).
Defined.

Lemma get_learned_conditioning_first_fragments_witness :
  snd (get_learned_conditioning Demo.pipe [["a cat"]; ["a dog"]]%string true
         (Some [[2%Q]]) [] Demo.w0)
  = inr (Ok (Demo.encode (PList ["a cat"%string]), PList ["a cat"%string]) Demo.w0
            [CallTokenizer (PList ["a cat"%string]);
             CallTextEncoder (tokenizer Demo.pipe (PList ["a cat"%string]))]).
Proof.
  assert (Hto : input_ids_to text_encoder_device
                  (tokenizer Demo.pipe (PList ["a cat"%string]))
                = tokenizer Demo.pipe (PList ["a cat"%string])) by reflexivity.
  destruct (get_learned_conditioning_first_fragments Demo.pipe ["a cat"%string] None 1
              Demo.w0 Hto) as (emb & tr & Hg & Hall).
  rewrite Hall. rewrite get_text_embeddings_unguided in Hg.
  injection Hg as <- <-. reflexivity.
Defined.

Lemma auto_slicing_two_slices_witness :
  (0 < 8 ∧ 8 `mod` 2 = 0)
  ∧ map (slices 8) (enable_attention_slicing 8 (SliceStr "auto")) = [Some 2].
Proof.
  assert (Hp : (0 : Z) < 8) by lia.
  split; [split; [exact Hp | reflexivity] |].
  exact (auto_slicing_two_slices 8 Hp eq_refl).
Defined.

Lemma generate_negative_size_witness :
  ((-8) `mod` 8 = 0 ∧ -8 < 0)
  ∧ exists emb tr,
      get_text_embeddings Demo.pipe (PStr "a cat") None false 1 Demo.w0 = Ok emb Demo.w0 tr
      ∧ generate Demo.pipe (PStr "a cat") None (-8) 8 2 1%Q None None None tt Demo.w0
        = Raise (RuntimeError NegativeDimension)
                (mkWorld (self := Demo.pipe) [Demo.ones] (Demo.spread_timesteps 2)
                         0%nat 0%nat)
                (tr ++ [CallSetTimesteps 2; CallRandn [1; 4; -1; 1]]).
Proof.
  assert (Hn : -8 < 0) by lia.
  split; [split; [reflexivity | exact Hn] |].
  exact (generate_negative_size Demo.pipe (demo_contracts None None) (PStr "a cat") None
           (-8) 8 2 1%Q None None tt Demo.w0 eq_refl eq_refl (or_introl Hn)).
Defined.

Lemma guided_generate_tokenizes_witness :
  tokenized (res_trace (outcome
    (generate Demo.pipe (PStr "a cat") None 8 8 2 (15 # 2)%Q None None None tt Demo.w0)))
  = [PStr "a cat"; PList [EmptyString]].
Proof.
  exact (guided_generate_tokenizes Demo.pipe (demo_contracts None None) (PStr "a cat") None
           8 8 2 (15 # 2)%Q None None None tt Demo.w0 eq_refl eq_refl eq_refl).
Defined.

Lemma call_rejects_indivisible_witness :
  511 `mod` 8 = 7
  ∧ __call__ Demo.pipe (PStr "a cat") 511 512 50 (15 # 2)%Q None None
             (Some (Demo.watch Demo.pipe)) tt Demo.w0
    = Err (ValueError (HeightWidthNotDivisibleBy8 511 512)) Demo.w0 [].
Proof.
  assert (Hbad : 511 `mod` 8 ≠ 0 ∨ 512 `mod` 8 ≠ 0) by (left; discriminate).
  split; [reflexivity |].
  exact (call_rejects_indivisible Demo.pipe (PStr "a cat") 511 512 50 (15 # 2)%Q None None
           (Some (Demo.watch Demo.pipe)) tt Demo.w0 Hbad).
Defined.

